(** * GrabDoc: bake-map descriptors, node-group recipes and the splice protocol

    A shallow embedding of [utils/baker.py] and [utils/node.py].

    The add-on drives a host application through its Python API.  The host's
    documents are modelled as explicit state:
    - scene, render, view and add-on settings are RNA properties; they are kept
      in a store indexed by RNA path ([Store]);
    - attributes that Python code hangs on an object ([self.savedRenderer = ...])
      live in an attribute dictionary ([Attrs]), where a read of a name that was
      never assigned raises [AttributeError];
    - data-blocks that are looked up by name ([bpy.data.materials], objects,
      texts) are finite maps; node groups keep their creation order;
    - node trees are lists of nodes and links; a node is identified by a
      numeric handle (the host hands out object references), its name is an
      attribute that the host keeps unique by suffixing.

    Python exceptions are modelled by a state-and-exception monad in which the
    state reached when the exception is raised is kept, as in Python.
    A finite float is modelled by the rational it denotes; the rounding of
    Python's 64-bit floats and of the host's 32-bit float properties is
    written out ([binary64], [float32]). *)

From Stdlib Require Import String Ascii List ZArith QArith Qabs Bool Lia.
From Stdlib Require Qcanon.
From stdpp Require Import base option list gmap strings fin_maps.

Set Default Proof Using "Type".

(** ** Python values and exceptions *)

(** [VFloat q] is a finite float, [VInf] an infinity, [VNan] a NaN. *)
Inductive Val :=
| VNone
| VBool (b : bool)
| VInt (z : Z)
| VFloat (q : Q)
| VStr (s : string)
| VVec (l : list Q)
| VInf (negative : bool)
| VNan.

Inductive exn :=
| AttributeError
| KeyError
| IndexError
| TypeError
| ValueError
| OverflowError.

(** A computation over a state [S]: the state after the call, and either the
    exception that ended it or its result. *)
Definition M (S A : Type) : Type := S → S * (exn + A).

Definition ret {S A} (a : A) : M S A := λ s, (s, inr a).
Definition raise {S A} (e : exn) : M S A := λ s, (s, inl e).
Definition bind {S A B} (m : M S A) (f : A → M S B) : M S B :=
  λ s, match m s with
       | (s', inr a) => f a s'
       | (s', inl e) => (s', inl e)
       end.
Definition get {S} : M S S := λ s, (s, inr s).
Definition put {S} (s : S) : M S unit := λ _, (s, inr tt).
Definition modify {S} (f : S → S) : M S unit := λ s, (f s, inr tt).
Definition lift_opt {S A} (e : exn) (o : option A) : M S A :=
  match o with Some a => ret a | None => raise e end.

Notation "'let*' x := m 'in' k" := (bind m (λ x, k))
  (at level 10, x name, m at level 100, k at level 200,
   format "'[v' 'let*'  x  :=  m  'in'  '/' k ']'").
Notation "m >> k" := (bind m (λ _, k))
  (at level 100, k at level 200, right associativity,
   format "'[v' m  >>  '/' k ']'").

(** [for x in l: body x] *)
Fixpoint for_each {S A} (l : list A) (body : A → M S unit) : M S unit :=
  match l with
  | [] => ret tt
  | x :: l' => body x >> for_each l' body
  end.

(** ** Python string methods used by the add-on *)

Definition upper_ascii (c : ascii) : ascii :=
  let n := nat_of_ascii c in
  if (97 <=? n)%nat && (n <=? 122)%nat then ascii_of_nat (n - 32) else c.

Definition lower_ascii (c : ascii) : ascii :=
  let n := nat_of_ascii c in
  if (65 <=? n)%nat && (n <=? 90)%nat then ascii_of_nat (n + 32) else c.

Fixpoint str_map (f : ascii → ascii) (s : string) : string :=
  match s with
  | EmptyString => EmptyString
  | String c s' => String (f c) (str_map f s')
  end.

(** [s.upper()] *)
Definition upper (s : string) : string := str_map upper_ascii s.

(** [s.capitalize()] *)
Definition capitalize (s : string) : string :=
  match s with
  | EmptyString => EmptyString
  | String c s' => String (upper_ascii c) (str_map lower_ascii s')
  end.

(** [s.replace(a, b)] for single characters *)
Definition replace_char (a b : ascii) (s : string) : string :=
  str_map (λ c, if Ascii.eqb c a then b else c) s.

(** [sub in s] *)
Definition contains (sub s : string) : bool :=
  match index 0 sub s with Some _ => true | None => false end.

(** [s.startswith(p)] *)
Definition startswith (s p : string) : bool := String.prefix p s.

(** [s.split(' ')[-1]]: the part of [s] after its last space. *)
Fixpoint last_word_from (acc s : string) : string :=
  match s with
  | EmptyString => acc
  | String c s' =>
      if Ascii.eqb c " "%char then last_word_from EmptyString s'
      else last_word_from (acc +:+ String c EmptyString) s'
  end.
Definition last_word (s : string) : string := last_word_from EmptyString s.

(** ** Property stores *)

(** RNA properties by path; every path has a value. *)
Definition Store := string → Val.

Definition sset (p : string) (v : Val) (s : Store) : Store :=
  λ p', if String.eqb p p' then v else s p'.

(** Attributes of a Python object. *)
Definition Attrs := string → option Val.

Definition aset (a : string) (v : Val) (o : Attrs) : Attrs :=
  λ a', if String.eqb a a' then Some v else o a'.

Definition no_attrs : Attrs := λ _, None.

(** Python truthiness of a value. *)
Definition truthy (v : Val) : bool :=
  match v with
  | VNone => false
  | VBool b => b
  | VInt z => negb (z =? 0)%Z
  | VFloat q => negb (Qeq_bool q 0)
  | VStr s => negb (String.eqb s "")
  | VVec l => negb (Nat.eqb (length l) 0)
  | VInf _ | VNan => true
  end.

Definition val_eqb_str (v : Val) (s : string) : bool :=
  match v with VStr s' => String.eqb s' s | _ => false end.

(** ** Floats

    Python computes with 64-bit floats; a float property of the host holds a
    32-bit float.  Both round to the nearest float, ties to the one with an
    even mantissa. *)

(** [a / b] rounded to the nearest integer, ties to the even one ([0 < b]). *)
Definition round_half_even (a b : Z) : Z :=
  let f := (a / b)%Z in
  match (2 * (a mod b) ?= b)%Z with
  | Lt => f
  | Eq => if Z.even f then f else (f + 1)%Z
  | Gt => (f + 1)%Z
  end.

(** The [e] with [2^e <= |q| < 2^(e+1)], for [q] other than zero. *)
Definition exponent (q : Q) : Z :=
  let a := Z.abs (Qnum q) in
  let d := Z.pos (Qden q) in
  let e := (Z.log2 a - Z.log2 d)%Z in
  if (if 0 <=? e then d * 2 ^ e <=? a else d <=? a * 2 ^ (- e))%Z
  then e else (e - 1)%Z.

(** The number nearest to [q], ties to even, among the floats with [prec]
    bits of precision whose least exponent is [emin] (and with no greatest
    exponent). *)
Definition round_float (prec emin : Z) (q : Q) : Q :=
  if (Qnum q =? 0)%Z then 0
  else
    let x := Z.max (exponent q - prec + 1) emin in
    if (x <=? 0)%Z then
      Qred (Qmake (round_half_even (Qnum q * 2 ^ (- x)) (Z.pos (Qden q)))
              (Z.to_pos (2 ^ (- x))))
    else
      inject_Z (round_half_even (Qnum q) (Z.pos (Qden q) * 2 ^ x) * 2 ^ x).

(** Rounding to a 64-bit float; a result of [2^1024] or more in size stands
    for an infinity ([overflows]). *)
Definition binary64 (q : Q) : Q := round_float 53 (-1074) q.

Definition overflows (f : Q) : bool :=
  Qle_bool (inject_Z (2 ^ 1024)) (Qabs f).

(** The greatest 32-bit float. *)
Definition FLT_MAX : Q := inject_Z ((2 ^ 24 - 1) * 2 ^ 104).

(** What a float property of the host holds after a finite Python float was
    assigned to it: the nearest 32-bit float, clamped to the range of the
    finite ones (the range of a property that declares none). *)
Definition float32 (q : Q) : Q :=
  let r := round_float 24 (-149) q in
  if Qle_bool FLT_MAX r then FLT_MAX
  else if Qle_bool r (- FLT_MAX) then - FLT_MAX
  else r.

(** [a + b] and [a - b] on Python floats. *)
Definition py_add (a b : Q) : Q := binary64 (a + b).
Definition py_sub (a b : Q) : Q := binary64 (a - b).

(** What a float property of the host holds of the value assigned to it:
    of a float the 32-bit float, of a sequence of numbers the 32-bit floats.
    A value of another type is kept as it was assigned. *)
Definition held (v : Val) : Val :=
  match v with
  | VFloat q => VFloat (float32 q)
  | VInf negative => VFloat (if negative then - FLT_MAX else FLT_MAX)
  | VVec l => VVec (float32 <$> l)
  | _ => v
  end.

(** ** The add-on's constants

    [constants.Global] is not part of these sources; the functions take the
    names they read from it as a parameter. *)

Record Global := {
  NORMAL_NODE : string;
  CURVATURE_NODE : string;
  OCCLUSION_NODE : string;
  HEIGHT_NODE : string;
  ALPHA_NODE : string;
  COLOR_NODE : string;
  EMISSIVE_NODE : string;
  ROUGHNESS_NODE : string;
  METALLIC_NODE : string;
  METALNESS_NODE : string;
  ALPHA_NAME : string;
  COLOR_NAME : string;
  ROUGHNESS_NAME : string;
  METALLIC_NAME : string;
  GD_MATERIAL_NAME : string;
  TRIM_CAMERA_NAME : string;
  BG_PLANE_NAME : string;
  NG_NODE_WARNING : string;
  SHADER_MAP_NAMES : list string;
  ALL_MAP_IDS : list string;
}.

(** ** Bake-map descriptors ([Baker] and its sub-classes) *)

Inductive MapKind :=
| Normals | Curvature | Occlusion | Height | Alpha
| Id | Color | Emissive | Roughness | Metalness.

(** One property group; the properties of all sub-classes side by side. *)
Record BakeMap := {
  kind : MapKind;
  enabled : bool;
  reimport : bool;
  suffix : string;
  visibility : bool;
  samples : Z;
  samples_cycles : Z;
  samples_workbench : string;
  contrast : string;
  engine : string;
  flip_y : bool;
  use_texture : bool;
  ridge : Q;
  valley : Q;
  gamma : Q;
  distance : Q;
  invert : bool;
  method : string;
}.

Definition COLOR_SPACE (k : MapKind) : string := "sRGB".
Definition VIEW_TRANSFORM (k : MapKind) : string := "Standard".

(** The class attribute [NODE]. *)
Definition NODE (G : Global) (k : MapKind) : option string :=
  match k with
  | Normals => Some (NORMAL_NODE G)
  | Curvature => None
  | Occlusion => Some (OCCLUSION_NODE G)
  | Height => Some (HEIGHT_NODE G)
  | Alpha => Some (ALPHA_NODE G)
  | Id => None
  | Color => Some (COLOR_NODE G)
  | Emissive => Some (EMISSIVE_NODE G)
  | Roughness => Some (ROUGHNESS_NODE G)
  | Metalness => Some (METALNESS_NODE G)
  end.

(** ** Node trees *)

(** A socket of a node in a material's tree. [s_default = None]: the socket
    has no [default_value] (shader sockets). *)
Record Sock := {
  s_name : string;
  s_type : string;
  s_default : option Val;
}.

(** A node of a material's tree. [n_type] is the host's [node.type];
    [n_group] is [node.node_tree] of a group node, by name. *)
Record Node := {
  n_id : nat;
  n_name : string;
  n_type : string;
  n_group : option string;
  n_inputs : list Sock;
  n_outputs : list Sock;
  n_attrs : list (string * Val);
}.

(** A link, from an output socket to an input socket; sockets are addressed
    by name, as the add-on addresses them. *)
Record Link := {
  l_from_node : nat;
  l_from_socket : string;
  l_to_node : nat;
  l_to_socket : string;
}.

Record NodeTree := {
  t_nodes : list Node;
  t_links : list Link;
}.

(** A socket of a node group's interface ([tree.interface.new_socket]). *)
Record ISock := {
  i_name : string;
  i_socket_type : string;
  i_in_out : string;
  i_parent : option string;
  i_default : option Val;
}.

(** A socket of a recipe node, by name or by position. *)
Inductive SockRef :=
| ByName (n : string)
| ByIndex (i : nat).

(** A node of a recipe: its [bl_idname], its name, and the attributes the
    add-on assigned, by path, with the values the node holds for them
    ([held]). *)
Record RNode := {
  rn_idname : string;
  rn_name : string;
  rn_attrs : list (string * Val);
}.

(** A link of a recipe; nodes by their position in the tree. *)
Record RLink := {
  rl_to_node : nat;
  rl_to : SockRef;
  rl_from_node : nat;
  rl_from : SockRef;
}.

(** A node group ([bpy.data.node_groups]). *)
Record Recipe := {
  r_name : string;
  r_use_fake_user : bool;
  r_panels : list string;
  r_interface : list ISock;
  r_nodes : list RNode;
  r_links : list RLink;
}.

(** ** The document *)

Record Material := {
  use_nodes : bool;
  blend_method : string;
  node_tree : option NodeTree;
}.

(** An object: its material slots (the name of the slot's material, [None]
    for an empty slot), the active slot, the location, the visibility flags. *)
Record Obj := {
  material_slots : list (option string);
  active_material_index : nat;
  location : Q * Q * Q;
  hide_viewport : bool;
  hide_render : bool;
  hide : bool;
}.

(** A screen area: its type and [use_local_camera] of each of its spaces. *)
Record Area := {
  area_type : string;
  spaces : list bool;
}.

Record Blend := {
  rna : Store;
  world : option bool;
  areas : list Area;
  camera : option string;
  images : list string;
  reference : option string;
  app_version : nat * nat * nat;
  node_groups : list Recipe;
  materials : gmap string Material;
  objects : gmap string Obj;
  texts : gmap string string;
  gd : gmap string (list BakeMap);
}.

Definition set_rna (v : Store) (d : Blend) : Blend :=
  {| rna := v; world := world d; areas := areas d; camera := camera d;
     images := images d; reference := reference d;
     app_version := app_version d; node_groups := node_groups d;
     materials := materials d; objects := objects d; texts := texts d;
     gd := gd d |}.
Definition set_world (v : option bool) (d : Blend) : Blend :=
  {| rna := rna d; world := v; areas := areas d; camera := camera d;
     images := images d; reference := reference d;
     app_version := app_version d; node_groups := node_groups d;
     materials := materials d; objects := objects d; texts := texts d;
     gd := gd d |}.
Definition set_areas (v : list Area) (d : Blend) : Blend :=
  {| rna := rna d; world := world d; areas := v; camera := camera d;
     images := images d; reference := reference d;
     app_version := app_version d; node_groups := node_groups d;
     materials := materials d; objects := objects d; texts := texts d;
     gd := gd d |}.
Definition set_camera (v : option string) (d : Blend) : Blend :=
  {| rna := rna d; world := world d; areas := areas d; camera := v;
     images := images d; reference := reference d;
     app_version := app_version d; node_groups := node_groups d;
     materials := materials d; objects := objects d; texts := texts d;
     gd := gd d |}.
Definition set_reference (v : option string) (d : Blend) : Blend :=
  {| rna := rna d; world := world d; areas := areas d; camera := camera d;
     images := images d; reference := v;
     app_version := app_version d; node_groups := node_groups d;
     materials := materials d; objects := objects d; texts := texts d;
     gd := gd d |}.
Definition set_node_groups (v : list Recipe) (d : Blend) : Blend :=
  {| rna := rna d; world := world d; areas := areas d; camera := camera d;
     images := images d; reference := reference d;
     app_version := app_version d; node_groups := v;
     materials := materials d; objects := objects d; texts := texts d;
     gd := gd d |}.
Definition set_materials (v : gmap string Material) (d : Blend) : Blend :=
  {| rna := rna d; world := world d; areas := areas d; camera := camera d;
     images := images d; reference := reference d;
     app_version := app_version d; node_groups := node_groups d;
     materials := v; objects := objects d; texts := texts d;
     gd := gd d |}.
Definition set_objects (v : gmap string Obj) (d : Blend) : Blend :=
  {| rna := rna d; world := world d; areas := areas d; camera := camera d;
     images := images d; reference := reference d;
     app_version := app_version d; node_groups := node_groups d;
     materials := materials d; objects := v; texts := texts d;
     gd := gd d |}.
Definition set_texts (v : gmap string string) (d : Blend) : Blend :=
  {| rna := rna d; world := world d; areas := areas d; camera := camera d;
     images := images d; reference := reference d;
     app_version := app_version d; node_groups := node_groups d;
     materials := materials d; objects := objects d; texts := v;
     gd := gd d |}.

Arguments set_rna v d /.
Arguments set_world v d /.
Arguments set_areas v d /.
Arguments set_camera v d /.
Arguments set_reference v d /.
Arguments set_node_groups v d /.
Arguments set_materials v d /.
Arguments set_objects v d /.
Arguments set_texts v d /.

(** ** The host's node API

    What the add-on calls on node trees: [nodes.new], [nodes.get],
    [nodes.remove], [links.new], [links.remove], name assignment.  The host
    keeps the names of the nodes of a tree unique: a name that is taken gets
    the first free suffix [.001], [.002], ... *)

Definition digit (n : nat) : string :=
  String (ascii_of_nat (48 + n mod 10)) EmptyString.

Fixpoint decimal (fuel n : nat) : string :=
  match fuel with
  | O => EmptyString
  | S fuel' => if (n <? 10)%nat then digit n else decimal fuel' (n / 10) +:+ digit n
  end.

(** [.001], [.002], ..., [.999], [.1000], ... *)
Definition name_suffix (n : nat) : string :=
  "." +:+ (if (n <? 10)%nat then "00" else if (n <? 100)%nat then "0" else "")
      +:+ decimal (S n) n.

Fixpoint first_free (taken : list string) (base : string) (fuel n : nat) : string :=
  match fuel with
  | O => base +:+ name_suffix n
  | S fuel' =>
      if bool_decide (base +:+ name_suffix n ∈ taken)
      then first_free taken base fuel' (S n)
      else base +:+ name_suffix n
  end.

Definition unique_name (taken : list string) (base : string) : string :=
  if bool_decide (base ∈ taken) then first_free taken base (length taken) 1
  else base.

(** Attributes assigned to a node, by path. *)
Fixpoint attr_set (k : string) (v : Val) (l : list (string * Val))
  : list (string * Val) :=
  match l with
  | [] => [(k, v)]
  | (k', v') :: l' =>
      if String.eqb k k' then (k, v) :: l' else (k', v') :: attr_set k v l'
  end.

Fixpoint attr_get (k : string) (l : list (string * Val)) : option Val :=
  match l with
  | [] => None
  | (k', v') :: l' => if String.eqb k k' then Some v' else attr_get k l'
  end.

(** *** Material trees *)

Definition node_names (t : NodeTree) : list string := n_name <$> t_nodes t.

(** [name in nodes] *)
Definition name_in_nodes (name : string) (t : NodeTree) : bool :=
  bool_decide (name ∈ node_names t).

(** [nodes.get(name)] *)
Definition nodes_get (name : string) (t : NodeTree) : option Node :=
  List.find (λ n, String.eqb (n_name n) name) (t_nodes t).

(** The node behind a handle. *)
Definition node_by_id (i : nat) (t : NodeTree) : option Node :=
  List.find (λ n, Nat.eqb (n_id n) i) (t_nodes t).

(** A handle no node of the tree has. *)
Definition fresh_id (t : NodeTree) : nat := S (list_max (n_id <$> t_nodes t)).

(** [nodes.new(...)]: a node of the given type and sockets, named by the
    host from [base]; the result is the tree and the new node's handle. *)
Definition nodes_new (ty base : string) (group : option string)
  (ins outs : list Sock) (t : NodeTree) : NodeTree * nat :=
  let n := {| n_id := fresh_id t;
              n_name := unique_name (node_names t) base;
              n_type := ty; n_group := group;
              n_inputs := ins; n_outputs := outs; n_attrs := [] |} in
  ({| t_nodes := t_nodes t ++ [n]; t_links := t_links t |}, fresh_id t).

Definition update_node (i : nat) (f : Node → Node) (t : NodeTree) : NodeTree :=
  {| t_nodes := (λ n, if Nat.eqb (n_id n) i then f n else n) <$> t_nodes t;
     t_links := t_links t |}.

Definition with_name (name : string) (n : Node) : Node :=
  {| n_id := n_id n; n_name := name; n_type := n_type n; n_group := n_group n;
     n_inputs := n_inputs n; n_outputs := n_outputs n; n_attrs := n_attrs n |}.

Definition with_attr (k : string) (v : Val) (n : Node) : Node :=
  {| n_id := n_id n; n_name := n_name n; n_type := n_type n; n_group := n_group n;
     n_inputs := n_inputs n; n_outputs := n_outputs n;
     n_attrs := attr_set k v (n_attrs n) |}.

Definition with_inputs (ins : list Sock) (n : Node) : Node :=
  {| n_id := n_id n; n_name := n_name n; n_type := n_type n; n_group := n_group n;
     n_inputs := ins; n_outputs := n_outputs n; n_attrs := n_attrs n |}.

(** [node.name = name]: unique among the other nodes of the tree. *)
Definition set_node_name (i : nat) (name : string) (t : NodeTree) : NodeTree :=
  let others :=
    n_name <$> List.filter (λ n, negb (Nat.eqb (n_id n) i)) (t_nodes t) in
  update_node i (with_name (unique_name others name)) t.

Definition set_node_attr (i : nat) (k : string) (v : Val) (t : NodeTree)
  : NodeTree := update_node i (with_attr k v) t.

Definition link_eqb (a b : Link) : bool :=
  Nat.eqb (l_from_node a) (l_from_node b)
  && String.eqb (l_from_socket a) (l_from_socket b)
  && Nat.eqb (l_to_node a) (l_to_node b)
  && String.eqb (l_to_socket a) (l_to_socket b).

Definition into (i : nat) (sock : string) (l : Link) : bool :=
  Nat.eqb (l_to_node l) i && String.eqb (l_to_socket l) sock.

(** [socket.links] of an input socket. *)
Definition links_into (i : nat) (sock : string) (t : NodeTree) : list Link :=
  List.filter (into i sock) (t_links t).

(** [socket.links] of an output socket. *)
Definition links_out_of (i : nat) (sock : string) (t : NodeTree) : list Link :=
  List.filter (λ l, Nat.eqb (l_from_node l) i && String.eqb (l_from_socket l) sock)
    (t_links t).

(** [links.new(input, output)]: an input socket holds one link, so the link
    that was there is replaced. *)
Definition links_new (to_node : nat) (to_socket : string)
  (from_node : nat) (from_socket : string) (t : NodeTree) : NodeTree :=
  {| t_nodes := t_nodes t;
     t_links :=
       List.filter (λ l, negb (into to_node to_socket l)) (t_links t)
       ++ [{| l_from_node := from_node; l_from_socket := from_socket;
              l_to_node := to_node; l_to_socket := to_socket |}];
  |}.

(** [links.remove(link)] *)
Definition links_remove (l : Link) (t : NodeTree) : NodeTree :=
  {| t_nodes := t_nodes t;
     t_links := List.filter (λ l', negb (link_eqb l l')) (t_links t);
  |}.

(** [nodes.remove(node)]: the node goes, and its links with it. *)
Definition nodes_remove (i : nat) (t : NodeTree) : NodeTree :=
  {| t_nodes := List.filter (λ n, negb (Nat.eqb (n_id n) i)) (t_nodes t);
     t_links :=
       List.filter (λ l, negb (Nat.eqb (l_from_node l) i)
                         && negb (Nat.eqb (l_to_node l) i)) (t_links t);
  |}.

(** [sockets[name]] *)
Definition sock_get (name : string) (socks : list Sock) : option Sock :=
  List.find (λ s, String.eqb (s_name s) name) socks.

Definition has_sock (name : string) (socks : list Sock) : bool :=
  match sock_get name socks with Some _ => true | None => false end.

Fixpoint sock_set_default (name : string) (v : Val) (socks : list Sock)
  : list Sock :=
  match socks with
  | [] => []
  | s :: rest =>
      if String.eqb (s_name s) name
      then {| s_name := s_name s; s_type := s_type s; s_default := Some v |} :: rest
      else s :: sock_set_default name v rest
  end.

(** The inputs of the host's Material Output node, with their socket types.
    The add-on names all four. *)
Definition material_output_sockets : list (string * string) :=
  [ ("Surface", "SHADER"); ("Volume", "SHADER");
    ("Displacement", "VECTOR"); ("Thickness", "VALUE") ].

(** What the add-on needs to know of the host and of the Python runtime
    beyond that: the name a new recipe node gets; what the assignment of a
    value to the [default_value] of a socket of some type does (the value
    the socket then holds, or the exception the host refuses the value
    with); the input sockets of a Principled BSDF node; and [float(s)] of a
    string [s]. *)
Record Host := {
  default_node_name : string → string;
  set_default_value : string → Val → exn + Val;
  principled_inputs : list Sock;
  float_of_str : string → exn + Val;
}.

(** [material.use_nodes = True]: a material without a tree gets the host's
    default one, a Principled BSDF wired into a Material Output. *)
Definition default_tree (H : Host) : NodeTree :=
  {| t_nodes :=
       [ {| n_id := 0; n_name := "Principled BSDF"; n_type := "BSDF_PRINCIPLED";
            n_group := None; n_inputs := principled_inputs H;
            n_outputs := [ {| s_name := "BSDF"; s_type := "SHADER";
                              s_default := None |} ];
            n_attrs := [] |};
         {| n_id := 1; n_name := "Material Output"; n_type := "OUTPUT_MATERIAL";
            n_group := None;
            n_inputs := (λ p, {| s_name := p.1; s_type := p.2; s_default := None |})
                        <$> material_output_sockets;
            n_outputs := []; n_attrs := [] |} ];
     t_links := [ {| l_from_node := 0; l_from_socket := "BSDF";
                     l_to_node := 1; l_to_socket := "Surface" |} ] |}.

Definition enable_nodes (H : Host) (m : Material) : Material :=
  {| use_nodes := true; blend_method := blend_method m;
     node_tree := Some (default (default_tree H) (node_tree m)) |}.

Definition set_tree (t : NodeTree) (m : Material) : Material :=
  {| use_nodes := use_nodes m; blend_method := blend_method m;
     node_tree := Some t |}.

Definition set_blend_method (b : string) (m : Material) : Material :=
  {| use_nodes := use_nodes m; blend_method := b; node_tree := node_tree m |}.

(** *** Node groups *)

Definition group_names (d : Blend) : list string := r_name <$> node_groups d.

(** [bpy.data.node_groups.get(name)] *)
Definition groups_get (name : string) (d : Blend) : option Recipe :=
  List.find (λ r, String.eqb (r_name r) name) (node_groups d).

(** The sockets a group node shows for a group: its interface. *)
Definition group_sockets (in_out : string) (r : Recipe) : list Sock :=
  (λ i, {| s_name := i_name i; s_type := i_socket_type i;
           s_default := i_default i |})
  <$> List.filter (λ i, String.eqb (i_in_out i) in_out) (r_interface r).

(** ** baker.py *)

Module Baker.

(** Reading and assigning a scene property. *)
Definition getp (p : string) : M Blend Val := λ d, (d, inr (rna d p)).
Definition setp (p : string) (v : Val) : M Blend unit :=
  modify (λ d, set_rna (sset p v (rna d)) d).

(** A call that works on the document, made from a method of [self]. *)
Definition on_doc {A} (m : M Blend A) : M (Attrs * Blend) A :=
  λ '(self, d), let '(d', r) := m d in ((self, d'), r).

(** [self.a = v] and [self.a]. *)
Definition self_set (a : string) (v : Val) : M (Attrs * Blend) unit :=
  modify (λ '(self, d), (aset a v self, d)).
Definition self_get (a : string) : M (Attrs * Blend) Val :=
  λ '(self, d),
    match self a with
    | Some v => ((self, d), inr v)
    | None => ((self, d), inl AttributeError)
    end.

(** [self.a = <scene>.p] *)
Definition capture (a p : string) : M (Attrs * Blend) unit :=
  let* v := on_doc (getp p) in self_set a v.

(** [<scene>.p = self.a] *)
Definition restore (p a : string) : M (Attrs * Blend) unit :=
  let* v := self_get a in on_doc (setp p v).

(** [<scene>.p = v] inside a method of [self]. *)
Definition assign (p : string) (v : Val) : M (Attrs * Blend) unit :=
  on_doc (setp p v).

(** [set_color_management] *)
Definition set_color_management (display_device view_transform : string)
  : M Blend unit :=
  setp "display_settings.display_device" (VStr display_device) >>
  setp "view_settings.view_transform" (VStr view_transform) >>
  setp "view_settings.look" (VStr "None") >>
  setp "view_settings.exposure" (VInt 0) >>
  setp "view_settings.gamma" (VInt 1).

(** [Baker.apply_render_settings] *)
Definition apply_render_settings (self : BakeMap) : M Blend unit :=
  setp "render.engine" (VStr (upper (engine self))) >>
  let* e := getp "render.engine" in
  (if val_eqb_str e "BLENDER_EEVEE" then
     setp "eevee.taa_render_samples" (VInt (samples self)) >>
     setp "eevee.taa_samples" (VInt (samples self))
   else if val_eqb_str e "CYCLES" then
     setp "cycles.samples" (VInt (samples_cycles self)) >>
     setp "cycles.preview_samples" (VInt (samples_cycles self))
   else if val_eqb_str e "BLENDER_WORKBENCH" then
     setp "display.render_aa" (VStr (samples_workbench self)) >>
     setp "display.viewport_aa" (VStr (samples_workbench self))
   else ret tt) >>
  set_color_management (COLOR_SPACE (kind self)) (VIEW_TRANSFORM (kind self)) >>
  setp "view_settings.look" (VStr (replace_char "_" " " (contrast self))).

(** [Baker.setup] and [Baker.cleanup], as the sub-classes that do not
    override them inherit them (Color, Emissive, Roughness, Metalness, and
    Alpha). *)
Definition setup (self : BakeMap) : M Blend unit :=
  apply_render_settings self.

Definition cleanup (self : BakeMap) : M Blend unit := ret tt.

(** [bpy.app.version >= (2, 83, 0)] *)
Definition version_ge (v w : nat * nat * nat) : bool :=
  let '(a, b, c) := v in
  let '(a', b', c') := w in
  (a' <? a)%nat
  || ((a =? a')%nat && ((b' <? b)%nat || ((b =? b')%nat && (c' <=? c)%nat))).

(** [space.use_local_camera = False] for the first space of a 3D view. *)
Definition first_space_global (a : Area) : Area :=
  if String.eqb (area_type a) "VIEW_3D" then
    match spaces a with
    | [] => a
    | _ :: rest => {| area_type := area_type a; spaces := false :: rest |}
    end
  else a.

Definition set_bg_plane (hv hr : bool) (o : Obj) : Obj :=
  {| material_slots := material_slots o;
     active_material_index := active_material_index o;
     location := location o;
     hide_viewport := hv; hide_render := hr; hide := false |}.

Definition vnot (v : Val) : Val := VBool (negb (truthy v)).

Section WithGlobal.
Variable G : Global.

(** [baker_init] *)
Definition baker_init : M (Attrs * Blend) unit :=
  (* Active Camera *)
  on_doc (modify (λ d, set_areas (first_space_global <$> areas d) d)) >>
  on_doc (modify (λ d,
    set_camera (match objects d !! TRIM_CAMERA_NAME G with
                | Some _ => Some (TRIM_CAMERA_NAME G)
                | None => None
                end) d)) >>
  (* View layer *)
  capture "savedViewLayerUse" "view_layer.use" >>
  capture "savedUseSingleLayer" "render.use_single_layer" >>
  assign "view_layer.use" (VBool true) >>
  assign "render.use_single_layer" (VBool true) >>
  on_doc (modify (λ d, set_world (match world d with
                                  | Some _ => Some false
                                  | None => None
                                  end) d)) >>
  (* Render Engine (Set per bake map) *)
  capture "savedRenderer" "render.engine" >>
  (* Sampling (Set per bake map) *)
  capture "savedWorkbenchSampling" "display.render_aa" >>
  capture "savedWorkbenchVPSampling" "display.viewport_aa" >>
  capture "savedEeveeRenderSampling" "eevee.taa_render_samples" >>
  capture "savedEeveeSampling" "eevee.taa_samples" >>
  capture "savedCyclesSampling" "cycles.preview_samples" >>
  capture "savedCyclesRenderSampling" "cycles.samples" >>
  (* Bloom *)
  capture "savedUseBloom" "eevee.use_bloom" >>
  assign "eevee.use_bloom" (VBool false) >>
  (* Ambient Occlusion *)
  capture "savedUseAO" "eevee.use_gtao" >>
  capture "savedAODistance" "eevee.gtao_distance" >>
  capture "savedAOQuality" "eevee.gtao_quality" >>
  assign "eevee.use_gtao" (VBool false) >>
  assign "eevee.gtao_distance" (VFloat 0.2) >>
  assign "eevee.gtao_quality" (VFloat 0.5) >>
  (* Color Management *)
  capture "savedDisplayDevice" "display_settings.display_device" >>
  capture "savedViewTransform" "view_settings.view_transform" >>
  capture "savedContrastType" "view_settings.look" >>
  capture "savedExposure" "view_settings.exposure" >>
  capture "savedGamma" "view_settings.gamma" >>
  capture "savedTransparency" "render.film_transparent" >>
  (* Performance *)
  let* d := on_doc get in
  (if version_ge (app_version d) (2, 83, 0)%nat then
     capture "savedHQNormals" "render.use_high_quality_normals" >>
     assign "render.use_high_quality_normals" (VBool true)
   else ret tt) >>
  (* Film *)
  capture "savedFilterSize" "render.filter_size" >>
  capture "savedFilterSizeCycles" "cycles.filter_width" >>
  capture "savedFilterSizeTypeCycles" "cycles.pixel_filter_type" >>
  let* fw := on_doc (getp "gd.filter_width") in
  assign "render.filter_size" fw >>
  assign "cycles.filter_width" fw >>
  assign "cycles.pixel_filter_type" (VStr "BLACKMAN_HARRIS") >>
  (* Dimensions *)
  let* rx := on_doc (getp "gd.resolution_x") in
  assign "render.resolution_x" rx >>
  let* ry := on_doc (getp "gd.resolution_y") in
  assign "render.resolution_y" ry >>
  assign "render.resolution_percentage" (VInt 100) >>
  (* Output *)
  capture "savedColorMode" "render.image_settings.color_mode" >>
  capture "savedFileFormat" "render.image_settings.file_format" >>
  capture "savedColorDepth" "render.image_settings.color_depth" >>
  (* If background plane not visible in render, create alpha channel *)
  let* coll_rendered := on_doc (getp "gd.coll_rendered") in
  (if negb (truthy coll_rendered) then
     assign "render.film_transparent" (VBool true) >>
     assign "render.image_settings.color_mode" (VStr "RGBA")
   else
     assign "render.image_settings.color_mode" (VStr "RGB")) >>
  (* Format *)
  let* fmt := on_doc (getp "gd.format") in
  assign "render.image_settings.file_format" fmt >>
  (if val_eqb_str fmt "OPEN_EXR" then
     let* x := on_doc (getp "gd.exr_depth") in
     assign "render.image_settings.color_depth" x
   else if negb (val_eqb_str fmt "TARGA") then
     let* x := on_doc (getp "gd.depth") in
     assign "render.image_settings.color_depth" x
   else ret tt) >>
  (if val_eqb_str fmt "PNG" then
     let* x := on_doc (getp "gd.png_compression") in
     assign "render.image_settings.compression" x
   else ret tt) >>
  (* Post Processing *)
  capture "savedUseSequencer" "render.use_sequencer" >>
  capture "savedUseCompositor" "render.use_compositing" >>
  capture "savedDitherIntensity" "render.dither_intensity" >>
  assign "render.use_sequencer" (VBool false) >>
  assign "render.use_compositing" (VBool false) >>
  assign "render.dither_intensity" (VInt 0) >>
  (* Viewport shading *)
  capture "savedLight" "display.shading.light" >>
  capture "savedColorType" "display.shading.color_type" >>
  capture "savedBackface" "display.shading.show_backface_culling" >>
  capture "savedXray" "display.shading.show_xray" >>
  capture "savedShadows" "display.shading.show_shadows" >>
  capture "savedCavity" "display.shading.show_cavity" >>
  capture "savedDOF" "display.shading.use_dof" >>
  capture "savedOutline" "display.shading.show_object_outline" >>
  capture "savedShowSpec" "display.shading.show_specular_highlight" >>
  assign "display.shading.show_backface_culling" (VBool false) >>
  assign "display.shading.show_xray" (VBool false) >>
  assign "display.shading.show_shadows" (VBool false) >>
  assign "display.shading.show_cavity" (VBool false) >>
  assign "display.shading.use_dof" (VBool false) >>
  assign "display.shading.show_object_outline" (VBool false) >>
  assign "display.shading.show_specular_highlight" (VBool false) >>
  (* Reference *)
  let* d := on_doc get in
  self_set "savedRefSelection"
    (match reference d with Some n => VStr n | None => VNone end) >>
  (* Background plane visibility *)
  let* d := on_doc get in
  let* bg := lift_opt AttributeError (objects d !! BG_PLANE_NAME G) in
  let* vis := on_doc (getp "gd.coll_visible") in
  on_doc (modify (λ d,
    set_objects (<[BG_PLANE_NAME G :=
                   set_bg_plane (negb (truthy vis)) (negb (truthy coll_rendered)) bg]>
                 (objects d)) d)).

(** [baker_cleanup] *)
Definition baker_cleanup : M (Attrs * Blend) unit :=
  (* View layer *)
  restore "view_layer.use" "savedViewLayerUse" >>
  restore "render.use_single_layer" "savedUseSingleLayer" >>
  on_doc (modify (λ d, set_world (match world d with
                                  | Some _ => Some true
                                  | None => None
                                  end) d)) >>
  (* Render Engine *)
  restore "render.engine" "savedRenderer" >>
  (* Sampling *)
  restore "display.render_aa" "savedWorkbenchSampling" >>
  restore "display.viewport_aa" "savedWorkbenchVPSampling" >>
  restore "eevee.taa_render_samples" "savedEeveeRenderSampling" >>
  restore "eevee.taa_samples" "savedEeveeSampling" >>
  capture "savedCyclesSampling" "cycles.preview_samples" >>
  capture "savedCyclesRenderSampling" "cycles.samples" >>
  (* Bloom *)
  restore "eevee.use_bloom" "savedUseBloom" >>
  (* Ambient Occlusion *)
  restore "eevee.use_gtao" "savedUseAO" >>
  restore "eevee.gtao_distance" "savedAODistance" >>
  restore "eevee.gtao_quality" "savedAOQuality" >>
  (* Color Management *)
  restore "view_settings.look" "savedContrastType" >>
  restore "display_settings.display_device" "savedDisplayDevice" >>
  restore "view_settings.view_transform" "savedViewTransform" >>
  restore "view_settings.exposure" "savedExposure" >>
  restore "view_settings.gamma" "savedGamma" >>
  restore "render.film_transparent" "savedTransparency" >>
  (* Performance *)
  let* d := on_doc get in
  (if version_ge (app_version d) (2, 83, 0)%nat then
     restore "render.use_high_quality_normals" "savedHQNormals"
   else ret tt) >>
  (* Film *)
  restore "render.filter_size" "savedFilterSize" >>
  restore "cycles.filter_width" "savedFilterSizeCycles" >>
  restore "cycles.pixel_filter_type" "savedFilterSizeTypeCycles" >>
  (* Output *)
  restore "render.image_settings.color_depth" "savedColorDepth" >>
  restore "render.image_settings.color_mode" "savedColorMode" >>
  restore "render.image_settings.file_format" "savedFileFormat" >>
  (* Post Processing *)
  restore "render.use_sequencer" "savedUseSequencer" >>
  restore "render.use_compositing" "savedUseCompositor" >>
  restore "render.dither_intensity" "savedDitherIntensity" >>
  (* Refresh *)
  restore "display.shading.show_cavity" "savedCavity" >>
  restore "display.shading.color_type" "savedColorType" >>
  restore "display.shading.show_backface_culling" "savedBackface" >>
  restore "display.shading.show_xray" "savedXray" >>
  restore "display.shading.show_shadows" "savedShadows" >>
  restore "display.shading.use_dof" "savedDOF" >>
  restore "display.shading.show_object_outline" "savedOutline" >>
  restore "display.shading.show_specular_highlight" "savedShowSpec" >>
  restore "display.shading.light" "savedLight" >>
  let* r := self_get "savedRefSelection" in
  let* d := on_doc get in
  if truthy r then
    match r with
    | VStr n =>
        if bool_decide (n ∈ images d) then
          on_doc (modify (set_reference (Some n)))
        else raise KeyError
    | _ => raise KeyError
    end
  else ret tt.

(** [get_bakers]: the collections [gd.<id>] of the map ids, an id the
    add-on's properties do not have being skipped (with a printed note). *)
Fixpoint get_bakers_from (ids : list string) (props : gmap string (list BakeMap))
  : list (list BakeMap) :=
  match ids with
  | [] => []
  | name :: ids' =>
      match props !! name with
      | Some baker => baker :: get_bakers_from ids' props
      | None => get_bakers_from ids' props
      end
  end.

Definition get_bakers (d : Blend) : list (list BakeMap) :=
  get_bakers_from (ALL_MAP_IDS G) (gd d).

(** [get_bake_maps]: the two loops, appending to [bake_maps]. *)
Fixpoint scan_baker (enabled_only : bool) (baker bake_maps : list BakeMap)
  : list BakeMap :=
  match baker with
  | [] => bake_maps
  | bake_map :: rest =>
      if enabled_only && negb (enabled bake_map && visibility bake_map)
      then scan_baker enabled_only rest bake_maps
      else scan_baker enabled_only rest (bake_maps ++ [bake_map])
  end.

Fixpoint scan_bakers (enabled_only : bool) (bakers : list (list BakeMap))
  (bake_maps : list BakeMap) : list BakeMap :=
  match bakers with
  | [] => bake_maps
  | baker :: rest =>
      scan_bakers enabled_only rest (scan_baker enabled_only baker bake_maps)
  end.

Definition get_bake_maps (enabled_only : bool) (d : Blend) : list BakeMap :=
  scan_bakers enabled_only (get_bakers d) [].

(** Modelled from the spec: the order in which the export operator (not part
    of these sources) calls the functions above, "global init, then for each
    enabled map: setup, render, cleanup, then global cleanup".  The render
    itself changes no setting.  The maps are such that inherit [Baker.setup]
    and [Baker.cleanup]. *)
Definition bake_sequence (maps : list BakeMap) : M (Attrs * Blend) unit :=
  baker_init >>
  for_each maps (λ m, on_doc (setup m) >> on_doc (cleanup m)) >>
  baker_cleanup.

(** *** The update callbacks of the map properties *)

(** The first element that satisfies [p], changed by [f]. *)
Fixpoint update_first {A} (p : A → bool) (f : A → A) (l : list A) : list A :=
  match l with
  | [] => []
  | x :: l' => if p x then f x :: l' else x :: update_first p f l'
  end.

Definition rnode_set (path : string) (v : Val) (x : RNode) : RNode :=
  {| rn_idname := rn_idname x; rn_name := rn_name x;
     rn_attrs := attr_set path (held v) (rn_attrs x) |}.

Definition with_nodes (nodes : list RNode) (r : Recipe) : Recipe :=
  {| r_name := r_name r; r_use_fake_user := r_use_fake_user r;
     r_panels := r_panels r; r_interface := r_interface r;
     r_nodes := nodes; r_links := r_links r |}.

(** [bpy.data.node_groups[group].nodes.get(node).<path> = v]: a missing
    group is a [KeyError], a missing node an [AttributeError] on [None]. *)
Definition group_node_set (group node path : string) (v : Val)
  : M Blend unit :=
  let* d := get in
  let* r := lift_opt KeyError (groups_get group d) in
  lift_opt AttributeError
    (List.find (λ x, String.eqb (rn_name x) node) (r_nodes r)) >>
  modify (λ d,
    set_node_groups
      (update_first (λ r, String.eqb (r_name r) group)
         (λ r, with_nodes
                 (update_first (λ x, String.eqb (rn_name x) node)
                    (rnode_set path v) (r_nodes r)) r)
         (node_groups d)) d).

(** [Curvature.update_curvature] *)
Definition update_curvature (self : BakeMap) : M Blend unit :=
  let* preview_state := getp "gd.preview_state" in
  if negb (truthy preview_state) then ret tt
  else
    setp "display.shading.cavity_ridge_factor" (VFloat (ridge self)) >>
    setp "display.shading.curvature_ridge_factor" (VFloat (ridge self)) >>
    setp "display.shading.curvature_valley_factor" (VFloat (valley self)).

(** [Occlusion.update_gamma] *)
Definition update_gamma (self : BakeMap) : M Blend unit :=
  group_node_set (OCCLUSION_NODE G) "Gamma" "inputs[1].default_value"
    (VFloat (gamma self)).

(** [Occlusion.update_distance] *)
Definition update_distance (self : BakeMap) : M Blend unit :=
  group_node_set (OCCLUSION_NODE G) "Ambient Occlusion"
    "inputs[1].default_value" (VFloat (distance self)).

(** [Height.update_method]; [scene_setup] is [utils.scene.scene_setup],
    [get_rendered_objects] and [set_guide_height] are those of
    [utils.render]. *)
Definition update_method {A} (scene_setup : BakeMap → M Blend unit)
  (get_rendered_objects : M Blend A) (set_guide_height : A → M Blend unit)
  (self : BakeMap) : M Blend unit :=
  scene_setup self >>
  let* preview_state := getp "gd.preview_state" in
  if negb (truthy preview_state) then ret tt
  else if String.eqb (method self) "AUTO" then
    let* rendered_obs := get_rendered_objects in
    set_guide_height rendered_obs
  else ret tt.

(** [Height.update_guide]; [scene_setup] is [utils.scene.scene_setup], which
    the method calls for a manual range. *)
Definition update_guide (scene_setup : BakeMap → M Blend unit)
  (self : BakeMap) : M Blend unit :=
  let* d := get in
  let* camera_ob := lift_opt AttributeError (objects d !! TRIM_CAMERA_NAME G) in
  let gd_camera_ob_z := (location camera_ob).2 in
  group_node_set (HEIGHT_NODE G) "Map Range" "inputs[1].default_value"
    (VFloat (py_add gd_camera_ob_z (- distance self))) >>
  group_node_set (HEIGHT_NODE G) "Map Range" "inputs[2].default_value"
    (VFloat gd_camera_ob_z) >>
  group_node_set (HEIGHT_NODE G) "ColorRamp" "color_ramp.elements[0].color"
    (if invert self then VVec [0; 0; 0; 1] else VVec [1; 1; 1; 1])%Q >>
  group_node_set (HEIGHT_NODE G) "ColorRamp" "color_ramp.elements[1].color"
    (if invert self then VVec [1; 1; 1; 1] else VVec [0; 0; 0; 1])%Q >>
  group_node_set (HEIGHT_NODE G) "ColorRamp" "location"
    (VVec [-400; 0])%Q >>
  (if String.eqb (method self) "MANUAL" then scene_setup self else ret tt) >>
  (* Update here so that it refreshes live in the VP *)
  let* preview_state := getp "gd.preview_state" in
  if negb (truthy preview_state) then ret tt else ret tt.

End WithGlobal.

End Baker.

(** ** node.py *)

Module Node.

(** *** Building a recipe *)

Definition set_interface (v : list ISock) (r : Recipe) : Recipe :=
  {| r_name := r_name r; r_use_fake_user := r_use_fake_user r;
     r_panels := r_panels r; r_interface := v; r_nodes := r_nodes r;
     r_links := r_links r |}.

Definition set_nodes (v : list RNode) (r : Recipe) : Recipe :=
  {| r_name := r_name r; r_use_fake_user := r_use_fake_user r;
     r_panels := r_panels r; r_interface := r_interface r; r_nodes := v;
     r_links := r_links r |}.

(** [tree.use_fake_user = True] *)
Definition use_fake_user : M Recipe unit :=
  modify (λ r, {| r_name := r_name r; r_use_fake_user := true;
                  r_panels := r_panels r; r_interface := r_interface r;
                  r_nodes := r_nodes r; r_links := r_links r |}).

(** [tree.interface.new_socket(name=, socket_type=, in_out=, parent=)]; the
    result is the socket's position in the interface. *)
Definition new_socket (name socket_type in_out : string) (parent : option string)
  : M Recipe nat :=
  λ r, (set_interface
          (r_interface r ++ [ {| i_name := name; i_socket_type := socket_type;
                                 i_in_out := in_out; i_parent := parent;
                                 i_default := None |} ]) r,
        inr (length (r_interface r))).

(** [socket.default_value = v] on an interface socket *)
Definition socket_default (i : nat) (v : Val) : M Recipe unit :=
  modify (λ r, set_interface
    (alter (λ s, {| i_name := i_name s; i_socket_type := i_socket_type s;
                    i_in_out := i_in_out s; i_parent := i_parent s;
                    i_default := Some (held v) |}) i (r_interface r)) r).

(** [tree.interface.new_panel(name=...)] *)
Definition new_panel (name : string) : M Recipe unit :=
  modify (λ r, {| r_name := r_name r; r_use_fake_user := r_use_fake_user r;
                  r_panels := r_panels r ++ [name];
                  r_interface := r_interface r; r_nodes := r_nodes r;
                  r_links := r_links r |}).

(** [generate_shader_interface] *)
Definition generate_shader_interface (inputs : list (string * string))
  : M Recipe unit :=
  new_socket "Shader" "NodeSocketShader" "OUTPUT" None >>
  new_panel "Saved Links" >>
  for_each inputs (λ '(name, socket_type),
    new_socket name socket_type "INPUT" (Some "Saved Links") >> ret tt).

Section WithHost.
Variable G : Global.
Variable H : Host.

(** [tree.nodes.new(idname)]; the result is the node's position. *)
Definition new (idname : string) : M Recipe nat :=
  λ r, (set_nodes
          (r_nodes r ++ [ {| rn_idname := idname;
                             rn_name := unique_name (rn_name <$> r_nodes r)
                                          (default_node_name H idname);
                             rn_attrs := [] |} ]) r,
        inr (length (r_nodes r))).

(** [node.name = name] *)
Definition name_node (n : nat) (name : string) : M Recipe unit :=
  modify (λ r,
    let others := rn_name <$> (delete n (r_nodes r)) in
    set_nodes (alter (λ x, {| rn_idname := rn_idname x;
                              rn_name := unique_name others name;
                              rn_attrs := rn_attrs x |}) n (r_nodes r)) r).

(** [node.<path> = v] *)
Definition set (n : nat) (path : string) (v : Val) : M Recipe unit :=
  modify (λ r,
    set_nodes (alter (λ x, {| rn_idname := rn_idname x; rn_name := rn_name x;
                              rn_attrs := attr_set path (held v) (rn_attrs x) |})
                 n (r_nodes r)) r).

Definition sockref_eqb (a b : SockRef) : bool :=
  match a, b with
  | ByName x, ByName y => String.eqb x y
  | ByIndex x, ByIndex y => Nat.eqb x y
  | _, _ => false
  end.

(** [links.new(to_node.inputs[to], from_node.outputs[from])] *)
Definition link (to_node : nat) (to : SockRef) (from_node : nat) (from : SockRef)
  : M Recipe unit :=
  modify (λ r,
    {| r_name := r_name r; r_use_fake_user := r_use_fake_user r;
       r_panels := r_panels r; r_interface := r_interface r;
       r_nodes := r_nodes r;
       r_links :=
         List.filter (λ l, negb (Nat.eqb (rl_to_node l) to_node
                                 && sockref_eqb (rl_to l) to)) (r_links r)
         ++ [ {| rl_to_node := to_node; rl_to := to;
                 rl_from_node := from_node; rl_from := from |} ] |}).

(** [bpy.data.node_groups.new(name, 'ShaderNodeTree')] *)
Definition groups_new (name : string) (d : Blend) : Blend :=
  set_node_groups
    (node_groups d
     ++ [ {| r_name := unique_name (group_names d) name;
             r_use_fake_user := false; r_panels := []; r_interface := [];
             r_nodes := []; r_links := [] |} ]) d.

(** Work on the group that was created last: [tree] after
    [tree = bpy.data.node_groups.new(...)]. *)
Definition on_new_group {A} (m : M Recipe A) : M Blend A :=
  λ d, match List.last (Some <$> node_groups d) None with
       | Some r =>
           let '(r', res) := m r in
           (set_node_groups (removelast (node_groups d) ++ [r']) d, res)
       | None => (d, inl KeyError)
       end.

(** [get_material_output_inputs] *)
Definition get_material_output_inputs : M Blend (list (string * string)) :=
  modify (groups_new "Material Output") >>
  on_new_group (new "ShaderNodeOutputMaterial") >>
  let material_output_inputs :=
    (λ p, (p.1, "NodeSocket" +:+ capitalize p.2))
    <$> List.filter (λ p : string * string, negb (String.eqb p.1 "Thickness"))
          material_output_sockets in
  modify (λ d, set_node_groups (removelast (node_groups d)) d) >>
  ret material_output_inputs.

(** [if not NAME in bpy.data.node_groups: tree = ...new(NAME, ...); <body>] *)
Definition unless_present (name : string) (body : Blend → M Recipe unit)
  : M Blend unit :=
  let* d := get in
  if bool_decide (name ∈ group_names d) then ret tt
  else modify (groups_new name) >> on_new_group (body d).

(** [gd.<collection>[0]] *)
Definition first_map (coll : string) (d : Blend) : M Recipe BakeMap :=
  let* maps := lift_opt AttributeError (gd d !! coll) in
  lift_opt IndexError (head maps).

Definition xy (x y : Q) : Val := VVec [x; y].
Definition vec (x y z : Q) : Val := VVec [x; y; z].
Definition rgba (r g b a : Q) : Val := VVec [r; g; b; a].

Definition normal_recipe (inputs : list (string * string)) (d : Blend)
  : M Recipe unit :=
  use_fake_user >>
  (* Create interface *)
  generate_shader_interface inputs >>
  let* alpha := new_socket "Alpha" "NodeSocketFloat" "INPUT" None in
  socket_default alpha (VInt 1) >>
  new_socket "Normal" "NodeSocketVector" "INPUT" None >>
  (* Create nodes *)
  let* group_output := new "NodeGroupOutput" in
  name_node group_output "Group Output" >>
  let* group_input := new "NodeGroupInput" in
  name_node group_input "Group Input" >>
  set group_input "location" (xy (-1400) (100)) >>
  let* bevel := new "ShaderNodeBevel" in
  name_node bevel "Bevel" >>
  set bevel "inputs[0].default_value" (VInt 0) >>
  set bevel "location" (xy (-1000) (0)) >>
  let* bevel_2 := new "ShaderNodeBevel" in
  name_node bevel_2 "Bevel.001" >>
  set bevel_2 "location" (xy (-1000) (-200)) >>
  set bevel_2 "inputs[0].default_value" (VInt 0) >>
  let* vec_transform := new "ShaderNodeVectorTransform" in
  name_node vec_transform "Vector Transform" >>
  set vec_transform "vector_type" (VStr "NORMAL") >>
  set vec_transform "convert_to" (VStr "CAMERA") >>
  set vec_transform "location" (xy (-800) (0)) >>
  let* vec_mult := new "ShaderNodeVectorMath" in
  name_node vec_mult "Vector Math" >>
  set vec_mult "operation" (VStr "MULTIPLY") >>
  set vec_mult "inputs[1].default_value[0]" (VFloat 0.5) >>
  let* normals := first_map "normals" d in
  set vec_mult "inputs[1].default_value[1]"
    (VFloat (if flip_y normals then -0.5 else 0.5)) >>
  set vec_mult "inputs[1].default_value[2]" (VFloat (-0.5)) >>
  set vec_mult "location" (xy (-600) (0)) >>
  let* vec_add := new "ShaderNodeVectorMath" in
  name_node vec_add "Vector Math.001" >>
  set vec_add "inputs[1].default_value[0]" (VFloat 0.5) >>
  set vec_add "inputs[1].default_value[1]" (VFloat 0.5) >>
  set vec_add "inputs[1].default_value[2]" (VFloat 0.5) >>
  set vec_add "location" (xy (-400) (0)) >>
  let* invert := new "ShaderNodeInvert" in
  name_node invert "Invert" >>
  set invert "location" (xy (-1000) (200)) >>
  let* subtract := new "ShaderNodeMixRGB" in
  set subtract "blend_type" (VStr "SUBTRACT") >>
  name_node subtract "Subtract" >>
  set subtract "inputs[0].default_value" (VInt 1) >>
  set subtract "inputs[1].default_value" (rgba 1 1 1 1) >>
  set subtract "location" (xy (-800) (300)) >>
  let* transp_shader := new "ShaderNodeBsdfTransparent" in
  name_node transp_shader "Transparent BSDF" >>
  set transp_shader "location" (xy (-400) (200)) >>
  let* mix_shader := new "ShaderNodeMixShader" in
  name_node mix_shader "Mix Shader" >>
  set mix_shader "location" (xy (-200) (300)) >>
  (* Link nodes *)
  link bevel (ByName "Normal") group_input (ByName "Normal") >>
  link vec_transform (ByName "Vector") bevel_2 (ByName "Normal") >>
  link vec_mult (ByName "Vector") vec_transform (ByName "Vector") >>
  link vec_add (ByName "Vector") vec_mult (ByName "Vector") >>
  link group_output (ByName "Shader") vec_add (ByName "Vector") >>
  link invert (ByName "Color") group_input (ByName "Alpha") >>
  link subtract (ByName "Color2") invert (ByName "Color") >>
  link mix_shader (ByName "Fac") subtract (ByName "Color") >>
  link mix_shader (ByIndex 1) transp_shader (ByName "BSDF") >>
  link mix_shader (ByIndex 2) vec_add (ByName "Vector").

Definition curvature_recipe (inputs : list (string * string)) (d : Blend)
  : M Recipe unit :=
  use_fake_user >>
  (* Create sockets *)
  generate_shader_interface inputs >>
  (* Create nodes *)
  let* group_output := new "NodeGroupOutput" in
  name_node group_output "Group Output" >>
  let* geometry := new "ShaderNodeNewGeometry" in
  set geometry "location" (xy (-800) (0)) >>
  let* color_ramp := new "ShaderNodeValToRGB" in
  set color_ramp "color_ramp.elements.new" (VFloat 0.5) >>
  set color_ramp "color_ramp.elements[0].position" (VFloat 0.49) >>
  set color_ramp "color_ramp.elements[2].position" (VFloat 0.51) >>
  set color_ramp "location" (xy (-600) (0)) >>
  let* emission := new "ShaderNodeEmission" in
  name_node emission "Emission" >>
  set emission "location" (xy (-200) (0)) >>
  (* Link nodes *)
  link color_ramp (ByName "Fac") geometry (ByName "Pointiness") >>
  link emission (ByName "Color") color_ramp (ByName "Color") >>
  link group_output (ByName "Shader") emission (ByName "Emission").

Definition occlusion_recipe (inputs : list (string * string)) (d : Blend)
  : M Recipe unit :=
  use_fake_user >>
  (* Create sockets *)
  generate_shader_interface inputs >>
  let* alpha := new_socket "Alpha" "NodeSocketFloat" "INPUT" None in
  socket_default alpha (VInt 1) >>
  let* normal := new_socket "Normal" "NodeSocketVector" "INPUT" None in
  socket_default normal (vec 0.5 0.5 1) >>
  (* Create nodes *)
  let* group_input := new "NodeGroupInput" in
  name_node group_input "Group Input" >>
  set group_input "location" (xy (-1000) (0)) >>
  let* group_output := new "NodeGroupOutput" in
  name_node group_output "Group Output" >>
  let* ao := new "ShaderNodeAmbientOcclusion" in
  name_node ao "Ambient Occlusion" >>
  set ao "samples" (VInt 32) >>
  set ao "location" (xy (-600) (0)) >>
  let* gamma_node := new "ShaderNodeGamma" in
  name_node gamma_node "Gamma" >>
  let* occlusion := first_map "occlusion" d in
  set gamma_node "inputs[1].default_value" (VFloat (gamma occlusion)) >>
  set gamma_node "location" (xy (-400) (0)) >>
  let* emission := new "ShaderNodeEmission" in
  name_node emission "Emission" >>
  set emission "location" (xy (-200) (0)) >>
  (* Link nodes *)
  link ao (ByName "Normal") group_input (ByName "Normal") >>
  link gamma_node (ByName "Color") ao (ByName "Color") >>
  link emission (ByName "Color") gamma_node (ByName "Color") >>
  link group_output (ByName "Shader") emission (ByName "Emission").

Definition height_recipe (inputs : list (string * string)) (d : Blend)
  : M Recipe unit :=
  use_fake_user >>
  (* Create sockets *)
  generate_shader_interface inputs >>
  (* Create nodes *)
  let* group_output := new "NodeGroupOutput" in
  name_node group_output "Group Output" >>
  let* camera := new "ShaderNodeCameraData" in
  name_node camera "Camera Data" >>
  set camera "location" (xy (-800) (0)) >>
  let* map_range := new "ShaderNodeMapRange" in
  name_node map_range "Map Range" >>
  set map_range "location" (xy (-600) (0)) >>
  let* ramp := new "ShaderNodeValToRGB" in
  name_node ramp "ColorRamp" >>
  set ramp "color_ramp.elements[0].color" (rgba 1 1 1 1) >>
  set ramp "color_ramp.elements[1].color" (rgba 0 0 0 1) >>
  set ramp "location" (xy (-400) (0)) >>
  (* Link nodes *)
  link map_range (ByName "Value") camera (ByName "View Z Depth") >>
  link ramp (ByName "Fac") map_range (ByName "Result") >>
  link group_output (ByName "Shader") ramp (ByName "Color").

Definition alpha_recipe (inputs : list (string * string)) (d : Blend)
  : M Recipe unit :=
  use_fake_user >>
  (* Create sockets *)
  generate_shader_interface inputs >>
  let* alpha := new_socket (ALPHA_NAME G) "NodeSocketFloat" "INPUT" None in
  socket_default alpha (VInt 1) >>
  (* Create nodes *)
  let* group_output := new "NodeGroupOutput" in
  name_node group_output "Group Output" >>
  let* group_input := new "NodeGroupInput" in
  name_node group_input "Group Input" >>
  set group_input "location" (xy (-1000) (200)) >>
  let* camera := new "ShaderNodeCameraData" in
  name_node camera "Camera Data" >>
  set camera "location" (xy (-1000) (0)) >>
  let* trim_camera := lift_opt AttributeError (objects d !! TRIM_CAMERA_NAME G) in
  let camera_object_z := (location trim_camera).2 in
  let* map_range := new "ShaderNodeMapRange" in
  name_node map_range "Map Range" >>
  set map_range "location" (xy (-800) (0)) >>
  set map_range "inputs[1].default_value"
    (VFloat (py_sub camera_object_z (binary64 0.00001))) >>
  set map_range "inputs[2].default_value" (VFloat camera_object_z) >>
  let* invert_mask := new "ShaderNodeInvert" in
  name_node invert_mask "Invert Mask" >>
  set invert_mask "location" (xy (-600) (200)) >>
  let* invert_depth := new "ShaderNodeInvert" in
  name_node invert_depth "Invert Depth" >>
  set invert_depth "location" (xy (-600) (0)) >>
  let* mix := new "ShaderNodeMix" in
  name_node mix "Invert Mask" >>
  set mix "data_type" (VStr "RGBA") >>
  set mix "inputs[B].default_value" (rgba 0 0 0 1) >>
  set mix "location" (xy (-400) (0)) >>
  let* emission := new "ShaderNodeEmission" in
  name_node emission "Emission" >>
  set emission "location" (xy (-200) (0)) >>
  (* Link nodes *)
  link invert_mask (ByName "Color") group_input (ByName "Alpha") >>
  link mix (ByName "Factor") invert_mask (ByName "Color") >>
  link map_range (ByName "Value") camera (ByName "View Z Depth") >>
  link invert_depth (ByName "Color") map_range (ByName "Result") >>
  link mix (ByName "A") invert_depth (ByName "Color") >>
  link emission (ByName "Color") mix (ByName "Result") >>
  link group_output (ByName "Shader") emission (ByName "Emission").

Definition color_recipe (inputs : list (string * string)) (d : Blend)
  : M Recipe unit :=
  use_fake_user >>
  (* Create sockets *)
  generate_shader_interface inputs >>
  new_socket (COLOR_NAME G) "NodeSocketColor" "INPUT" None >>
  (* Create nodes *)
  let* group_output := new "NodeGroupOutput" in
  name_node group_output "Group Output" >>
  let* group_input := new "NodeGroupInput" in
  name_node group_input "Group Input" >>
  set group_input "location" (xy (-400) (0)) >>
  let* emission := new "ShaderNodeEmission" in
  name_node emission "Emission" >>
  set emission "location" (xy (-200) (0)) >>
  (* Link nodes *)
  link emission (ByName "Color") group_input (ByName "Base Color") >>
  link group_output (ByName "Shader") emission (ByName "Emission").

Definition emissive_recipe (inputs : list (string * string)) (d : Blend)
  : M Recipe unit :=
  use_fake_user >>
  (* Create sockets *)
  generate_shader_interface inputs >>
  let* emit_color := new_socket "Emission Color" "NodeSocketColor" "INPUT" None in
  socket_default emit_color (rgba 0 0 0 1) >>
  let* emit_strength :=
    new_socket "Emission Strength" "NodeSocketFloat" "INPUT" None in
  socket_default emit_strength (VInt 1) >>
  (* Create nodes *)
  let* group_output := new "NodeGroupOutput" in
  name_node group_output "Group Output" >>
  let* group_input := new "NodeGroupInput" in
  name_node group_input "Group Input" >>
  set group_input "location" (xy (-600) (0)) >>
  let* emission := new "ShaderNodeEmission" in
  name_node emission "Emission" >>
  set emission "location" (xy (-200) (0)) >>
  (* Link nodes *)
  link emission (ByName "Color") group_input (ByName "Emission Color") >>
  link group_output (ByName "Shader") emission (ByName "Emission").

Definition roughness_recipe (inputs : list (string * string)) (d : Blend)
  : M Recipe unit :=
  use_fake_user >>
  (* Create sockets *)
  generate_shader_interface inputs >>
  new_socket "Roughness" "NodeSocketFloat" "INPUT" None >>
  (* Create nodes *)
  let* group_output := new "NodeGroupOutput" in
  name_node group_output "Group Output" >>
  let* group_input := new "NodeGroupInput" in
  name_node group_input "Group Input" >>
  set group_input "location" (xy (-600) (0)) >>
  let* invert := new "ShaderNodeInvert" in
  set invert "location" (xy (-400) (0)) >>
  set invert "inputs[0].default_value" (VInt 0) >>
  let* emission := new "ShaderNodeEmission" in
  name_node emission "Emission" >>
  set emission "location" (xy (-200) (0)) >>
  (* Link nodes *)
  link invert (ByName "Color") group_input (ByName "Roughness") >>
  link emission (ByName "Color") invert (ByName "Color") >>
  link group_output (ByName "Shader") emission (ByName "Emission").

Definition metallic_recipe (inputs : list (string * string)) (d : Blend)
  : M Recipe unit :=
  use_fake_user >>
  (* Create sockets *)
  generate_shader_interface inputs >>
  new_socket "Metallic" "NodeSocketFloat" "INPUT" None >>
  (* Create nodes *)
  let* group_output := new "NodeGroupOutput" in
  name_node group_output "Group Output" >>
  let* group_input := new "NodeGroupInput" in
  name_node group_input "Group Input" >>
  set group_input "location" (xy (-400) (0)) >>
  let* emission := new "ShaderNodeEmission" in
  name_node emission "Emission" >>
  set emission "location" (xy (-200) (0)) >>
  (* Link nodes *)
  link emission (ByName "Color") group_input (ByName "Metallic") >>
  link group_output (ByName "Shader") emission (ByName "Emission").

(** [node_init] *)
Definition node_init : M Blend unit :=
  let* inputs := get_material_output_inputs in
  unless_present (NORMAL_NODE G) (normal_recipe inputs) >>
  unless_present (CURVATURE_NODE G) (curvature_recipe inputs) >>
  unless_present (OCCLUSION_NODE G) (occlusion_recipe inputs) >>
  unless_present (HEIGHT_NODE G) (height_recipe inputs) >>
  unless_present (ALPHA_NODE G) (alpha_recipe inputs) >>
  unless_present (COLOR_NODE G) (color_recipe inputs) >>
  unless_present (EMISSIVE_NODE G) (emissive_recipe inputs) >>
  unless_present (ROUGHNESS_NODE G) (roughness_recipe inputs) >>
  unless_present (METALLIC_NODE G) (metallic_recipe inputs).

(** *** Splicing a recipe into the materials of objects *)

(** A call on the material's node tree; a material without one has
    [node_tree = None]. *)
Definition on_tree {A} (m : M NodeTree A) : M Material A :=
  λ mat, match node_tree mat with
         | Some t => let '(t', r) := m t in (set_tree t' mat, r)
         | None => (mat, inl AttributeError)
         end.

(** A call on the material [bpy.data.materials.get(name)]. *)
Definition on_material {A} (name : string) (m : M Material A) : M Blend A :=
  λ d, match materials d !! name with
       | Some mat =>
           let '(mat', r) := m mat in
           (set_materials (<[name := mat']> (materials d)) d, r)
       | None => (d, inl AttributeError)
       end.

(** [int(x)] of a finite float: truncation towards zero. *)
Definition py_int (q : Q) : Z := Z.quot (Qnum q) (Z.pos (Qden q)).

(** [float(x)]: a float as it is, an int as the float nearest to it (an
    [OverflowError] when there is none), a bool as 1.0 or 0.0, a string as
    the runtime reads it; [None] and a sequence are a [TypeError]. *)
Definition py_float (v : Val) : exn + Val :=
  match v with
  | VInt z =>
      if overflows (binary64 (inject_Z z)) then inl OverflowError
      else inr (VFloat (binary64 (inject_Z z)))
  | VBool b => inr (VFloat (if b then 1 else 0))
  | VFloat _ | VInf _ | VNan => inr v
  | VStr s => float_of_str H s
  | VNone | VVec _ => inl TypeError
  end.

(** [isinstance(v, float)] *)
Definition is_float (v : Val) : bool :=
  match v with VFloat _ | VInf _ | VNan => true | _ => false end.

(** [node.inputs[name].default_value = v], by the host's rules for the
    socket's type. *)
Definition assign_default (node : nat) (name : string) (v : Val)
  : M NodeTree unit :=
  let* t := get in
  let* n := lift_opt KeyError (node_by_id node t) in
  let* target := lift_opt KeyError (sock_get name (n_inputs n)) in
  match set_default_value H (s_type target) v with
  | inr v' =>
      modify (update_node node
                (λ n, with_inputs (sock_set_default name v' (n_inputs n)) n))
  | inl e => raise e
  end.

(** [try: <m> except TypeError: <handler>] *)
Definition except_TypeError {S A} (m handler : M S A) : M S A :=
  λ s, match m s with
       | (s', inl TypeError) => handler s'
       | r => r
       end.

(** [create_node_links]: [node_group] is the passthrough node,
    [original_input] an input socket of the node [source]. *)
Definition create_node_links (input_name : string) (node_group : nat)
  (source : nat) (original_input : Sock) : M NodeTree bool :=
  let* t := get in
  match links_into source (s_name original_input) t with
  | link :: _ =>
      let* group_node := lift_opt KeyError (node_by_id node_group t) in
      lift_opt KeyError (sock_get input_name (n_inputs group_node)) >>
      let* from_node := lift_opt KeyError (node_by_id (l_from_node link) t) in
      lift_opt KeyError (sock_get (l_from_socket link) (n_outputs from_node)) >>
      modify (links_new node_group input_name
                (l_from_node link) (l_from_socket link)) >>
      ret true
  | [] =>
      except_TypeError
        (let* v := lift_opt AttributeError (s_default original_input) in
         assign_default node_group input_name v)
        (let* v := lift_opt AttributeError (s_default original_input) in
         if is_float v then
           match v with
           | VFloat q => assign_default node_group input_name (VInt (py_int q))
           | VInf _ => raise OverflowError
           | VNan => raise ValueError
           | _ => ret tt
           end
         else
           match py_float v with
           | inr v' => assign_default node_group input_name v'
           | inl e => raise e
           end) >>
      ret false
  end.

(** [material.blend_method = 'CLIP'] under the conditions of the Alpha
    branch. *)
Definition clip_if_masked (source : nat) (original_input : Sock)
  : M Material unit :=
  let* t := on_tree get in
  let* mat := get in
  if String.eqb (s_name original_input) "Alpha"
     && String.eqb (blend_method mat) "OPAQUE"
     && negb (Nat.eqb (length (links_into source (s_name original_input) t)) 0)
  then modify (set_blend_method "CLIP")
  else ret tt.

(** The same under the conditions of the Normal branch, which also asks
    [gd.normals[0].use_texture]. *)
Definition clip_if_textured (props : gmap string (list BakeMap)) (source : nat)
  (original_input : Sock) : M Material unit :=
  if String.eqb (s_name original_input) "Alpha" then
    let* maps := lift_opt AttributeError (props !! "normals") in
    let* normals := lift_opt IndexError (head maps) in
    if use_texture normals then clip_if_masked source original_input
    else ret tt
  else ret tt.

(** Whether an input socket of a BSDF node is the channel the recipe [name]
    asks for. *)
Definition is_channel (name input_name : string) : bool :=
  (String.eqb name (COLOR_NODE G) && String.eqb input_name (COLOR_NAME G))
  || (String.eqb name (EMISSIVE_NODE G) && String.eqb input_name "Emission Color")
  || (String.eqb name (ROUGHNESS_NODE G) && String.eqb input_name (ROUGHNESS_NAME G))
  || (String.eqb name (METALLIC_NODE G) && String.eqb input_name (METALLIC_NAME G))
  || (String.eqb name (ALPHA_NODE G) && String.eqb input_name (ALPHA_NAME G))
  || (String.eqb name (NORMAL_NODE G) && String.eqb input_name "Normal")
  || (String.eqb name (OCCLUSION_NODE G) && String.eqb input_name "Normal").

(** [for original_input in source_node.inputs: ...], from [node_found] on. *)
Fixpoint bridge (props : gmap string (list BakeMap)) (name : string)
  (passthrough source : nat) (inputs : list Sock) (node_found : bool)
  : M Material bool :=
  match inputs with
  | [] => ret node_found
  | original_input :: rest =>
      let input_name := s_name original_input in
      let link_it :=
        on_tree (create_node_links input_name passthrough source original_input) in
      if String.eqb name (COLOR_NODE G) && String.eqb input_name (COLOR_NAME G) then
        let* node_found := link_it in
        bridge props name passthrough source rest node_found
      else if String.eqb name (EMISSIVE_NODE G)
              && String.eqb input_name "Emission Color" then
        let* node_found := link_it in
        bridge props name passthrough source rest node_found
      else if String.eqb name (ROUGHNESS_NODE G)
              && String.eqb input_name (ROUGHNESS_NAME G) then
        let* node_found := link_it in
        bridge props name passthrough source rest node_found
      else if String.eqb name (METALLIC_NODE G)
              && String.eqb input_name (METALLIC_NAME G) then
        let* node_found := link_it in
        bridge props name passthrough source rest node_found
      else if String.eqb name (ALPHA_NODE G)
              && String.eqb input_name (ALPHA_NAME G) then
        let* node_found := link_it in
        clip_if_masked source original_input >>
        bridge props name passthrough source rest node_found
      else if String.eqb name (NORMAL_NODE G)
              && String.eqb input_name "Normal" then
        let* node_found := link_it in
        clip_if_textured props source original_input >>
        bridge props name passthrough source rest node_found
      else if String.eqb name (OCCLUSION_NODE G)
              && String.eqb input_name "Normal" then
        let* node_found := link_it in
        bridge props name passthrough source rest node_found
      else if node_found then ret node_found
      else bridge props name passthrough source rest node_found
  end.

(** The body of [for link in output_material_input.links]; the result is
    [operation_success]. *)
Definition splice_link (props : gmap string (list BakeMap))
  (name material_name : string) (passthrough : nat) (socket_name : string)
  (link : Link) (operation_success : bool) : M Material bool :=
  let* t := on_tree get in
  let* from_node := lift_opt KeyError (node_by_id (l_from_node link) t) in
  let source_node := nodes_get (n_name from_node) t in
  (* Store original output material connections *)
  let* group_node := lift_opt KeyError (node_by_id passthrough t) in
  (if has_sock socket_name (n_inputs group_node) then
     let* source := lift_opt AttributeError source_node in
     if has_sock (l_from_socket link) (n_outputs source) then
       on_tree (modify (links_new passthrough socket_name
                          (n_id source) (l_from_socket link)))
     else ret tt
   else ret tt) >>
  (* Link dependencies from any BSDF node *)
  if negb (bool_decide (name ∈ SHADER_MAP_NAMES G)) then ret operation_success
  else
    let* source := lift_opt AttributeError source_node in
    if negb (contains "BSDF" (n_type source)) then ret operation_success
    else
      let* node_found :=
        bridge props name passthrough (n_id source) (n_inputs source) false in
      if negb node_found
         && negb (String.eqb name (NORMAL_NODE G))
         && negb (String.eqb material_name (GD_MATERIAL_NAME G))
      then ret false
      else ret operation_success.

(** A loop that carries [operation_success]. *)
Fixpoint for_fold {S A} (l : list A) (acc : bool) (body : A → bool → M S bool)
  : M S bool :=
  match l with
  | [] => ret acc
  | x :: l' => let* acc' := body x acc in for_fold l' acc' body
  end.

(** [for output_material_input in output.inputs: for link in ...links: ...] *)
Definition splice_links (props : gmap string (list BakeMap))
  (name material_name : string) (passthrough : nat) (output : Node)
  (operation_success : bool) : M Material bool :=
  for_fold (n_inputs output) operation_success
    (λ output_material_input ok,
       let* t := on_tree get in
       for_fold (links_into (n_id output) (s_name output_material_input) t) ok
         (splice_link props name material_name passthrough
            (s_name output_material_input))).

Definition location_of (n : Node) : Q * Q :=
  match attr_get "location" (n_attrs n) with
  | Some (VVec [x; y]) => (x, y)
  | _ => (0, 0)%Q
  end.

Definition warning_text : string := "_grabdoc_ng_warning".

(** What splicing a recipe into one material works on: the material, and
    [bpy.data.texts]. *)
Definition Spliced : Type := Material * gmap string string.

(** A call on the material. *)
Definition on_mat {A} (m : M Material A) : M Spliced A :=
  λ '(mat, txt), let '(mat', r) := m mat in ((mat', txt), r).

(** [GD_text = bpy.data.texts.get(name)] (or [.new]), [GD_text.clear()],
    [GD_text.write(content)]. *)
Definition write_text (name content : string) : M Spliced unit :=
  modify (λ '(mat, txt), (mat, <[name := content]> txt)).

(** A call on the material [bpy.data.materials.get(name)] and the texts. *)
Definition on_slot {A} (name : string) (m : M Spliced A) : M Blend A :=
  λ d, match materials d !! name with
       | Some mat =>
           let '((mat', txt'), r) := m (mat, texts d) in
           (set_texts txt' (set_materials (<[name := mat']> (materials d)) d), r)
       | None => (d, inl AttributeError)
       end.

(** The body of [for output in output_nodes]. *)
Definition splice_output (props : gmap string (list BakeMap))
  (node_group : option Recipe) (name material_name : string)
  (output : Node) (operation_success : bool) : M Spliced bool :=
  let '(x, y) := location_of output in
  (* passthrough = nodes.new('ShaderNodeGroup') *)
  let* passthrough :=
    on_mat (on_tree (λ t,
      let '(t', i) :=
        nodes_new "GROUP" "Group" (r_name <$> node_group)
          (from_option (group_sockets "INPUT") [] node_group)
          (from_option (group_sockets "OUTPUT") [] node_group) t in
      (set_node_attr i "location" (held (xy x (py_sub y 160))) t', inr i))) in
  let* group := lift_opt AttributeError node_group in
  on_mat (on_tree (
    modify (set_node_name passthrough (r_name group)) >>
    modify (set_node_attr passthrough "hide" (VBool true)))) >>
  (* Add note next to node group explaining basic functionality *)
  write_text warning_text (NG_NODE_WARNING G) >>
  on_mat (on_tree (λ t,
    let '(t', frame) := nodes_new "FRAME" "Frame" None [] [] t in
    (set_node_attr frame "height" (VInt 150)
       (set_node_attr frame "width" (VInt 1000)
          (set_node_attr frame "text" (VStr warning_text)
             (set_node_name frame (r_name group)
                (set_node_attr frame "location" (held (xy x (py_sub y 195)))
                   t')))),
     inr tt))) >>
  (* Link nodes *)
  let* ok :=
    on_mat (splice_links props name material_name passthrough output
              operation_success) in
  (* Remove all material output links and create new connection with main
     input *)
  on_mat (on_tree (
    lift_opt KeyError (sock_get "Volume" (n_inputs output)) >>
    let* t := get in
    for_each (links_into (n_id output) "Volume" t)
      (λ l, modify (links_remove l)) >>
    lift_opt KeyError (sock_get "Displacement" (n_inputs output)) >>
    let* t := get in
    for_each (links_into (n_id output) "Displacement" t)
      (λ l, modify (links_remove l)) >>
    lift_opt KeyError (sock_get "Surface" (n_inputs output)) >>
    let* t := get in
    let* group_node := lift_opt KeyError (node_by_id passthrough t) in
    lift_opt KeyError (sock_get "Shader" (n_outputs group_node)) >>
    modify (links_new (n_id output) "Surface" passthrough "Shader"))) >>
  ret ok.

(** The body of [for slot in ob.material_slots], once the material is at
    hand; [node_group] is [bpy.data.node_groups.get(name)]. *)
Definition splice_material (props : gmap string (list BakeMap))
  (node_group : option Recipe) (name material_name : string)
  (operation_success : bool) : M Spliced bool :=
  on_mat (modify (enable_nodes H)) >>
  let* t := on_mat (on_tree get) in
  if name_in_nodes name t then ret operation_success
  else
    (* Get output material node(s) *)
    let output_nodes :=
      List.filter (λ n, String.eqb (n_type n) "OUTPUT_MATERIAL") (t_nodes t) in
    match output_nodes with
    | [] => raise AttributeError    (* a set has no [append] *)
    | _ =>
        for_fold output_nodes operation_success
          (splice_output props node_group name material_name)
    end.

(** The body of [for slot in ob.material_slots]. *)
Definition splice_slot (name : string) (slot : option string)
  (operation_success : bool) : M Blend bool :=
  let slot_name := default "" slot in
  let* d := get in
  on_slot slot_name
    (splice_material (gd d) (groups_get name d) name slot_name
       operation_success).

Definition set_slots (v : list (option string)) (o : Obj) : Obj :=
  {| material_slots := v; active_material_index := active_material_index o;
     location := location o; hide_viewport := hide_viewport o;
     hide_render := hide_render o; hide := hide o |}.

(** [ob.material_slots[''].material = mat]: the first slot without a
    material gets one. *)
Fixpoint fill_first_empty (mat : string) (slots : list (option string))
  : list (option string) :=
  match slots with
  | [] => []
  | None :: rest => Some mat :: rest
  | Some m :: rest => Some m :: fill_first_empty mat rest
  end.

(** [for slot in ob.material_slots: if slot.name == '': ...], over the
    positions of the slots. *)
Fixpoint fill_slots (positions : list nat) (mat : string)
  (slots : list (option string)) : list (option string) :=
  match positions with
  | [] => slots
  | i :: rest =>
      match slots !! i with
      | Some None => fill_slots rest mat (fill_first_empty mat slots)
      | _ => fill_slots rest mat slots
      end
  end.

(** [ob.active_material]: the material of the active slot, the index
    clamped to the slots there are. *)
Definition active_material (o : Obj) : option string :=
  match material_slots o with
  | [] => None
  | slots =>
      mjoin (slots !! Nat.min (active_material_index o) (length slots - 1))
  end.

(** [ob.active_material = mat]: assigns the active slot, and makes one
    when the object has none. *)
Definition set_active_material (mat : string) (o : Obj) : Obj :=
  match material_slots o with
  | [] => set_slots [Some mat] o
  | slots =>
      set_slots (<[Nat.min (active_material_index o) (length slots - 1)
                   := Some mat]> slots) o
  end.

(** The new default material: [bpy.data.materials.new], [use_nodes = True],
    and a black Emission Color on its Principled BSDF. *)
Definition new_default_material : M Blend unit :=
  modify (λ d, set_materials
    (<[GD_MATERIAL_NAME G := {| use_nodes := false; blend_method := "OPAQUE";
                               node_tree := None |}]> (materials d)) d) >>
  on_material (GD_MATERIAL_NAME G) (
    modify (enable_nodes H) >>
    on_tree (
      let* t := get in
      let* bsdf := lift_opt KeyError (nodes_get "Principled BSDF" t) in
      lift_opt KeyError (sock_get "Emission Color" (n_inputs bsdf)) >>
      modify (update_node (n_id bsdf)
                (λ n, with_inputs
                        (sock_set_default "Emission Color" (rgba 0 0 0 1)
                           (n_inputs n)) n)))).

(** The first part of the body of [for ob in objects]. *)
Definition assign_default_material (ob : string) : M Blend unit :=
  let* d := get in
  let* o := lift_opt KeyError (objects d !! ob) in
  if bool_decide (material_slots o = []) || bool_decide (None ∈ material_slots o)
  then
    (if bool_decide (is_Some (materials d !! GD_MATERIAL_NAME G)) then ret tt
     else new_default_material) >>
    let mat := GD_MATERIAL_NAME G in
    let o1 :=
      set_slots (fill_slots (seq 0 (length (material_slots o))) mat
                   (material_slots o)) o in
    let o2 :=
      match active_material o1 with
      | None => set_active_material mat o1
      | Some _ => o1
      end in
    modify (λ d, set_objects (<[ob := o2]> (objects d)) d)
  else ret tt.

(** [apply_node_to_objects] *)
Definition apply_node_to_objects (name : string) (objects_ : list string)
  : M Blend bool :=
  for_fold objects_ true (λ ob operation_success,
    assign_default_material ob >>
    let* d := get in
    let* o := lift_opt KeyError (objects d !! ob) in
    for_fold (material_slots o) operation_success (splice_slot name)).

(** *** Taking the recipe out again *)

(** The Material Output node a node feeds, if any. *)
Definition find_output_node (node : Node) (t : NodeTree) : option Node :=
  let links := mjoin ((λ s, links_out_of (n_id node) (s_name s) t)
                      <$> n_outputs node) in
  head (omap (λ l, match node_by_id (l_to_node l) t with
                   | Some n => if String.eqb (n_type n) "OUTPUT_MATERIAL"
                               then Some n else None
                   | None => None
                   end) links).

(** The body of [for link in node_input.links]. *)
Definition restore_link (inputs : list (string * string)) (output_node : Node)
  (node_input : Sock) (link : Link) : M NodeTree unit :=
  if negb (bool_decide (last_word (s_name node_input) ∈ inputs.*1)) then ret tt
  else
    let* t := get in
    let* from_node := lift_opt KeyError (node_by_id (l_from_node link) t) in
    let original_node_connection := nodes_get (n_name from_node) t in
    let original_node_socket := l_from_socket link in
    for_each inputs.*1 (λ connection_name,
      if negb (String.eqb (s_name node_input) connection_name) then ret tt
      else
        lift_opt KeyError (sock_get connection_name (n_inputs output_node)) >>
        let* original := lift_opt AttributeError original_node_connection in
        lift_opt KeyError (sock_get original_node_socket (n_outputs original)) >>
        modify (links_new (n_id output_node) connection_name
                  (n_id original) original_node_socket)).

(** The body of [for node in grabdoc_nodes]. *)
Definition cleanup_node (inputs : list (string * string)) (node : Node)
  : M NodeTree unit :=
  let* t := get in
  match find_output_node node t with
  | None => modify (nodes_remove (n_id node))
  | Some output_node =>
      for_each (n_inputs node) (λ node_input,
        let* t := get in
        for_each (links_into (n_id node) (s_name node_input) t)
          (restore_link inputs output_node node_input)) >>
      modify (nodes_remove (n_id node))
  end.

(** The body of [for mat in bpy.data.materials], for a material that is
    not the add-on's own. *)
Definition cleanup_material (setup_type : string)
  (inputs : list (string * string)) : M Material unit :=
  modify (enable_nodes H) >>
  let* t := on_tree get in
  if negb (name_in_nodes setup_type t) then ret tt
  else
    let grabdoc_nodes :=
      List.filter (λ n, startswith (n_name n) setup_type) (t_nodes t) in
    on_tree (for_each grabdoc_nodes (cleanup_node inputs)).

(** [node_cleanup] *)
Definition node_cleanup (setup_type : option string) : M Blend unit :=
  match setup_type with
  | None => ret tt
  | Some setup_type =>
      let* inputs := get_material_output_inputs in
      let* d := get in
      for_each (map_to_list (materials d)).*1 (λ mat_name,
        if String.eqb mat_name (GD_MATERIAL_NAME G) then
          modify (λ d, set_materials (delete mat_name (materials d)) d)
        else on_material mat_name (cleanup_material setup_type inputs))
  end.

End WithHost.

End Node.

(** * Sample documents *)

(** A concrete choice of the add-on's constants, for the examples below. *)
Definition sample_Global : Global := {|
  NORMAL_NODE := "GD_Normal";
  CURVATURE_NODE := "GD_Curvature";
  OCCLUSION_NODE := "GD_Ambient Occlusion";
  HEIGHT_NODE := "GD_Height";
  ALPHA_NODE := "GD_Alpha";
  COLOR_NODE := "GD_Base Color";
  EMISSIVE_NODE := "GD_Emissive";
  ROUGHNESS_NODE := "GD_Roughness";
  METALLIC_NODE := "GD_Metallic";
  METALNESS_NODE := "GD_Metallic";
  ALPHA_NAME := "Alpha";
  COLOR_NAME := "Base Color";
  ROUGHNESS_NAME := "Roughness";
  METALLIC_NAME := "Metallic";
  GD_MATERIAL_NAME := "GD_Material";
  TRIM_CAMERA_NAME := "GD_Trim Camera";
  BG_PLANE_NAME := "GD_Background Plane";
  NG_NODE_WARNING := "This node is generated by GrabDoc";
  SHADER_MAP_NAMES :=
    ["GD_Base Color"; "GD_Emissive"; "GD_Roughness"; "GD_Metallic";
     "GD_Normal"; "GD_Alpha"; "GD_Ambient Occlusion"];
  ALL_MAP_IDS :=
    ["normals"; "curvature"; "occlusion"; "height"; "id"; "alpha";
     "color"; "emissive"; "roughness"; "metalness"];
|}.

Definition plain_object : Obj := {|
  material_slots := [];
  active_material_index := 0;
  location := (0, 0, 0)%Q;
  hide_viewport := false;
  hide_render := false;
  hide := false;
|}.

(** A document rendered with Eevee, whose Cycles settings ask for 128 render
    samples and 64 viewport samples. *)
Definition cycles_doc : Blend := {|
  rna :=
    sset "render.engine" (VStr "BLENDER_EEVEE")
      (sset "cycles.samples" (VInt 128)
         (sset "cycles.preview_samples" (VInt 64)
            (sset "eevee.taa_render_samples" (VInt 64)
               (sset "gd.format" (VStr "PNG") (λ _, VNone)))));
  world := Some true;
  areas := [];
  camera := None;
  images := [];
  reference := None;
  app_version := (4, 1, 0)%nat;
  node_groups := [];
  materials := ∅;
  objects := {[ "GD_Background Plane" := plain_object ]};
  texts := ∅;
  gd := ∅;
|}.

(** A Color map baked with Cycles at 32 samples. *)
Definition cycles_color_map : BakeMap := {|
  kind := Color;
  enabled := true;
  reimport := false;
  suffix := "color";
  visibility := true;
  samples := 128;
  samples_cycles := 32;
  samples_workbench := "16";
  contrast := "None";
  engine := "cycles";
  flip_y := false;
  use_texture := true;
  ridge := 2;
  valley := 1.5;
  gamma := 1;
  distance := 1;
  invert := false;
  method := "AUTO";
|}.

(** A [float] that reads plain decimal numerals such as [-12.5], and takes
    every other string for ill-formed. *)
Definition digit_value (c : ascii) : option Z :=
  let n := nat_of_ascii c in
  if (48 <=? n)%nat && (n <=? 57)%nat then Some (Z.of_nat (n - 48)) else None.

(** The digits [s] starts with: their value after the digits [acc], their
    number, and the rest of [s]. *)
Fixpoint digits (acc : Z) (s : string) : Z * nat * string :=
  match s with
  | String c s' =>
      match digit_value c with
      | Some d => let '(v, n, rest) := digits (10 * acc + d) s' in (v, S n, rest)
      | None => (acc, O, s)
      end
  | EmptyString => (acc, O, s)
  end.

Definition decimal_numeral (s : string) : exn + Val :=
  let '(negative, s1) :=
    match s with
    | String "-" r => (true, r)
    | String "+" r => (false, r)
    | _ => (false, s)
    end in
  let '(i, ni, s2) := digits 0 s1 in
  let '(m, nf, s3) :=
    match s2 with
    | String "." r => digits i r
    | _ => (i, O, s2)
    end in
  if (ni + nf =? 0)%nat || negb (String.eqb s3 "") then inl ValueError
  else
    let f := binary64 (Qmake (if negative then - m else m)
                         (Z.to_pos (10 ^ Z.of_nat nf))) in
    if overflows f then inr (VInf negative) else inr (VFloat f).

(** A host whose float sockets take a float, an int or a bool and hold it as
    a 32-bit float, whose int sockets take a bool or an int of 32 bits, and
    whose color and vector sockets take a sequence of four and of three
    numbers.  It refuses a value of another type with a [TypeError], and an
    int beyond 32 bits on an int socket, a sequence of another length and a
    value that is not a sequence on a color or vector socket with a
    [ValueError]; a socket of another type has no [default_value].  Its
    Principled BSDF has the channel sockets the add-on bridges, and it names
    a new node by its [bl_idname]. *)
Definition sample_Host : Host := {|
  default_node_name idname := idname;
  set_default_value ty v :=
    if String.eqb ty "NodeSocketFloat" then
      match v with
      | VFloat q => inr (VFloat (float32 q))
      | VInf negative => inr (VFloat (if negative then - FLT_MAX else FLT_MAX))
      | VNan => inr VNan
      | VInt z =>
          if overflows (binary64 (inject_Z z)) then inl TypeError
          else inr (VFloat (float32 (binary64 (inject_Z z))))
      | VBool b => inr (VFloat (if b then 1 else 0))
      | _ => inl TypeError
      end
    else if String.eqb ty "NodeSocketInt" then
      match v with
      | VInt z =>
          if (- 2 ^ 31 <=? z)%Z && (z <? 2 ^ 31)%Z then inr v
          else inl ValueError
      | VBool b => inr (VInt (if b then 1 else 0))
      | _ => inl TypeError
      end
    else if String.eqb ty "NodeSocketColor" || String.eqb ty "NodeSocketVector"
    then
      match v with
      | VVec l =>
          if (length l =? (if String.eqb ty "NodeSocketColor" then 4 else 3))%nat
          then inr (VVec (float32 <$> l))
          else inl ValueError
      | _ => inl ValueError
      end
    else inl AttributeError;
  principled_inputs :=
    [ {| s_name := "Base Color"; s_type := "RGBA";
         s_default := Some (held (Node.rgba 0.8 0.8 0.8 1)) |};
      {| s_name := "Metallic"; s_type := "VALUE"; s_default := Some (VFloat 0) |};
      {| s_name := "Roughness"; s_type := "VALUE";
         s_default := Some (VFloat 0.5) |};
      {| s_name := "Alpha"; s_type := "VALUE"; s_default := Some (VFloat 1) |};
      {| s_name := "Normal"; s_type := "VECTOR";
         s_default := Some (Node.vec 0 0 0) |};
      {| s_name := "Emission Color"; s_type := "RGBA";
         s_default := Some (Node.rgba 1 1 1 1) |};
      {| s_name := "Emission Strength"; s_type := "VALUE";
         s_default := Some (VFloat 0) |} ];
  float_of_str := decimal_numeral;
|}.

(** A document with the trim camera and one Normals and one Occlusion map,
    before and after [node_init]. *)
Definition empty_doc : Blend := {|
  rna := λ _, VNone;
  world := None;
  areas := [];
  camera := None;
  images := [];
  reference := None;
  app_version := (4, 1, 0)%nat;
  node_groups := [];
  materials := ∅;
  objects := {[ "GD_Trim Camera" := plain_object ]};
  texts := ∅;
  gd := {[ "normals" := [cycles_color_map]; "occlusion" := [cycles_color_map] ]};
|}.

Definition recipes_doc : Blend :=
  (Node.node_init sample_Global sample_Host empty_doc).1.

(** A material as the host makes it: a Principled BSDF, none of its inputs
    linked, wired into the Material Output. *)
Definition principled_material : Material := {|
  use_nodes := true;
  blend_method := "OPAQUE";
  node_tree := Some (default_tree sample_Host);
|}.

(** A material whose tree holds a Principled BSDF and no output node. *)
Definition bare_material : Material := {|
  use_nodes := true;
  blend_method := "OPAQUE";
  node_tree :=
    Some {| t_nodes := take 1 (t_nodes (default_tree sample_Host));
            t_links := [] |};
|}.

Definition object_with (slots : list (option string)) : Obj := {|
  material_slots := slots;
  active_material_index := 0;
  location := (0, 0, 0)%Q;
  hide_viewport := false;
  hide_render := false;
  hide := false;
|}.

(** The recipes, and a cube with the given slots and materials. *)
Definition scene (slots : list (option string))
  (mats : gmap string Material) : Blend :=
  set_materials mats
    (set_objects (<["Cube" := object_with slots]> (objects recipes_doc))
       recipes_doc).

(** The nodes of a material, by handle, name and type, and its links. *)
Definition tree_summary (name : string) (d : Blend)
  : option (list (nat * string * string) * list Link) :=
  t ← (materials d !! name) ≫= node_tree;
  Some ((λ n, (n_id n, n_name n, n_type n)) <$> t_nodes t, t_links t).

(** * Properties of baker.py *)

Section BakeMaps.
Variable G : Global.

(** The bake maps the document configures: the entries of the collections
    [gd.<id>], for the ids of [ALL_MAP_IDS] that the add-on's properties have. *)
Definition configured (d : Blend) (m : BakeMap) : Prop :=
  ∃ name baker, In name (ALL_MAP_IDS G) ∧ gd d !! name = Some baker ∧ In m baker.

Lemma scan_baker_filter b baker acc :
  Baker.scan_baker b baker acc
  = acc ++ List.filter (λ m, negb b || (enabled m && visibility m)) baker.
Proof.
  revert acc. induction baker as [|m rest IH]; intros acc; simpl.
  - by rewrite app_nil_r.
  - destruct b; simpl.
    + destruct (enabled m && visibility m); simpl; rewrite IH.
      * by rewrite <- app_assoc.
      * done.
    + rewrite IH. by rewrite <- app_assoc.
Qed.

Lemma scan_bakers_filter b bakers acc :
  Baker.scan_bakers b bakers acc
  = acc ++ List.filter (λ m, negb b || (enabled m && visibility m)) (concat bakers).
Proof.
  revert acc. induction bakers as [|baker rest IH]; intros acc; simpl.
  - by rewrite app_nil_r.
  - rewrite IH, scan_baker_filter, List.filter_app. by rewrite <- app_assoc.
Qed.

Lemma get_bakers_from_In ids props (m : BakeMap) :
  In m (concat (Baker.get_bakers_from ids props))
  ↔ ∃ name baker, In name ids ∧ props !! name = Some baker ∧ In m baker.
Proof.
  induction ids as [|name ids IH]; simpl.
  - split; [done | intros (? & ? & [] & _)].
  - destruct (props !! name) as [baker|] eqn:E; simpl.
    + rewrite in_app_iff, IH. split.
      * intros [H | (n & b & ? & ? & ?)]; [exists name, baker; auto | exists n, b; auto].
      * intros (n & b & [-> | Hn] & Hb & Hm).
        -- left. congruence.
        -- right. eauto.
    + rewrite IH. split.
      * intros (n & b & ? & ? & ?). exists n, b; auto.
      * intros (n & b & [-> | Hn] & Hb & Hm); [congruence | eauto].
Qed.

(** C10. [get_bake_maps(enabled_only=True)] is the list of configured bake
    maps, in order, with exactly those kept whose [enabled] and [visibility]
    flags are both set; [get_bake_maps(enabled_only=False)] is the whole list. *)
Theorem get_bake_maps_enabled_and_visible (d : Blend) :
  Baker.get_bake_maps G true d
    = List.filter (λ m, enabled m && visibility m) (concat (Baker.get_bakers G d))
  ∧ Baker.get_bake_maps G false d = concat (Baker.get_bakers G d)
  ∧ (∀ m, In m (Baker.get_bake_maps G true d)
          ↔ configured d m ∧ enabled m = true ∧ visibility m = true)
  ∧ (∀ m, In m (Baker.get_bake_maps G false d) ↔ configured d m).
Proof.
  unfold Baker.get_bake_maps, Baker.get_bakers, configured.
  rewrite !scan_bakers_filter. simpl.
  assert (Hall : ∀ l : list BakeMap, List.filter (λ _, true) l = l).
  { induction l as [|x l IH]; simpl; congruence. }
  rewrite Hall. split; [done|]. split; [done|]. split.
  - intros m. rewrite filter_In, get_bakers_from_In, andb_true_iff. tauto.
  - intros m. apply get_bakers_from_In.
Qed.

End BakeMaps.

(** ** Global snapshot and restore *)

(** The settings [baker_init] captures and [baker_cleanup] assigns back, as
    attribute of [self] and RNA path. *)
Definition restored_settings : list (string * string) :=
  [ ("savedViewLayerUse", "view_layer.use");
    ("savedUseSingleLayer", "render.use_single_layer");
    ("savedRenderer", "render.engine");
    ("savedWorkbenchSampling", "display.render_aa");
    ("savedWorkbenchVPSampling", "display.viewport_aa");
    ("savedEeveeRenderSampling", "eevee.taa_render_samples");
    ("savedEeveeSampling", "eevee.taa_samples");
    ("savedUseBloom", "eevee.use_bloom");
    ("savedUseAO", "eevee.use_gtao");
    ("savedAODistance", "eevee.gtao_distance");
    ("savedAOQuality", "eevee.gtao_quality");
    ("savedDisplayDevice", "display_settings.display_device");
    ("savedViewTransform", "view_settings.view_transform");
    ("savedContrastType", "view_settings.look");
    ("savedExposure", "view_settings.exposure");
    ("savedGamma", "view_settings.gamma");
    ("savedTransparency", "render.film_transparent");
    ("savedFilterSize", "render.filter_size");
    ("savedFilterSizeCycles", "cycles.filter_width");
    ("savedFilterSizeTypeCycles", "cycles.pixel_filter_type");
    ("savedColorMode", "render.image_settings.color_mode");
    ("savedFileFormat", "render.image_settings.file_format");
    ("savedColorDepth", "render.image_settings.color_depth");
    ("savedUseSequencer", "render.use_sequencer");
    ("savedUseCompositor", "render.use_compositing");
    ("savedDitherIntensity", "render.dither_intensity");
    ("savedLight", "display.shading.light");
    ("savedColorType", "display.shading.color_type");
    ("savedBackface", "display.shading.show_backface_culling");
    ("savedXray", "display.shading.show_xray");
    ("savedShadows", "display.shading.show_shadows");
    ("savedCavity", "display.shading.show_cavity");
    ("savedDOF", "display.shading.use_dof");
    ("savedOutline", "display.shading.show_object_outline");
    ("savedShowSpec", "display.shading.show_specular_highlight") ].

(** The per-engine sampling settings of Cycles, which [baker_init] captures
    too. *)
Definition cycles_sampling : list (string * string) :=
  [ ("savedCyclesSampling", "cycles.preview_samples");
    ("savedCyclesRenderSampling", "cycles.samples") ].

Lemma bind_restore {B} p a (k : unit → M (Attrs * Blend) B) self d :
  bind (Baker.restore p a) k (self, d)
  = match self a with
    | Some v => k tt (self, set_rna (sset p v (rna d)) d)
    | None => ((self, d), inl AttributeError)
    end.
Proof. unfold bind, Baker.restore, Baker.self_get, bind. by destruct (self a). Qed.

Lemma bind_self_get {B} a (k : Val → M (Attrs * Blend) B) self d :
  bind (Baker.self_get a) k (self, d)
  = match self a with
    | Some v => k v (self, d)
    | None => ((self, d), inl AttributeError)
    end.
Proof. unfold bind, Baker.self_get. by destruct (self a). Qed.

(** Symbolic execution of [baker_cleanup] on an arbitrary [self]. *)
Ltac run_cleanup self :=
  repeat first
    [ progress cbn -[lookup insert]
    | rewrite bind_restore
    | rewrite bind_self_get
    | match goal with
      | |- context [match self ?x with Some _ => _ | None => _ end] =>
          destruct (self x) eqn:?
      | |- context [if ?c then _ else _] =>
          match type of c with bool => destruct c eqn:? end
      | |- context [match ?v with VNone => _ | _ => _ end] => destruct v
      end ].

(** When [baker_cleanup] returns, every setting of [restored_settings] holds
    the value of its attribute of [self], whatever the document was. *)
Lemma baker_cleanup_assigns self d :
  (Baker.baker_cleanup (self, d)).2 = inr tt →
  List.Forall
    (λ ap, self ap.1 = Some (rna (Baker.baker_cleanup (self, d)).1.2 ap.2))
    restored_settings.
Proof.
  unfold Baker.baker_cleanup.
  run_cleanup self;
    (intros H; try discriminate H; clear H);
    repeat (constructor; [assumption|]); constructor.
Qed.

(** [baker_cleanup] assigns nothing to the Cycles sampling settings: it reads
    them into [self] once more.  So they keep whatever the bake left. *)
Lemma baker_cleanup_leaves_cycles_sampling self d :
  List.Forall
    (λ ap, rna (Baker.baker_cleanup (self, d)).1.2 ap.2 = rna d ap.2)
    cycles_sampling.
Proof.
  unfold Baker.baker_cleanup.
  run_cleanup self; repeat constructor.
Qed.

(** C1, at a Color map baked with Cycles: [baker_init] captures 128 render
    samples and 64 viewport samples; the map's setup sets both to 32; after
    [baker_cleanup] both are still 32, and [self] holds 32 as "saved" value.
    The engine and the Eevee sampling are back at their captured values. *)
Theorem bake_sequence_loses_cycles_sampling :
  let after_init := (Baker.baker_init sample_Global (no_attrs, cycles_doc)).1 in
  let run :=
    Baker.bake_sequence sample_Global [cycles_color_map] (no_attrs, cycles_doc) in
  run.2 = inr tt
  ∧ after_init.1 "savedCyclesRenderSampling" = Some (VInt 128)
  ∧ after_init.1 "savedCyclesSampling" = Some (VInt 64)
  ∧ rna run.1.2 "cycles.samples" = VInt 32
  ∧ rna run.1.2 "cycles.preview_samples" = VInt 32
  ∧ run.1.1 "savedCyclesRenderSampling" = Some (VInt 32)
  ∧ rna run.1.2 "render.engine" = VStr "BLENDER_EEVEE"
  ∧ rna run.1.2 "eevee.taa_render_samples" = VInt 64.
Proof. vm_compute. repeat split; reflexivity. Qed.

(** * Properties of node.py *)

(** ** Recipes are built once *)

Section NodeInit.
Variable G : Global.
Variable H : Host.

Definition keeps_name {A} (m : M Recipe A) : Prop :=
  ∀ r, r_name (m r).1 = r_name r.

Lemma keeps_bind {A B} (m : M Recipe A) (f : A → M Recipe B) :
  keeps_name m → (∀ a, keeps_name (f a)) → keeps_name (bind m f).
Proof.
  intros Hm Hf r. unfold bind. specialize (Hm r).
  destruct (m r) as [r' [e|a]]; simpl in *; [done|].
  by rewrite Hf.
Qed.

Lemma keeps_ret {A} (a : A) : keeps_name (ret a).
Proof. done. Qed.

Lemma keeps_lift_opt {A} e (o : option A) : keeps_name (lift_opt e o).
Proof. by destruct o. Qed.

Lemma keeps_for_each {A} (l : list A) (body : A → M Recipe unit) :
  (∀ a, keeps_name (body a)) → keeps_name (for_each l body).
Proof.
  intros Hb. induction l as [|a l IH]; simpl; [done|].
  apply keeps_bind; auto.
Qed.

Lemma keeps_first_map coll d : keeps_name (Node.first_map coll d).
Proof. unfold Node.first_map. apply keeps_bind; intros; apply keeps_lift_opt. Qed.

Lemma keeps_use_fake_user : keeps_name Node.use_fake_user.
Proof. done. Qed.
Lemma keeps_new_socket a b c p : keeps_name (Node.new_socket a b c p).
Proof. done. Qed.
Lemma keeps_socket_default i v : keeps_name (Node.socket_default i v).
Proof. done. Qed.
Lemma keeps_new_panel n : keeps_name (Node.new_panel n).
Proof. done. Qed.
Lemma keeps_new i : keeps_name (Node.new H i).
Proof. done. Qed.
Lemma keeps_name_node n s : keeps_name (Node.name_node n s).
Proof. done. Qed.
Lemma keeps_set n p v : keeps_name (Node.set n p v).
Proof. done. Qed.
Lemma keeps_link a b c d : keeps_name (Node.link a b c d).
Proof. done. Qed.

Ltac keeps :=
  repeat first
    [ simple apply keeps_bind; [| intros ?]
    | simple apply keeps_for_each; intros [? ?]
    | simple apply keeps_first_map
    | simple apply keeps_lift_opt
    | simple apply keeps_ret
    | simple apply keeps_use_fake_user
    | simple apply keeps_new_socket
    | simple apply keeps_socket_default
    | simple apply keeps_new_panel
    | simple apply keeps_new
    | simple apply keeps_name_node
    | simple apply keeps_set
    | simple apply keeps_link ].

Lemma keeps_generate inputs : keeps_name (Node.generate_shader_interface inputs).
Proof. unfold Node.generate_shader_interface. keeps. Qed.

Lemma keeps_recipes inputs d :
  keeps_name (Node.normal_recipe H inputs d)
  ∧ keeps_name (Node.curvature_recipe H inputs d)
  ∧ keeps_name (Node.occlusion_recipe H inputs d)
  ∧ keeps_name (Node.height_recipe H inputs d)
  ∧ keeps_name (Node.alpha_recipe G H inputs d)
  ∧ keeps_name (Node.color_recipe G H inputs d)
  ∧ keeps_name (Node.emissive_recipe H inputs d)
  ∧ keeps_name (Node.roughness_recipe H inputs d)
  ∧ keeps_name (Node.metallic_recipe H inputs d).
Proof.
  repeat split.
  all: unfold Node.normal_recipe, Node.curvature_recipe, Node.occlusion_recipe,
    Node.height_recipe, Node.alpha_recipe, Node.color_recipe,
    Node.emissive_recipe, Node.roughness_recipe, Node.metallic_recipe.
  all: repeat first [simple apply keeps_generate | progress keeps].
Qed.

Definition output_inputs : list (string * string) :=
  [ ("Surface", "NodeSocketShader"); ("Volume", "NodeSocketShader");
    ("Displacement", "NodeSocketVector") ].

Lemma set_node_groups_id d : set_node_groups (node_groups d) d = d.
Proof. by destruct d. Qed.

Lemma on_new_group_run {A} (m : M Recipe A) l r d :
  node_groups d = l ++ [r] →
  Node.on_new_group m d
  = (set_node_groups (l ++ [(m r).1]) d, (m r).2).
Proof.
  intros Hl. unfold Node.on_new_group. rewrite Hl, fmap_app. simpl.
  rewrite List.last_last, removelast_last. by destruct (m r).
Qed.

(** The scratch group of [get_material_output_inputs] is removed again: the
    document is as before, and the result is the dictionary of the three
    saved-link sockets. *)
Lemma get_material_output_inputs_run d :
  Node.get_material_output_inputs H d = (d, inr output_inputs).
Proof.
  unfold Node.get_material_output_inputs, bind at 1. simpl.
  unfold bind at 1.
  erewrite on_new_group_run by reflexivity.
  simpl. unfold bind, modify, ret. simpl.
  rewrite removelast_last. by destruct d.
Qed.

Lemma unless_present_run name body d :
  (∀ d0, keeps_name (body d0)) →
  ∃ d', (Node.unless_present name body d).1 = d'
    ∧ (name ∈ group_names d → Node.unless_present name body d = (d, inr tt))
    ∧ name ∈ group_names d'
    ∧ (∀ n, n ∈ group_names d → n ∈ group_names d').
Proof.
  intros Hk. eexists. split; [reflexivity|].
  unfold Node.unless_present, bind, get.
  destruct (bool_decide_reflect (name ∈ group_names d)) as [Hin|Hin];
    simpl.
  - split; [done|]. split; done.
  - split; [done|]. unfold modify.
    erewrite on_new_group_run by reflexivity.
    unfold group_names; simpl. rewrite !fmap_app. simpl.
    rewrite Hk. simpl. unfold unique_name.
    rewrite bool_decide_eq_false_2 by done.
    split; [apply elem_of_app; right; by left|].
    intros n Hn. apply elem_of_app. by left.
Qed.

(** The recipes of [node_init], in its order. *)
Definition recipes (inputs : list (string * string))
  : list (string * (Blend → M Recipe unit)) :=
  [ (NORMAL_NODE G, Node.normal_recipe H inputs);
    (CURVATURE_NODE G, Node.curvature_recipe H inputs);
    (OCCLUSION_NODE G, Node.occlusion_recipe H inputs);
    (HEIGHT_NODE G, Node.height_recipe H inputs);
    (ALPHA_NODE G, Node.alpha_recipe G H inputs);
    (COLOR_NODE G, Node.color_recipe G H inputs);
    (EMISSIVE_NODE G, Node.emissive_recipe H inputs);
    (ROUGHNESS_NODE G, Node.roughness_recipe H inputs);
    (METALLIC_NODE G, Node.metallic_recipe H inputs) ].

Definition ensure_all (l : list (string * (Blend → M Recipe unit)))
  : M Blend unit :=
  for_each l (λ p, Node.unless_present p.1 p.2).

Lemma bind_ret_tt {S} (m : M S unit) s : bind m (λ _, ret tt) s = m s.
Proof. unfold bind, ret. by destruct (m s) as [? [?|[]]]. Qed.

Lemma bind_congr {S A B} (m : M S A) (f g : A → M S B) s :
  (∀ a s', f a s' = g a s') → bind m f s = bind m g s.
Proof. intros Hfg. unfold bind. destruct (m s) as [? [?|?]]; [done|apply Hfg]. Qed.

Lemma node_init_unfold d :
  Node.node_init G H d = ensure_all (recipes output_inputs) d.
Proof.
  unfold Node.node_init. unfold bind at 1.
  rewrite get_material_output_inputs_run.
  unfold ensure_all, recipes, for_each. simpl.
  do 8 (apply bind_congr; intros [] ?).
  symmetry. apply bind_ret_tt.
Qed.

Lemma ensure_all_cons p l d :
  ensure_all (p :: l) d
  = bind (Node.unless_present p.1 p.2) (λ _, ensure_all l) d.
Proof. reflexivity. Qed.

Lemma ensure_all_ok l d d1 :
  Forall (λ p, ∀ d0, keeps_name (p.2 d0)) l →
  ensure_all l d = (d1, inr tt) →
  (∀ p, p ∈ l → p.1 ∈ group_names d1)
  ∧ (∀ n, n ∈ group_names d → n ∈ group_names d1).
Proof.
  intros Hk. revert d. induction Hk as [|p l Hp Hl IH]; intros d.
  - intros [= <-]. split; [|done]. intros p Hp. by apply elem_of_nil in Hp.
  - rewrite ensure_all_cons. unfold bind at 1.
    destruct (unless_present_run p.1 p.2 d Hp) as (d' & Hd' & _ & Hin & Hmono).
    destruct (Node.unless_present p.1 p.2 d) as [d'' [e|[]]] eqn:E; [done|].
    simpl in Hd'. subst d''. intros Hrest.
    destruct (IH _ Hrest) as [Hall Hmono'].
    split.
    + intros q Hq. apply elem_of_cons in Hq as [-> | Hq]; auto.
    + auto.
Qed.

Lemma ensure_all_present l d :
  Forall (λ p, ∀ d0, keeps_name (p.2 d0)) l →
  (∀ p, p ∈ l → p.1 ∈ group_names d) →
  ensure_all l d = (d, inr tt).
Proof.
  intros Hk. induction Hk as [|p l Hp Hl IH]; intros Hall; [done|].
  rewrite ensure_all_cons. unfold bind at 1.
  destruct (unless_present_run p.1 p.2 d Hp) as (d' & _ & Hnoop & _).
  rewrite Hnoop by (apply Hall; left).
  apply IH. intros q Hq. apply Hall. by right.
Qed.

Lemma recipes_keep inputs :
  Forall (λ p, ∀ d0, keeps_name (p.2 d0)) (recipes inputs).
Proof.
  unfold recipes.
  repeat (constructor; [intros d0; simpl; apply (keeps_recipes inputs d0)|]).
  constructor.
Qed.

(** C2. Running [node_init] twice in succession is running it once: the
    second call finds every recipe under its name and builds nothing; the
    document, and so the names of the node groups and the number of nodes of
    each, are those the first call left.  (If the first call raises, the
    second is not reached.) *)
Theorem node_init_idempotent d :
  bind (Node.node_init G H) (λ _, Node.node_init G H) d = Node.node_init G H d
  ∧ (let d1 := (Node.node_init G H d).1 in
     (Node.node_init G H d).2 = inr tt →
     Node.node_init G H d1 = (d1, inr tt)
     ∧ (λ r, (r_name r, length (r_nodes r))) <$> node_groups (Node.node_init G H d1).1
       = (λ r, (r_name r, length (r_nodes r))) <$> node_groups d1).
Proof.
  assert (Hsecond : ∀ d1, Node.node_init G H d = (d1, inr tt) →
                          Node.node_init G H d1 = (d1, inr tt)).
  { intros d1 Hrun. rewrite node_init_unfold in Hrun.
    apply ensure_all_ok in Hrun as [Hall _]; [|apply recipes_keep].
    rewrite node_init_unfold.
    apply ensure_all_present; [apply recipes_keep | done]. }
  split.
  - unfold bind. destruct (Node.node_init G H d) as [d1 [e|[]]] eqn:E; [done|].
    by apply Hsecond.
  - simpl. destruct (Node.node_init G H d) as [d1 [e|[]]] eqn:E; [done|].
    simpl. intros _. rewrite (Hsecond d1 eq_refl). done.
Qed.
End NodeInit.

(** ** Copying a channel into the passthrough *)

(** *** Floats and integers *)

(** [z] is [q] without its fraction: the integer nearest to [q] among those
    that are not larger in size. *)
Definition truncated (q : Q) (z : Z) : Prop :=
  (0 <= q → inject_Z z <= q ∧ q < inject_Z z + 1)%Q
  ∧ (q <= 0 → inject_Z z - 1 < q ∧ q <= inject_Z z)%Q.

Lemma py_int_truncates q : truncated q (Node.py_int q).
Proof.
  destruct q as [n d]. unfold truncated, Node.py_int, Qle, Qlt. simpl.
  pose proof (Z.quot_rem' n (Z.pos d)) as E.
  split; intros Hq.
  - assert (0 ≤ n)%Z as Hn by lia.
    pose proof (Z.rem_bound_pos n (Z.pos d) Hn ltac:(lia)). nia.
  - assert (n ≤ 0)%Z as Hn by lia.
    pose proof (Z.rem_bound_pos_neg n (Z.pos d) ltac:(lia) Hn). nia.
Qed.

Lemma truncated_unique q z1 z2 : truncated q z1 → truncated q z2 → z1 = z2.
Proof.
  destruct q as [n d]. unfold truncated, Qle, Qlt. simpl.
  intros [H1 H1'] [H2 H2'].
  destruct (Z.le_ge_cases 0 n) as [Hn|Hn].
  - specialize (H1 ltac:(lia)). specialize (H2 ltac:(lia)). nia.
  - specialize (H1' ltac:(lia)). specialize (H2' ltac:(lia)). nia.
Qed.

(** An integer of less than 54 bits is a 64-bit float. *)
Lemma binary64_int z :
  (Z.abs z < 2 ^ 53)%Z → binary64 (inject_Z z) = inject_Z z.
Proof.
  intros Hz. unfold binary64, round_float. simpl Qnum. simpl Qden.
  destruct (Z.eqb_spec z 0) as [->|Hz0]; [done|].
  assert (0 < Z.abs z)%Z as Ha by lia.
  assert (exponent (inject_Z z) = Z.log2 (Z.abs z)) as ->.
  { unfold exponent. simpl Qnum. simpl Qden.
    change (Z.log2 1) with 0%Z. rewrite Z.sub_0_r.
    pose proof (Z.log2_nonneg (Z.abs z)).
    destruct (Z.leb_spec 0 (Z.log2 (Z.abs z))); [|lia].
    pose proof (Z.log2_spec (Z.abs z) Ha).
    destruct (Z.leb_spec (1 * 2 ^ Z.log2 (Z.abs z)) (Z.abs z)); [done|lia]. }
  assert (Z.log2 (Z.abs z) < 53)%Z as He
    by (apply Z.log2_lt_pow2; [done|lia]).
  set (x := Z.max (Z.log2 (Z.abs z) - 53 + 1) (-1074)).
  assert (x ≤ 0)%Z as Hx by (unfold x; lia).
  destruct (Z.leb_spec x 0); [|lia].
  assert (0 < 2 ^ (- x))%Z as Hp by (apply Z.pow_pos_nonneg; lia).
  unfold round_half_even. rewrite Z.div_1_r, Z.mod_1_r. simpl Z.compare.
  rewrite <- (Qcanon.Qred_identity (inject_Z z)) by (simpl; apply Z.gcd_1_r).
  apply Qred_complete. unfold Qeq. simpl. rewrite Z2Pos.id by done. lia.
Qed.

Lemma small_int_fits z : (Z.abs z < 2 ^ 53)%Z → overflows (inject_Z z) = false.
Proof.
  intros Hz. unfold overflows, Qle_bool. simpl.
  apply Z.leb_gt. rewrite !Z.mul_1_r.
  eapply Z.lt_trans; [exact Hz|]. apply Z.pow_lt_mono_r; lia.
Qed.

Section CreateNodeLinks.
Variable H : Host.

(** The coercion of the claim, written out: what the [except] branch makes
    of the default value [v], or the exception the conversion ends with.  A
    float becomes the int it truncates to; an int (of less than 54 bits: the
    host's are of 32) and a bool become the float of the same value, and a
    string the float it reads as; there is no [int] of an infinity or a NaN,
    and no [float] of [None] or of a sequence. *)
Inductive coerced : Val → exn + Val → Prop :=
| coerced_float q z : truncated q z → coerced (VFloat q) (inr (VInt z))
| coerced_inf negative : coerced (VInf negative) (inl OverflowError)
| coerced_nan : coerced VNan (inl ValueError)
| coerced_int z :
    (Z.abs z < 2 ^ 53)%Z → coerced (VInt z) (inr (VFloat (inject_Z z)))
| coerced_bool b : coerced (VBool b) (inr (VFloat (if b then 1 else 0)))
| coerced_str s : coerced (VStr s) (float_of_str H s)
| coerced_none : coerced VNone (inl TypeError)
| coerced_vec l : coerced (VVec l) (inl TypeError).

(** The tree after [node.inputs[name].default_value] holds [v]. *)
Definition with_default (node : nat) (name : string) (v : Val) (t : NodeTree)
  : NodeTree :=
  update_node node (λ n, with_inputs (sock_set_default name v (n_inputs n)) n) t.

Lemma assign_default_run node name v t n target :
  node_by_id node t = Some n →
  sock_get name (n_inputs n) = Some target →
  Node.assign_default H node name v t
  = match set_default_value H (s_type target) v with
    | inr v' => (with_default node name v' t, inr tt)
    | inl e => (t, inl e)
    end.
Proof.
  intros Hn Ht. unfold Node.assign_default, bind, get. simpl.
  rewrite Hn. simpl. rewrite Ht. simpl.
  by destruct (set_default_value H (s_type target) v).
Qed.

(** The [except] branch of [create_node_links]. *)
Definition except_branch (input_name : string) (node_group : nat)
  (original_input : Sock) : M NodeTree unit :=
  let* v := lift_opt AttributeError (s_default original_input) in
  if Node.is_float v then
    match v with
    | VFloat q =>
        Node.assign_default H node_group input_name (VInt (Node.py_int q))
    | VInf _ => raise OverflowError
    | VNan => raise ValueError
    | _ => ret tt
    end
  else
    match Node.py_float H v with
    | inr v' => Node.assign_default H node_group input_name v'
    | inl e => raise e
    end.

(** The conversion and the second assignment. *)
Lemma except_branch_run input_name node_group original_input v c n target t :
  s_default original_input = Some v →
  node_by_id node_group t = Some n →
  sock_get input_name (n_inputs n) = Some target →
  coerced v c →
  except_branch input_name node_group original_input t
  = match c with
    | inr v2 =>
        match set_default_value H (s_type target) v2 with
        | inr v3 => (with_default node_group input_name v3 t, inr tt)
        | inl e => (t, inl e)
        end
    | inl e => (t, inl e)
    end.
Proof.
  intros Hv Hn Ht Hc. unfold except_branch. rewrite Hv. unfold bind at 1. simpl.
  destruct Hc as [q z Hz| | |z Hz|b|s| |l]; simpl; try done.
  - rewrite (truncated_unique _ _ _ Hz (py_int_truncates q)).
    apply (assign_default_run _ _ _ _ _ _ Hn Ht).
  - rewrite (binary64_int z Hz), (small_int_fits z Hz).
    apply (assign_default_run _ _ _ _ _ _ Hn Ht).
  - apply (assign_default_run _ _ _ _ _ _ Hn Ht).
  - destruct (float_of_str H s) as [e|v']; [done|].
    apply (assign_default_run _ _ _ _ _ _ Hn Ht).
Qed.

(** The first assignment, and what it leaves to the [except] branch. *)
Lemma copy_default_run input_name node_group source original_input v n target t :
  links_into source (s_name original_input) t = [] →
  s_default original_input = Some v →
  node_by_id node_group t = Some n →
  sock_get input_name (n_inputs n) = Some target →
  Node.create_node_links H input_name node_group source original_input t
  = match set_default_value H (s_type target) v with
    | inr v1 => (with_default node_group input_name v1 t, inr false)
    | inl TypeError =>
        let '(t1, r) := except_branch input_name node_group original_input t in
        (t1, match r with inl e => inl e | inr _ => inr false end)
    | inl e => (t, inl e)
    end.
Proof.
  intros El Hv Hn Ht.
  unfold Node.create_node_links, bind at 1, get. simpl. rewrite El.
  unfold bind at 1, Node.except_TypeError.
  fold (except_branch input_name node_group original_input).
  unfold bind at 1. rewrite Hv at 1. simpl.
  rewrite (assign_default_run _ _ _ _ _ _ Hn Ht).
  destruct (set_default_value H (s_type target) v) as [e|v1]; [|done].
  destruct e; try done.
  by destruct (except_branch input_name node_group original_input t)
    as [t1 [e|[]]].
Qed.

(** C6. [create_node_links] returns [True] exactly when the original input
    has an incoming link.  When it has none, the socket's default value is
    assigned to the passthrough's input.  If the host refuses the value with
    a [TypeError], a float is converted to the int it truncates to and any
    other value to the float of the same value, and the assignment is made
    again; an exception of the conversion or of the second assignment is not
    caught, and neither is a refusal of the first assignment that is not a
    [TypeError]. *)
Theorem create_node_links_coerces input_name node_group source original_input t :
  (∀ t' b,
     Node.create_node_links H input_name node_group source original_input t
       = (t', inr b) →
     (b = true ↔ links_into source (s_name original_input) t ≠ []))
  ∧ (∀ v n target,
       links_into source (s_name original_input) t = [] →
       s_default original_input = Some v →
       node_by_id node_group t = Some n →
       sock_get input_name (n_inputs n) = Some target →
       match set_default_value H (s_type target) v with
       | inr v1 =>
           Node.create_node_links H input_name node_group source
             original_input t
           = (with_default node_group input_name v1 t, inr false)
       | inl TypeError =>
           ∀ c, coerced v c →
             Node.create_node_links H input_name node_group source
               original_input t
             = match c with
               | inr v2 =>
                   match set_default_value H (s_type target) v2 with
                   | inr v3 =>
                       (with_default node_group input_name v3 t, inr false)
                   | inl e => (t, inl e)
                   end
               | inl e => (t, inl e)
               end
       | inl e =>
           Node.create_node_links H input_name node_group source
             original_input t
           = (t, inl e)
       end).
Proof.
  split.
  - intros t' b. unfold Node.create_node_links, bind at 1, get. simpl.
    destruct (links_into source (s_name original_input) t) as [|l ls] eqn:El.
    + unfold bind at 1.
      destruct (Node.except_TypeError _ _ t) as [t1 [e|[]]]; [done|].
      unfold ret. intros [= <- <-]. split; [done|]. intros ?; done.
    + intros Hrun. split; [done|]. intros _.
      revert Hrun. unfold bind, lift_opt, ret, raise, modify.
      repeat match goal with
      | |- context [match ?o with Some _ => _ | None => _ end] =>
          destruct o; simpl
      end; congruence.
  - intros v n target El Hv Hn Ht.
    rewrite (copy_default_run _ _ _ _ _ _ _ _ El Hv Hn Ht).
    destruct (set_default_value H (s_type target) v) as [e|v1]; [|done].
    destruct e; try done.
    intros c Hc.
    rewrite (except_branch_run _ _ _ _ _ _ _ _ Hv Hn Ht Hc).
    destruct c as [e|v2]; [done|].
    by destruct (set_default_value H (s_type target) v2).
Qed.
End CreateNodeLinks.

(** A passthrough (node 0) with an int, a float and a vector input, beside a
    node (1) that nothing is linked to. *)
Definition typed_passthrough : NodeTree := {|
  t_nodes :=
    [ {| n_id := 0; n_name := "GD_Typed"; n_type := "GROUP";
         n_group := Some "GD_Typed";
         n_inputs :=
           [ {| s_name := "Count"; s_type := "NodeSocketInt";
                s_default := Some (VInt 0) |};
             {| s_name := "Factor"; s_type := "NodeSocketFloat";
                s_default := Some (VFloat 0) |};
             {| s_name := "Normal"; s_type := "NodeSocketVector";
                s_default := Some (Node.vec 0 0 0) |} ];
         n_outputs := []; n_attrs := [] |};
      {| n_id := 1; n_name := "Principled BSDF"; n_type := "BSDF_PRINCIPLED";
         n_group := None; n_inputs := []; n_outputs := []; n_attrs := [] |} ];
  t_links := [];
|}.

(** An input of node 1 with the default value [v]. *)
Definition holding (v : Val) : Sock :=
  {| s_name := "Value"; s_type := "VALUE"; s_default := Some v |}.

(** On the sample host.  The float -2.7 is refused by the int socket and
    stored as -2; the string 1.5 is refused by the float socket and stored as
    the float 1.5; the vector is refused by the float socket, and [float]
    refuses it in turn.  The float 1 on the vector socket and the int 2^31 on
    the int socket are refused with a [ValueError], which is not caught. *)
Example create_node_links_on_sample_host :
  Node.create_node_links sample_Host "Count" 0 1 (holding (VFloat (-2.7)))
    typed_passthrough
  = (with_default 0 "Count" (VInt (-2)) typed_passthrough, inr false)
  ∧ Node.create_node_links sample_Host "Factor" 0 1 (holding (VStr "1.5"))
      typed_passthrough
    = (with_default 0 "Factor" (VFloat (3 # 2)) typed_passthrough, inr false)
  ∧ Node.create_node_links sample_Host "Factor" 0 1
      (holding (Node.vec 1 2 3)) typed_passthrough
    = (typed_passthrough, inl TypeError)
  ∧ Node.create_node_links sample_Host "Normal" 0 1 (holding (VFloat 1))
      typed_passthrough
    = (typed_passthrough, inl ValueError)
  ∧ Node.create_node_links sample_Host "Count" 0 1 (holding (VInt (2 ^ 31)))
      typed_passthrough
    = (typed_passthrough, inl ValueError).
Proof. vm_compute. repeat split; reflexivity. Qed.

(** ** Materials without an output node *)

Section SpliceNoOutput.
Variable G : Global.
Variable H : Host.

(** The Material Output nodes of a tree. *)
Definition output_nodes (t : NodeTree) : list Node :=
  List.filter (λ n, String.eqb (n_type n) "OUTPUT_MATERIAL") (t_nodes t).

(** Splicing into a material without output node raises, whatever the
    recipe; nothing but [use_nodes] is touched. *)
Lemma splice_material_without_output props group name material_name ok mat t txt :
  node_tree mat = Some t →
  name_in_nodes name t = false →
  output_nodes t = [] →
  Node.splice_material G H props group name material_name ok (mat, txt)
  = ((enable_nodes H mat, txt), inl AttributeError).
Proof.
  intros Ht Hname Hout.
  unfold Node.splice_material, bind at 1, Node.on_mat at 1, modify. simpl.
  unfold bind at 1, Node.on_mat at 1, Node.on_tree, get. simpl.
  rewrite Ht. simpl. rewrite Hname.
  unfold output_nodes in Hout. rewrite Hout. unfold raise.
  unfold set_tree, enable_nodes. simpl. by rewrite Ht.
Qed.
End SpliceNoOutput.

(** C8. A material whose tree holds no Material Output node does not get
    one: [output_nodes] is a set, a set has no [append], and the call stops
    with [AttributeError] before a node is made.  Here on a cube whose one
    material holds a lone Principled BSDF: the call raises, and the tree is
    as it was, still without an output node. *)
Theorem apply_without_output_node_raises :
  let d := scene [Some "Bare"] {[ "Bare" := bare_material ]} in
  let run := Node.apply_node_to_objects sample_Global sample_Host
               "GD_Base Color" ["Cube"] d in
  output_nodes <$> node_tree bare_material = Some []
  ∧ run.2 = inl AttributeError
  ∧ tree_summary "Bare" run.1 = tree_summary "Bare" d
  ∧ output_nodes <$> (materials run.1 !! "Bare" ≫= node_tree) = Some [].
Proof. vm_compute. repeat split; reflexivity. Qed.

(** ** The default material *)

(** [material.node_tree.nodes['Principled BSDF'].inputs['Emission Color']
    .default_value] *)
Definition emission_color (m : Material) : option Val :=
  t ← node_tree m;
  n ← nodes_get "Principled BSDF" t;
  s ← sock_get "Emission Color" (n_inputs n);
  s_default s.

(** The slots of an object once every empty one holds [mat]; an object
    without slots gets one. *)
Definition filled (mat : string) (slots : list (option string))
  : list (option string) :=
  match slots with
  | [] => [Some mat]
  | _ => (λ s, Some (default mat s)) <$> slots
  end.

Lemma fill_first_empty_app mat pre rest :
  Forall is_Some pre →
  Node.fill_first_empty mat (pre ++ None :: rest) = pre ++ Some mat :: rest.
Proof.
  induction 1 as [|s pre [m ->] _ IH]; simpl; [done|]. by rewrite IH.
Qed.

Lemma fill_slots_app mat post : ∀ pre,
  Forall is_Some pre →
  Node.fill_slots (seq (length pre) (length post)) mat (pre ++ post)
  = pre ++ ((λ s, Some (default mat s)) <$> post).
Proof.
  induction post as [|s post IH]; intros pre Hpre; simpl; [done|].
  rewrite lookup_app_r; [|lia]. rewrite Nat.sub_diag. simpl.
  destruct s as [m|]; simpl.
  - specialize (IH (pre ++ [Some m])).
    rewrite length_app, Nat.add_1_r, <- !app_assoc in IH. simpl in IH.
    apply IH. apply Forall_app. split; [done|]. by repeat constructor.
  - rewrite fill_first_empty_app; [|done].
    specialize (IH (pre ++ [Some mat])).
    rewrite length_app, Nat.add_1_r, <- !app_assoc in IH. simpl in IH.
    apply IH. apply Forall_app. split; [done|]. by repeat constructor.
Qed.

Lemma fill_slots_all mat slots :
  Node.fill_slots (seq 0 (length slots)) mat slots
  = (λ s, Some (default mat s)) <$> slots.
Proof. apply (fill_slots_app mat slots []). constructor. Qed.

Lemma sock_get_set_default name v socks :
  has_sock name socks = true →
  sock_get name (sock_set_default name v socks) ≫= s_default = Some v.
Proof.
  unfold has_sock, sock_get.
  induction socks as [|s socks IH]; simpl; [done|].
  destruct (String.eqb (s_name s) name) eqn:E; simpl.
  - by rewrite E.
  - by rewrite E.
Qed.

Section DefaultMaterial.
Variable G : Global.
Variable H : Host.

(** The object after the first part of the loop body. *)
Definition with_default_material (o : Obj) : Obj :=
  Node.set_slots (filled (GD_MATERIAL_NAME G) (material_slots o)) o.

Lemma default_slots o :
  (match Node.active_material
           (Node.set_slots
              (Node.fill_slots (seq 0 (length (material_slots o)))
                 (GD_MATERIAL_NAME G) (material_slots o)) o) with
   | None =>
       Node.set_active_material (GD_MATERIAL_NAME G)
         (Node.set_slots
            (Node.fill_slots (seq 0 (length (material_slots o)))
               (GD_MATERIAL_NAME G) (material_slots o)) o)
   | Some _ =>
       Node.set_slots
         (Node.fill_slots (seq 0 (length (material_slots o)))
            (GD_MATERIAL_NAME G) (material_slots o)) o
   end) = with_default_material o.
Proof.
  rewrite fill_slots_all. unfold with_default_material, filled.
  destruct (material_slots o) as [|s slots] eqn:E; [done|].
  unfold Node.active_material. cbn [Node.set_slots material_slots fmap list_fmap].
  set (l := Some (default (GD_MATERIAL_NAME G) s) :: _).
  destruct (l !! _) as [x|] eqn:El.
  - assert (Forall is_Some l) as Hl.
    { subst l. constructor; [done|]. apply Forall_fmap, Forall_true. intros y. simpl. by eexists. }
    eapply Forall_lookup_1 in Hl as [m ->]; [|done]. done.
  - apply lookup_ge_None in El. subst l. simpl in El. lia.
Qed.

(** The material [new_default_material] makes. *)
Definition default_material : Material :=
  {| use_nodes := true; blend_method := "OPAQUE";
     node_tree :=
       Some (update_node 0
               (λ n, with_inputs
                       (sock_set_default "Emission Color" (Node.rgba 0 0 0 1)
                          (n_inputs n)) n)
               (default_tree H)) |}.

Lemma new_default_material_run d :
  has_sock "Emission Color" (principled_inputs H) = true →
  Node.new_default_material G H d
  = (set_materials (<[GD_MATERIAL_NAME G := default_material]> (materials d)) d,
     inr tt).
Proof.
  intros Hs. unfold Node.new_default_material, bind at 1, modify. simpl.
  unfold Node.on_material. simpl. rewrite lookup_insert_eq.
  unfold bind, Node.on_tree, get, lift_opt, modify. simpl.
  unfold has_sock in Hs.
  destruct (sock_get "Emission Color" (principled_inputs H)); [|done].
  simpl. by rewrite insert_insert_eq.
Qed.

Lemma emission_color_default :
  has_sock "Emission Color" (principled_inputs H) = true →
  emission_color default_material = Some (Node.rgba 0 0 0 1).
Proof.
  intros Hs. unfold emission_color. simpl.
  apply sock_get_set_default, Hs.
Qed.

(** C9, as the code has it.  For an object without slots or with an empty
    slot, the first part of [apply_node_to_objects]'s loop body puts the
    default material into every empty slot, removes no slot, and gives an
    object without slots one slot.  The material is the one registered under
    the add-on's name when there is one, and then it is left as it is; only
    when there is none a new one is made, and that one's Principled BSDF has
    the black Emission Color. *)
Theorem assign_default_material_fills ob o d :
  objects d !! ob = Some o →
  material_slots o = [] ∨ None ∈ material_slots o →
  (∀ m, materials d !! GD_MATERIAL_NAME G = Some m →
        Node.assign_default_material G H ob d
        = (set_objects (<[ob := with_default_material o]> (objects d)) d,
           inr tt))
  ∧ (materials d !! GD_MATERIAL_NAME G = None →
     has_sock "Emission Color" (principled_inputs H) = true →
     Node.assign_default_material G H ob d
     = (set_objects (<[ob := with_default_material o]> (objects d))
          (set_materials
             (<[GD_MATERIAL_NAME G := default_material]> (materials d)) d),
        inr tt)
     ∧ emission_color default_material = Some (Node.rgba 0 0 0 1)).
Proof.
  intros Ho Hneed.
  assert (bool_decide (material_slots o = [])
          || bool_decide (None ∈ material_slots o) = true) as Hb.
  { destruct Hneed as [Hn|Hn].
    - by rewrite (bool_decide_eq_true_2 _ Hn).
    - rewrite (bool_decide_eq_true_2 _ Hn). apply orb_true_r. }
  split.
  - intros m Hm. unfold Node.assign_default_material, bind at 1, get. simpl.
    unfold bind at 1. rewrite Ho. simpl. rewrite Hb.
    rewrite bool_decide_eq_true_2; [|by eexists].
    unfold bind at 1. simpl. unfold modify. by rewrite default_slots.
  - intros Hm Hs. split; [|by apply emission_color_default].
    unfold Node.assign_default_material, bind at 1, get. simpl.
    unfold bind at 1. rewrite Ho. simpl. rewrite Hb.
    rewrite bool_decide_eq_false_2; [|rewrite Hm; by intros [? ?]].
    unfold bind at 1. rewrite new_default_material_run; [|done].
    unfold modify. simpl. by rewrite default_slots.
Qed.

End DefaultMaterial.

(** A cube with an empty slot between two slots of its own material, in a
    document without default material: the three slots are kept, the empty
    one filled with the new material, whose Emission Color is black. *)
Lemma assign_default_material_fills_witness :
  let slots := [Some "Mat"; None; Some "Mat"] in
  let d := scene slots {[ "Mat" := principled_material ]} in
  material_slots (with_default_material sample_Global (object_with slots))
  = [Some "Mat"; Some "GD_Material"; Some "Mat"]
  ∧ (Node.assign_default_material sample_Global sample_Host "Cube" d).2 = inr tt
  ∧ emission_color (default_material sample_Host) = Some (Node.rgba 0 0 0 1).
Proof.
  intros slots d.
  destruct (assign_default_material_fills sample_Global sample_Host "Cube"
              (object_with slots) d) as [_ Hnew].
  - vm_compute. reflexivity.
  - right. unfold slots. apply list_elem_of_further, list_elem_of_here.
  - destruct Hnew as [Hrun Hblack].
    + vm_compute. reflexivity.
    + vm_compute. reflexivity.
    + split; [reflexivity|]. split; [|exact Hblack].
      rewrite Hrun. reflexivity.
Defined.

(** The claim as the spec has it fails on a document that already holds a
    material under the add-on's name: the cube's empty slot gets that
    material, whose Emission Color stays white. *)
Lemma existing_default_material_keeps_emission :
  let d := scene [None] {[ "GD_Material" := principled_material ]} in
  let run := Node.apply_node_to_objects sample_Global sample_Host
               "GD_Base Color" ["Cube"] d in
  run.2 = inr true
  ∧ material_slots <$> objects run.1 !! "Cube" = Some [Some "GD_Material"]
  ∧ emission_color <$> materials run.1 !! "GD_Material"
    = Some (Some (Node.rgba 1 1 1 1))
  ∧ Node.rgba 1 1 1 1 ≠ Node.rgba 0 0 0 1.
Proof. vm_compute. repeat split; try reflexivity. discriminate. Qed.

(** ** The update callbacks and the live preview *)

(** [bpy.data.node_groups[group].nodes.get(node).<path>] *)
Definition group_node_attr (group node path : string) (d : Blend)
  : option Val :=
  r ← groups_get group d;
  x ← List.find (λ x, String.eqb (rn_name x) node) (r_nodes r);
  attr_get path (rn_attrs x).

(** The document with [scene.gd.preview_state] set. *)
Definition set_preview_state (b : bool) (d : Blend) : Blend :=
  set_rna (sset "gd.preview_state" (VBool b) (rna d)) d.

Lemma find_update_first {A} (p : A → bool) (f : A → A) l :
  (∀ x, p (f x) = p x) →
  List.find p (Baker.update_first p f l) = f <$> List.find p l.
Proof.
  intros Hf. induction l as [|x l IH]; simpl; [done|].
  destruct (p x) eqn:E; simpl.
  - by rewrite Hf, E.
  - by rewrite E.
Qed.

Lemma find_update_first_other {A} (p q : A → bool) (f : A → A) l :
  (∀ x, q (f x) = q x) →
  (∀ x, p x = true → List.find q [f x] = List.find q [x]) →
  List.find q (Baker.update_first p f l) = List.find q l.
Proof.
  intros Hf Hpq. induction l as [|x l IH]; simpl; [done|].
  destruct (p x) eqn:E; simpl.
  - specialize (Hpq x E). simpl in Hpq. rewrite Hf in *.
    by destruct (q x).
  - by rewrite IH.
Qed.

Lemma attr_get_set k k' v l :
  attr_get k (attr_set k' v l)
  = if String.eqb k k' then Some v else attr_get k l.
Proof.
  induction l as [|[k0 v0] l IH]; simpl.
  - by destruct (String.eqb k k').
  - destruct (String.eqb k' k0) eqn:E0; simpl.
    + apply String.eqb_eq in E0 as <-. by destruct (String.eqb k k').
    + rewrite IH. destruct (String.eqb k k0) eqn:E1; [|done].
      apply String.eqb_eq in E1 as <-.
      by rewrite String.eqb_sym, E0.
Qed.

Section Updates.
Variable G : Global.

Lemma group_node_set_run group node path v d r x :
  groups_get group d = Some r →
  List.find (λ x, String.eqb (rn_name x) node) (r_nodes r) = Some x →
  Baker.group_node_set group node path v d
  = (set_node_groups
       (Baker.update_first (λ r, String.eqb (r_name r) group)
          (λ r, Baker.with_nodes
                  (Baker.update_first (λ x, String.eqb (rn_name x) node)
                     (Baker.rnode_set path v) (r_nodes r)) r)
          (node_groups d)) d,
     inr tt).
Proof.
  intros Hr Hx. unfold Baker.group_node_set, bind, get, lift_opt, modify.
  simpl. rewrite Hr. simpl. by rewrite Hx.
Qed.

(** What a node of a group reads after an assignment to a node of the same
    group. *)
Lemma group_node_attr_set group node path node' path' v d r x :
  groups_get group d = Some r →
  List.find (λ x, String.eqb (rn_name x) node') (r_nodes r) = Some x →
  group_node_attr group node path
    (Baker.group_node_set group node' path' v d).1
  = if String.eqb node node' && String.eqb path path' then Some (held v)
    else group_node_attr group node path d.
Proof.
  intros Hr Hx. rewrite (group_node_set_run _ _ _ _ _ _ _ Hr Hx). simpl.
  unfold group_node_attr, groups_get. simpl.
  rewrite find_update_first; [|done]. fold (groups_get group d).
  rewrite Hr. simpl.
  destruct (String.eqb node node') eqn:En; simpl.
  - apply String.eqb_eq in En as ->.
    rewrite find_update_first; [|done]. rewrite Hx. simpl.
    rewrite attr_get_set. by destruct (String.eqb path path').
  - rewrite find_update_first_other; [done|done|].
    intros y Hy. simpl. apply String.eqb_eq in Hy. rewrite Hy.
    by rewrite String.eqb_sym, En.
Qed.

End Updates.

(** Whether [bpy.data.node_groups[group].nodes.get(node)] is a node. *)
Definition has_group_node (group node : string) (d : Blend) : bool :=
  match groups_get group d with
  | Some r =>
      match List.find (λ x, String.eqb (rn_name x) node) (r_nodes r) with
      | Some _ => true
      | None => false
      end
  | None => false
  end.

(** [d'] is [d] but for its node groups. *)
Definition same_but_groups (d d' : Blend) : Prop :=
  d' = set_node_groups (node_groups d') d.

Lemma same_but_groups_trans d1 d2 d3 :
  same_but_groups d1 d2 → same_but_groups d2 d3 → same_but_groups d1 d3.
Proof. unfold same_but_groups. intros -> ->. done. Qed.

Lemma group_node_set_ok group node path v d :
  has_group_node group node d = true →
  ∃ d', Baker.group_node_set group node path v d = (d', inr tt)
        ∧ same_but_groups d d'
        ∧ (∀ n, has_group_node group n d' = has_group_node group n d)
        ∧ (∀ n p, group_node_attr group n p d'
                  = if String.eqb n node && String.eqb p path
                    then Some (held v)
                    else group_node_attr group n p d).
Proof.
  unfold has_group_node.
  destruct (groups_get group d) as [r|] eqn:Hr; [|done].
  destruct (List.find _ (r_nodes r)) as [x|] eqn:Hx; [|done]. intros _.
  eexists. split; [by apply (group_node_set_run _ _ _ _ _ _ _ Hr Hx)|].
  split; [done|]. split.
  - intros n. unfold groups_get. simpl.
    rewrite find_update_first; [|done]. fold (groups_get group d).
    rewrite Hr. simpl.
    destruct (String.eqb n node) eqn:En.
    + apply String.eqb_eq in En as ->.
      rewrite find_update_first; [|done]. by rewrite Hx.
    + rewrite find_update_first_other; [done|done|].
      intros y Hy. simpl. apply String.eqb_eq in Hy. rewrite Hy.
      by rewrite String.eqb_sym, En.
  - intros n p.
    pose proof (group_node_attr_set group n p node path v d r x Hr Hx) as E.
    by rewrite (group_node_set_run _ _ _ _ _ _ _ Hr Hx) in E.
Qed.

Lemma bind_run {S A B} (m : M S A) (k : A → M S B) s s' a :
  m s = (s', inr a) → bind m k s = k a s'.
Proof. intros E. unfold bind. by rewrite E. Qed.

Section Preview.
Variable G : Global.

(** The shading settings after [update_curvature] under a live preview. *)
Definition curvature_pushed (self : BakeMap) (d : Blend) : Blend :=
  set_rna
    (sset "display.shading.curvature_valley_factor" (VFloat (valley self))
       (sset "display.shading.curvature_ridge_factor" (VFloat (ridge self))
          (sset "display.shading.cavity_ridge_factor" (VFloat (ridge self))
             (rna d)))) d.

(** What the nodes of the height recipe hold after [update_guide], for the
    camera height [z]: the range in the Map Range node, the colors (swapped
    by [invert]) and the location in the ColorRamp node. *)
Definition guide_attr (self : BakeMap) (z : Q) (node path : string)
  : option Val :=
  if String.eqb node "Map Range" then
    if String.eqb path "inputs[1].default_value"
    then Some (VFloat (float32 (binary64 (z + - distance self))))
    else if String.eqb path "inputs[2].default_value"
    then Some (VFloat (float32 z))
    else None
  else if String.eqb node "ColorRamp" then
    if String.eqb path "color_ramp.elements[0].color"
    then Some (if invert self then VVec [0; 0; 0; 1] else VVec [1; 1; 1; 1])%Q
    else if String.eqb path "color_ramp.elements[1].color"
    then Some (if invert self then VVec [1; 1; 1; 1] else VVec [0; 0; 0; 1])%Q
    else if String.eqb path "location"
    then Some (VVec [-400; 0])%Q
    else None
  else None.

(** The writes of [update_guide]. *)
Lemma update_guide_writes (scene_setup : BakeMap → M Blend unit) self d o :
  has_group_node (HEIGHT_NODE G) "Map Range" d = true →
  has_group_node (HEIGHT_NODE G) "ColorRamp" d = true →
  objects d !! TRIM_CAMERA_NAME G = Some o →
  ∃ d5,
    same_but_groups d d5
    ∧ (∀ n p, group_node_attr (HEIGHT_NODE G) n p d5
              = match guide_attr self (location o).2 n p with
                | Some v => Some v
                | None => group_node_attr (HEIGHT_NODE G) n p d
                end)
    ∧ Baker.update_guide G scene_setup self d
      = if String.eqb (method self) "MANUAL" then scene_setup self d5
        else (d5, inr tt).
Proof.
  intros Hrange Hramp Hcam.
  unfold Baker.update_guide, bind at 1, get. simpl.
  unfold bind at 1. rewrite Hcam. simpl.
  destruct (group_node_set_ok (HEIGHT_NODE G) "Map Range"
              "inputs[1].default_value"
              (VFloat (py_add (location o).2 (- distance self))) d Hrange)
    as (d1 & E1 & Hs1 & Hn1 & Ha1).
  rewrite (bind_run _ _ _ _ _ E1).
  destruct (group_node_set_ok (HEIGHT_NODE G) "Map Range"
              "inputs[2].default_value" (VFloat (location o).2) d1)
    as (d2 & E2 & Hs2 & Hn2 & Ha2); [by rewrite Hn1|].
  rewrite (bind_run _ _ _ _ _ E2).
  destruct (group_node_set_ok (HEIGHT_NODE G) "ColorRamp"
              "color_ramp.elements[0].color"
              (if invert self then VVec [0; 0; 0; 1]
               else VVec [1; 1; 1; 1])%Q d2)
    as (d3 & E3 & Hs3 & Hn3 & Ha3); [by rewrite Hn2, Hn1|].
  rewrite (bind_run _ _ _ _ _ E3).
  destruct (group_node_set_ok (HEIGHT_NODE G) "ColorRamp"
              "color_ramp.elements[1].color"
              (if invert self then VVec [1; 1; 1; 1]
               else VVec [0; 0; 0; 1])%Q d3)
    as (d4 & E4 & Hs4 & Hn4 & Ha4); [by rewrite Hn3, Hn2, Hn1|].
  rewrite (bind_run _ _ _ _ _ E4).
  destruct (group_node_set_ok (HEIGHT_NODE G) "ColorRamp" "location"
              (VVec [-400; 0])%Q d4)
    as (d5 & E5 & Hs5 & Hn5 & Ha5); [by rewrite Hn4, Hn3, Hn2, Hn1|].
  rewrite (bind_run _ _ _ _ _ E5).
  exists d5. split; [|split].
  - eauto using same_but_groups_trans.
  - intros n p. rewrite Ha5, Ha4, Ha3, Ha2, Ha1. unfold guide_attr, py_add.
    destruct (String.eqb n "Map Range") eqn:En.
    + apply String.eqb_eq in En as ->. simpl.
      destruct (String.eqb p "inputs[1].default_value") eqn:Ep.
      * apply String.eqb_eq in Ep as ->. done.
      * by destruct (String.eqb p "inputs[2].default_value").
    + destruct (String.eqb n "ColorRamp") eqn:En'; [|done].
      simpl.
      destruct (String.eqb p "color_ramp.elements[0].color") eqn:Ep0.
      * apply String.eqb_eq in Ep0 as ->. simpl. by destruct (invert self).
      * destruct (String.eqb p "color_ramp.elements[1].color") eqn:Ep1.
        -- apply String.eqb_eq in Ep1 as ->. simpl. by destruct (invert self).
        -- by destruct (String.eqb p "location").
  - destruct (String.eqb (method self) "MANUAL").
    + unfold bind at 1.
      destruct (scene_setup self d5) as [d6 [e|[]]]; [done|].
      unfold bind, Baker.getp, ret. simpl.
      by destruct (truthy (rna d6 "gd.preview_state")).
    + unfold bind, ret, Baker.getp. simpl.
      by destruct (truthy (rna d5 "gd.preview_state")).
Qed.


(** The sample counts after [apply_render_settings]. *)
Lemma apply_render_settings_samples self d :
  (Baker.apply_render_settings self d).2 = inr tt
  ∧ (upper (engine self) = "BLENDER_EEVEE" →
       rna (Baker.apply_render_settings self d).1 "eevee.taa_render_samples"
       = VInt (samples self)
       ∧ rna (Baker.apply_render_settings self d).1 "eevee.taa_samples"
         = VInt (samples self))
  ∧ (upper (engine self) = "CYCLES" →
       rna (Baker.apply_render_settings self d).1 "cycles.samples"
       = VInt (samples_cycles self)
       ∧ rna (Baker.apply_render_settings self d).1 "cycles.preview_samples"
         = VInt (samples_cycles self)).
Proof.
  split; [|split]; [|intros E..].
  - cbv [Baker.apply_render_settings Baker.set_color_management bind
           Baker.setp Baker.getp modify ret fst snd].
    by repeat match goal with
       | |- context [if ?b then _ else _] => destruct b
       end.
  - unfold Baker.apply_render_settings. rewrite E. by vm_compute.
  - unfold Baker.apply_render_settings. rewrite E. by vm_compute.
Qed.

(** C7, as the code has it.  Of the callbacks of the numeric parameters,
    only the Curvature one asks for the live preview: without one it leaves
    the document as it is, with one it writes the ridge and valley factors
    into the shading settings.  Whatever [preview_state] is,
    [apply_render_settings] writes the sample count of the map's engine, the
    Occlusion callbacks write gamma and distance into the Gamma and Ambient
    Occlusion nodes of their recipe, and the Height callback writes the
    range into the Map Range node and the colors into the ColorRamp node of
    its recipe, and after that calls [scene_setup] for a manual range.  The
    nodes hold the values as 32-bit floats.  The callback of the height
    method calls [scene_setup], and has the guide height set for the
    automatic range under a live preview only. *)
Theorem update_callbacks_and_preview {A}
  (scene_setup : BakeMap → M Blend unit) (get_rendered_objects : M Blend A)
  (set_guide_height : A → M Blend unit) self d o :
  has_group_node (OCCLUSION_NODE G) "Gamma" d = true →
  has_group_node (OCCLUSION_NODE G) "Ambient Occlusion" d = true →
  has_group_node (HEIGHT_NODE G) "Map Range" d = true →
  has_group_node (HEIGHT_NODE G) "ColorRamp" d = true →
  objects d !! TRIM_CAMERA_NAME G = Some o →
  Baker.update_curvature self d
  = (if truthy (rna d "gd.preview_state") then curvature_pushed self d else d,
     inr tt)
  ∧ ((Baker.apply_render_settings self d).2 = inr tt
     ∧ (upper (engine self) = "BLENDER_EEVEE" →
          rna (Baker.apply_render_settings self d).1 "eevee.taa_render_samples"
          = VInt (samples self)
          ∧ rna (Baker.apply_render_settings self d).1 "eevee.taa_samples"
            = VInt (samples self))
     ∧ (upper (engine self) = "CYCLES" →
          rna (Baker.apply_render_settings self d).1 "cycles.samples"
          = VInt (samples_cycles self)
          ∧ rna (Baker.apply_render_settings self d).1 "cycles.preview_samples"
            = VInt (samples_cycles self)))
  ∧ (∃ d1,
       Baker.update_gamma G self d = (d1, inr tt)
       ∧ same_but_groups d d1
       ∧ ∀ n p, group_node_attr (OCCLUSION_NODE G) n p d1
                = if String.eqb n "Gamma"
                     && String.eqb p "inputs[1].default_value"
                  then Some (VFloat (float32 (gamma self)))
                  else group_node_attr (OCCLUSION_NODE G) n p d)
  ∧ (∃ d1,
       Baker.update_distance G self d = (d1, inr tt)
       ∧ same_but_groups d d1
       ∧ ∀ n p, group_node_attr (OCCLUSION_NODE G) n p d1
                = if String.eqb n "Ambient Occlusion"
                     && String.eqb p "inputs[1].default_value"
                  then Some (VFloat (float32 (distance self)))
                  else group_node_attr (OCCLUSION_NODE G) n p d)
  ∧ (∃ d5,
       same_but_groups d d5
       ∧ (∀ n p, group_node_attr (HEIGHT_NODE G) n p d5
                 = match guide_attr self (location o).2 n p with
                   | Some v => Some v
                   | None => group_node_attr (HEIGHT_NODE G) n p d
                   end)
       ∧ Baker.update_guide G scene_setup self d
         = if String.eqb (method self) "MANUAL" then scene_setup self d5
           else (d5, inr tt))
  ∧ Baker.update_method scene_setup get_rendered_objects set_guide_height
      self d
    = (let '(d1, r) := scene_setup self d in
       match r with
       | inl e => (d1, inl e)
       | inr _ =>
           if truthy (rna d1 "gd.preview_state")
              && String.eqb (method self) "AUTO"
           then (let* rendered_obs := get_rendered_objects in
                 set_guide_height rendered_obs) d1
           else (d1, inr tt)
       end).
Proof.
  intros Hgamma Hao Hrange Hramp Hcam.
  split; [|split; [|split; [|split; [|split]]]].
  - unfold Baker.update_curvature, bind at 1, Baker.getp. simpl.
    by destruct (truthy (rna d "gd.preview_state")).
  - apply apply_render_settings_samples.
  - unfold Baker.update_gamma.
    destruct (group_node_set_ok _ _ "inputs[1].default_value"
                (VFloat (gamma self)) d Hgamma) as (d' & E & Hs & _ & Hattr).
    by exists d'.
  - unfold Baker.update_distance.
    destruct (group_node_set_ok _ _ "inputs[1].default_value"
                (VFloat (distance self)) d Hao) as (d' & E & Hs & _ & Hattr).
    by exists d'.
  - by apply update_guide_writes.
  - unfold Baker.update_method, bind at 1.
    destruct (scene_setup self d) as [d1 [e|[]]]; [done|].
    unfold bind at 1, Baker.getp. cbv beta iota.
    destruct (truthy (rna d1 "gd.preview_state")); [|done].
    by destruct (String.eqb (method self) "AUTO").
Qed.

End Preview.

(** An Occlusion map with gamma 2 and distance 3. *)
Definition occlusion_map : BakeMap := {|
  kind := Occlusion;
  enabled := true;
  reimport := false;
  suffix := "ao";
  visibility := true;
  samples := 128;
  samples_cycles := 32;
  samples_workbench := "16";
  contrast := "None";
  engine := "blender_eevee";
  flip_y := false;
  use_texture := true;
  ridge := 2;
  valley := 1.5;
  gamma := 2;
  distance := 3;
  invert := false;
  method := "AUTO";
|}.

(** A Height map with a manual range of 0.3 (as a 32-bit float), inverted. *)
Definition height_map : BakeMap := {|
  kind := Height;
  enabled := true;
  reimport := false;
  suffix := "height";
  visibility := true;
  samples := 128;
  samples_cycles := 32;
  samples_workbench := "16";
  contrast := "None";
  engine := "blender_eevee";
  flip_y := false;
  use_texture := true;
  ridge := 2;
  valley := 1.5;
  gamma := 1;
  distance := float32 0.3;
  invert := true;
  method := "MANUAL";
|}.

(** The document [node_init] leaves, with the trim camera at a height of 0.1
    (as a 32-bit float) and without live preview. *)
Definition raised_camera_doc : Blend :=
  set_preview_state false
    (set_objects
       (<["GD_Trim Camera" :=
            {| material_slots := []; active_material_index := 0;
               location := (0, 0, float32 0.1)%Q;
               hide_viewport := false; hide_render := false;
               hide := false |}]> (objects recipes_doc))
       recipes_doc).

(** On that document, for a manual range and a [scene_setup] that raises:
    the Curvature callback changes nothing; the Height callback ends with the
    exception of [scene_setup], in a document whose Map Range node holds the
    32-bit float nearest to 0.1 - 0.3 and whose ColorRamp node holds the
    colors of the inverted mask. *)
Lemma update_callbacks_and_preview_witness :
  Baker.update_curvature height_map raised_camera_doc
  = (raised_camera_doc, inr tt)
  ∧ ∃ d5,
      Baker.update_guide sample_Global (λ _, raise KeyError) height_map
        raised_camera_doc
      = (d5, inl KeyError)
      ∧ group_node_attr "GD_Height" "Map Range" "inputs[1].default_value" d5
        = Some (VFloat (- (6710887 # 33554432)))
      ∧ group_node_attr "GD_Height" "ColorRamp" "color_ramp.elements[0].color"
          d5
        = Some (VVec [0; 0; 0; 1]%Q).
Proof.
  destruct (update_callbacks_and_preview sample_Global
              (λ _, raise KeyError) (ret tt) (λ _, ret tt)
              height_map raised_camera_doc
              {| material_slots := []; active_material_index := 0;
                 location := (0, 0, float32 0.1)%Q;
                 hide_viewport := false; hide_render := false;
                 hide := false |})
    as (Hcurvature & _ & _ & _ & (d5 & _ & Hattr & Hrun) & _).
  - vm_compute. reflexivity.
  - vm_compute. reflexivity.
  - vm_compute. reflexivity.
  - vm_compute. reflexivity.
  - vm_compute. reflexivity.
  - split; [exact Hcurvature|]. exists d5. split; [exact Hrun|].
    rewrite !Hattr. split; vm_compute; reflexivity.
Defined.

(** The claim as the spec has it fails for the Occlusion map: without live
    preview, a change of gamma from 1 to 2 is written into the recipe's
    Gamma node. *)
Lemma occlusion_gamma_pushed_without_preview :
  let d := set_preview_state false recipes_doc in
  truthy (rna d "gd.preview_state") = false
  ∧ group_node_attr "GD_Ambient Occlusion" "Gamma" "inputs[1].default_value" d
    = Some (VFloat 1)
  ∧ (Baker.update_gamma sample_Global occlusion_map d).2 = inr tt
  ∧ group_node_attr "GD_Ambient Occlusion" "Gamma" "inputs[1].default_value"
      (Baker.update_gamma sample_Global occlusion_map d).1
    = Some (VFloat 2)
  ∧ VFloat 1 ≠ VFloat 2.
Proof. vm_compute. repeat split; try reflexivity. discriminate. Qed.

(** ** What a call keeps *)

(** [m] relates the state it is called in to the state it leaves. *)
Definition preserves {S A} (P : S → S → Prop) (m : M S A) : Prop :=
  ∀ s, P s (m s).1.

Section Preserves.
Context {S : Type} (P : S → S → Prop).
Hypothesis P_refl : ∀ s, P s s.
Hypothesis P_trans : ∀ s1 s2 s3, P s1 s2 → P s2 s3 → P s1 s3.

Lemma preserves_ret {A} (a : A) : preserves P (ret a).
Proof using P_refl. intros s. apply P_refl. Qed.

Lemma preserves_raise {A} e : preserves P (raise (A := A) e).
Proof using P_refl. intros s. apply P_refl. Qed.

Lemma preserves_get : preserves P get.
Proof using P_refl. intros s. apply P_refl. Qed.

Lemma preserves_lift_opt {A} e (o : option A) : preserves P (lift_opt e o).
Proof using P_refl. intros s. destruct o; apply P_refl. Qed.

Lemma preserves_modify (f : S → S) : (∀ s, P s (f s)) → preserves P (modify f).
Proof. intros Hf s. apply Hf. Qed.

Lemma preserves_bind {A B} (m : M S A) (k : A → M S B) :
  preserves P m → (∀ a, preserves P (k a)) → preserves P (bind m k).
Proof using P_trans.
  intros Hm Hk s. unfold bind. specialize (Hm s).
  destruct (m s) as [s1 [e|a]]; [done|].
  eapply P_trans; [exact Hm|apply Hk].
Qed.

Lemma preserves_for_each {A} (l : list A) (body : A → M S unit) :
  (∀ a, preserves P (body a)) → preserves P (for_each l body).
Proof using P_refl P_trans.
  intros Hb. induction l as [|a l IH]; simpl.
  - apply preserves_ret.
  - apply preserves_bind; [apply Hb|]. intros _. apply IH.
Qed.

Lemma preserves_for_fold {A} (l : list A) (body : A → bool → M S bool) :
  (∀ a b, preserves P (body a b)) → ∀ acc, preserves P (Node.for_fold l acc body).
Proof using P_refl P_trans.
  intros Hb. induction l as [|a l IH]; intros acc; simpl.
  - apply preserves_ret.
  - apply preserves_bind; [apply Hb|]. intros b. apply IH.
Qed.

End Preserves.

(** ** Splicing keeps the nodes it finds *)

(** Two trees with the same nodes up to sockets' values and attributes:
    the names, in order. *)
Definition same_names (t t' : NodeTree) : Prop := node_names t' = node_names t.

(** Two materials whose trees have the same names, with [use_nodes] as it
    was. *)
Definition same_material_names (m m' : Material) : Prop :=
  use_nodes m' = use_nodes m
  ∧ node_names <$> node_tree m' = node_names <$> node_tree m.

Lemma same_names_refl t : same_names t t.
Proof. done. Qed.

Lemma same_names_trans t1 t2 t3 :
  same_names t1 t2 → same_names t2 t3 → same_names t1 t3.
Proof. unfold same_names. congruence. Qed.

Lemma same_material_names_refl m : same_material_names m m.
Proof. done. Qed.

Lemma same_material_names_trans m1 m2 m3 :
  same_material_names m1 m2 → same_material_names m2 m3 →
  same_material_names m1 m3.
Proof. unfold same_material_names. intros [? ?] [? ?]. split; congruence. Qed.

Lemma update_node_names i f t :
  (∀ n, n_name (f n) = n_name n) →
  node_names (update_node i f t) = node_names t.
Proof.
  intros Hf. unfold node_names, update_node. simpl.
  rewrite <- list_fmap_compose. apply list_fmap_ext.
  intros _ n _. simpl. destruct (Nat.eqb (n_id n) i); [apply Hf|done].
Qed.

Lemma on_tree_same_names {A} (m : M NodeTree A) :
  preserves same_names m → preserves same_material_names (Node.on_tree m).
Proof.
  intros Hm mat. unfold Node.on_tree.
  destruct (node_tree mat) as [t|] eqn:Et; [|done].
  specialize (Hm t). destruct (m t) as [t' r]. simpl in *.
  split; [done|]. simpl. rewrite Et. simpl. by rewrite Hm.
Qed.

Section SpliceKeeps.
Variable G : Global.
Variable H : Host.

Ltac keeps_tree :=
  repeat first
    [ simple apply (preserves_bind same_names same_names_trans); [|intros ?]
    | simple apply (preserves_ret same_names same_names_refl)
    | simple apply (preserves_raise same_names same_names_refl)
    | simple apply (preserves_get same_names same_names_refl)
    | simple apply (preserves_lift_opt same_names same_names_refl)
    | simple apply (preserves_for_each same_names same_names_refl
                      same_names_trans); intros ?
    | simple apply (preserves_modify same_names); intros ?; reflexivity ].

Lemma assign_default_same_names node name v :
  preserves same_names (Node.assign_default H node name v).
Proof.
  unfold Node.assign_default. keeps_tree.
  destruct (set_default_value H _ v); keeps_tree.
  apply preserves_modify. intros t. by apply update_node_names.
Qed.

Lemma except_TypeError_same_names {A} (m h : M NodeTree A) :
  preserves same_names m → preserves same_names h →
  preserves same_names (Node.except_TypeError m h).
Proof.
  intros Hm Hh t. unfold Node.except_TypeError. specialize (Hm t).
  destruct (m t) as [t' [[]|a]]; try done.
  eapply same_names_trans; [exact Hm|apply Hh].
Qed.

Lemma create_node_links_same_names input_name node_group source original_input :
  preserves same_names
    (Node.create_node_links H input_name node_group source original_input).
Proof.
  unfold Node.create_node_links.
  apply (preserves_bind same_names same_names_trans); [keeps_tree|]. intros t.
  destruct (links_into source (s_name original_input) t); [|keeps_tree].
  apply (preserves_bind same_names same_names_trans); [|keeps_tree].
  apply except_TypeError_same_names; keeps_tree.
  - apply assign_default_same_names.
  - destruct (Node.is_float _).
    + destruct a; keeps_tree. apply assign_default_same_names.
    + destruct (Node.py_float H a); keeps_tree. apply assign_default_same_names.
Qed.

Ltac keeps_material :=
  repeat first
    [ simple apply (preserves_bind same_material_names
                      same_material_names_trans); [|intros ?]
    | simple apply (preserves_ret same_material_names
                      same_material_names_refl)
    | simple apply (preserves_raise same_material_names
                      same_material_names_refl)
    | simple apply (preserves_get same_material_names
                      same_material_names_refl)
    | simple apply (preserves_lift_opt same_material_names
                      same_material_names_refl)
    | simple apply (preserves_for_fold same_material_names
                      same_material_names_refl same_material_names_trans);
      intros ? ?
    | simple apply (preserves_modify same_material_names); intros ?;
      reflexivity
    | simple apply on_tree_same_names; keeps_tree ].

Lemma clip_if_masked_same_names source original_input :
  preserves same_material_names (Node.clip_if_masked source original_input).
Proof.
  unfold Node.clip_if_masked. keeps_material.
  match goal with |- context [if ?c then _ else _] => destruct c end;
    keeps_material.
Qed.

Lemma clip_if_textured_same_names props source original_input :
  preserves same_material_names
    (Node.clip_if_textured props source original_input).
Proof.
  unfold Node.clip_if_textured.
  destruct (String.eqb _ _); keeps_material.
  destruct (use_texture _); keeps_material.
  apply clip_if_masked_same_names.
Qed.

Lemma bridge_same_names props name passthrough source inputs :
  ∀ node_found,
    preserves same_material_names
      (Node.bridge G H props name passthrough source inputs node_found).
Proof.
  induction inputs as [|original_input rest IH]; intros node_found; simpl.
  - keeps_material.
  - repeat match goal with
           | |- preserves _ (if ?c then _ else _) => destruct c
           end;
      keeps_material;
      try apply create_node_links_same_names;
      try apply clip_if_masked_same_names;
      try apply clip_if_textured_same_names;
      try apply IH.
Qed.

Lemma splice_link_same_names props name material_name passthrough socket_name
  link ok :
  preserves same_material_names
    (Node.splice_link G H props name material_name passthrough socket_name
       link ok).
Proof.
  unfold Node.splice_link.
  repeat first
    [ progress keeps_material
    | match goal with
      | |- preserves _ (if ?c then _ else _) => destruct c
      end
    | simple apply bridge_same_names ].
Qed.

Lemma splice_links_same_names props name material_name passthrough output ok :
  preserves same_material_names
    (Node.splice_links G H props name material_name passthrough output ok).
Proof.
  unfold Node.splice_links. keeps_material. apply splice_link_same_names.
Qed.

End SpliceKeeps.

(** The tree with one more node. *)
Definition add_node (n : Node) (t : NodeTree) : NodeTree :=
  {| t_nodes := t_nodes t ++ [n]; t_links := t_links t |}.

Lemma fresh_id_above t : Forall (λ n, n_id n ≠ fresh_id t) (t_nodes t).
Proof.
  unfold fresh_id. apply Forall_forall. intros n Hn.
  assert (n_id n ≤ list_max (n_id <$> t_nodes t)); [|lia].
  assert (Forall (λ k, k ≤ list_max (n_id <$> t_nodes t)) (n_id <$> t_nodes t))
    as Hmax by by apply list_max_le.
  rewrite Forall_forall in Hmax. apply Hmax.
  apply list_elem_of_fmap. by exists n.
Qed.

Lemma update_others i (f : Node → Node) l :
  Forall (λ n, n_id n ≠ i) l →
  (λ n, if Nat.eqb (n_id n) i then f n else n) <$> l = l.
Proof.
  induction 1 as [|x l Hx _ IH]; [done|].
  rewrite fmap_cons, IH. apply Nat.eqb_neq in Hx. by rewrite Hx.
Qed.

Lemma filter_others i l :
  Forall (λ n, n_id n ≠ i) l →
  List.filter (λ n, negb (Nat.eqb (n_id n) i)) l = l.
Proof.
  induction 1 as [|x l Hx _ IH]; simpl; [done|].
  apply Nat.eqb_neq in Hx. by rewrite Hx, IH.
Qed.

Lemma update_node_add n f t :
  n_id n = fresh_id t →
  update_node (fresh_id t) f (add_node n t) = add_node (f n) t.
Proof.
  intros Hn. unfold update_node, add_node. simpl. f_equal.
  rewrite fmap_app. simpl. rewrite Hn, Nat.eqb_refl.
  by rewrite update_others; [|apply fresh_id_above].
Qed.

Lemma set_node_name_add n s t :
  n_id n = fresh_id t →
  set_node_name (fresh_id t) s (add_node n t)
  = add_node (with_name (unique_name (node_names t) s) n) t.
Proof.
  intros Hn. unfold set_node_name.
  rewrite update_node_add; [|done].
  unfold add_node at 1. simpl.
  rewrite List.filter_app. simpl. rewrite Hn, Nat.eqb_refl. simpl.
  rewrite app_nil_r. by rewrite filter_others; [|apply fresh_id_above].
Qed.

Lemma set_node_attr_add n k v t :
  n_id n = fresh_id t →
  set_node_attr (fresh_id t) k v (add_node n t) = add_node (with_attr k v n) t.
Proof. apply update_node_add. Qed.

Lemma on_mat_tree {A} (m : M NodeTree A) mat txt t :
  node_tree mat = Some t →
  Node.on_mat (Node.on_tree m) (mat, txt)
  = ((set_tree (m t).1 mat, txt), (m t).2).
Proof.
  intros Ht. unfold Node.on_mat, Node.on_tree. rewrite Ht.
  by destruct (m t).
Qed.

(** Two states of a splice whose materials have the same names. *)
Definition same_spliced_names (s s' : Node.Spliced) : Prop :=
  same_material_names s.1 s'.1.

Lemma same_spliced_names_refl s : same_spliced_names s s.
Proof. apply same_material_names_refl. Qed.

Lemma same_spliced_names_trans s1 s2 s3 :
  same_spliced_names s1 s2 → same_spliced_names s2 s3 →
  same_spliced_names s1 s3.
Proof. apply same_material_names_trans. Qed.

Lemma on_mat_same_names {A} (m : M Material A) :
  preserves same_material_names m →
  preserves same_spliced_names (Node.on_mat m).
Proof.
  intros Hm [mat txt]. unfold Node.on_mat, same_spliced_names.
  specialize (Hm mat). by destruct (m mat).
Qed.

Lemma on_mat_tree_run {A} (m : M NodeTree A) mat txt t t' r :
  node_tree mat = Some t →
  m t = (t', r) →
  Node.on_mat (Node.on_tree m) (mat, txt) = ((set_tree t' mat, txt), r).
Proof. intros Ht Hm. rewrite (on_mat_tree _ _ _ _ Ht). by rewrite Hm. Qed.

Section SpliceOutput.
Variable G : Global.
Variable H : Host.

(** The passthrough node, as [splice_output] leaves it before linking. *)
Definition passthrough_node (g : Recipe) (x y : Q) (t : NodeTree) : Node :=
  with_attr "hide" (VBool true)
    (with_name (unique_name (node_names t) (r_name g))
       (with_attr "location" (held (Node.xy x (py_sub y 160)))
          {| n_id := fresh_id t;
             n_name := unique_name (node_names t) "Group";
             n_type := "GROUP";
             n_group := Some (r_name g);
             n_inputs := group_sockets "INPUT" g;
             n_outputs := group_sockets "OUTPUT" g;
             n_attrs := [] |})).

(** The frame that holds the note. *)
Definition frame_node (g : Recipe) (x y : Q) (t : NodeTree) : Node :=
  with_attr "height" (VInt 150)
    (with_attr "width" (VInt 1000)
       (with_attr "text" (VStr Node.warning_text)
          (with_name (unique_name (node_names t) (r_name g))
             (with_attr "location" (held (Node.xy x (py_sub y 195)))
                {| n_id := fresh_id t;
                   n_name := unique_name (node_names t) "Frame";
                   n_type := "FRAME";
                   n_group := None;
                   n_inputs := [];
                   n_outputs := [];
                   n_attrs := [] |})))).

(** The tree with the passthrough and its frame, not yet linked. *)
Definition with_passthrough (g : Recipe) (output : Node) (t : NodeTree)
  : NodeTree :=
  let '(x, y) := Node.location_of output in
  let t1 := add_node (passthrough_node g x y t) t in
  add_node (frame_node g x y t1) t1.

(** [splice_output] makes the two nodes, and what it does then (the links)
    keeps the names of the nodes. *)
Lemma splice_output_run props g name material_name output ok mat txt t :
  node_tree mat = Some t →
  ∃ rest : M Node.Spliced bool,
    Node.splice_output G H props (Some g) name material_name output ok
      (mat, txt)
    = rest (set_tree (with_passthrough g output t) mat,
            <[Node.warning_text := NG_NODE_WARNING G]> txt)
    ∧ preserves same_spliced_names rest.
Proof.
  intros Ht. unfold Node.splice_output, with_passthrough.
  destruct (Node.location_of output) as [x y].
  unfold bind at 1. rewrite (on_mat_tree _ _ _ _ Ht).
  unfold nodes_new. cbn [fst snd from_option].
  match goal with
  | |- context [set_node_attr _ _ _ {| t_nodes := _ ++ [?n]; t_links := _ |}] =>
      change {| t_nodes := t_nodes t ++ [n]; t_links := t_links t |}
        with (add_node n t)
  end.
  rewrite set_node_attr_add; [|done].
  unfold bind at 1, lift_opt at 1, ret at 1.
  unfold bind at 1.
  erewrite on_mat_tree_run; [|reflexivity|reflexivity].
  rewrite set_node_name_add; [|done].
  rewrite set_node_attr_add; [|done].
  unfold bind at 1, Node.write_text at 1, modify at 1.
  unfold bind at 1.
  erewrite on_mat_tree_run; [|reflexivity|unfold nodes_new; reflexivity].
  match goal with
  | |- context [set_node_attr _ "location" _
                  {| t_nodes := t_nodes ?t1 ++ [?n]; t_links := _ |}] =>
      change {| t_nodes := t_nodes t1 ++ [n]; t_links := t_links t1 |}
        with (add_node n t1)
  end.
  rewrite set_node_attr_add; [|done].
  rewrite set_node_name_add; [|done].
  rewrite !set_node_attr_add; [|done..].
  eexists. split; [reflexivity|].
  apply (preserves_bind _ same_spliced_names_trans).
  { apply on_mat_same_names, splice_links_same_names. }
  intros ok0.
  apply (preserves_bind _ same_spliced_names_trans);
    [|intros ?; apply (preserves_ret _ same_spliced_names_refl)].
  apply on_mat_same_names, on_tree_same_names.
  repeat first
    [ simple apply (preserves_bind same_names same_names_trans); [|intros ?]
    | simple apply (preserves_get same_names same_names_refl)
    | simple apply (preserves_lift_opt same_names same_names_refl)
    | simple apply (preserves_for_each same_names same_names_refl
                      same_names_trans); intros ?
    | simple apply (preserves_modify same_names); intros ?; reflexivity ].
Qed.

(** A material that has been spliced with the recipe [name]. *)
Definition spliced (name : string) (m : Material) : Prop :=
  use_nodes m = true
  ∧ ∃ t, node_tree m = Some t ∧ name_in_nodes name t = true.

(** The material keeps [use_nodes] and its tree, and the tree the names it
    has. *)
Definition grows (s s' : Node.Spliced) : Prop :=
  use_nodes s'.1 = use_nodes s.1
  ∧ ∀ t, node_tree s.1 = Some t →
         ∃ t', node_tree s'.1 = Some t' ∧ node_names t ⊆ node_names t'.

Lemma grows_refl s : grows s s.
Proof. split; [done|]. intros t Ht. by exists t. Qed.

Lemma grows_trans s1 s2 s3 : grows s1 s2 → grows s2 s3 → grows s1 s3.
Proof.
  intros [Hu1 Ht1] [Hu2 Ht2]. split; [congruence|].
  intros t Ht. destruct (Ht1 t Ht) as (t' & Ht' & Hsub).
  destruct (Ht2 t' Ht') as (t'' & Ht'' & Hsub'). exists t''. split; [done|].
  by etrans.
Qed.

Lemma same_spliced_names_grows s s' : same_spliced_names s s' → grows s s'.
Proof.
  intros [Hu Hn]. split; [done|]. intros t Ht. rewrite Ht in Hn.
  destruct (node_tree s'.1) as [t'|]; [|done]. exists t'. split; [done|].
  simpl in Hn. injection Hn as ->. done.
Qed.

Lemma node_names_add n t : node_names (add_node n t) = node_names t ++ [n_name n].
Proof. unfold node_names, add_node. simpl. by rewrite fmap_app. Qed.

Lemma splice_output_grows props node_group name material_name output ok :
  preserves grows
    (Node.splice_output G H props node_group name material_name output ok).
Proof.
  intros [mat txt]. destruct (node_tree mat) as [t|] eqn:Ht.
  - destruct node_group as [g|].
    + destruct (splice_output_run props g name material_name output ok
                  mat txt t Ht) as (rest & -> & Hrest).
      eapply grows_trans; [|apply same_spliced_names_grows, Hrest].
      split; [done|]. simpl. intros t0 Ht0. rewrite Ht in Ht0.
      injection Ht0 as <-. eexists. split; [done|].
      unfold with_passthrough. destruct (Node.location_of output) as [x y].
      rewrite !node_names_add. intros a Ha.
      apply elem_of_app. left. apply elem_of_app. by left.
    + unfold Node.splice_output.
      destruct (Node.location_of output) as [x y].
      unfold bind at 1. rewrite (on_mat_tree _ _ _ _ Ht).
      unfold nodes_new. cbn [fst snd from_option].
      match goal with
      | |- context [set_node_attr _ _ _
                      {| t_nodes := _ ++ [?n]; t_links := _ |}] =>
          change {| t_nodes := t_nodes t ++ [n]; t_links := t_links t |}
            with (add_node n t)
      end.
      rewrite set_node_attr_add; [|done].
      unfold bind, lift_opt, raise. cbn [fst snd].
      split; [done|]. cbn [fst snd]. intros t0 Ht0. rewrite Ht in Ht0.
      injection Ht0 as <-. eexists. split; [done|].
      rewrite node_names_add. intros a Ha. apply elem_of_app. by left.
  - unfold Node.splice_output.
    destruct (Node.location_of output) as [x y].
    unfold bind at 1, Node.on_mat at 1, Node.on_tree at 1. rewrite Ht.
    apply grows_refl.
Qed.

Lemma passthrough_named g x y t :
  r_name g ∉ node_names t → n_name (passthrough_node g x y t) = r_name g.
Proof.
  intros Hg. unfold passthrough_node, unique_name. simpl.
  by rewrite bool_decide_eq_false_2.
Qed.

Lemma splice_material_done props node_group name material_name ok mat txt s' b :
  (∀ g, node_group = Some g → r_name g = name) →
  Node.splice_material G H props node_group name material_name ok (mat, txt)
  = (s', inr b) →
  spliced name s'.1.
Proof.
  intros Hname. unfold Node.splice_material.
  unfold bind at 1, Node.on_mat at 1, modify at 1. cbn [fst snd].
  unfold bind at 1.
  erewrite on_mat_tree_run; [|reflexivity|reflexivity].
  set (t0 := default (default_tree H) (node_tree mat)).
  assert (set_tree t0 (enable_nodes H mat) = enable_nodes H mat) as ->.
  { unfold set_tree, enable_nodes. simpl. done. }
  destruct (name_in_nodes name t0) eqn:Hin.
  - unfold ret. intros [= <- <-]. split; [done|]. by exists t0.
  - destruct (List.filter _ (t_nodes t0)) as [|o os]; [done|].
    simpl. unfold bind at 1.
    destruct node_group as [g|].
    + destruct (splice_output_run props g name material_name o ok
                  (enable_nodes H mat) txt t0 eq_refl) as (rest & -> & Hrest).
      specialize (Hrest (set_tree (with_passthrough g o t0) (enable_nodes H mat),
                         <[Node.warning_text := NG_NODE_WARNING G]> txt)).
      destruct (rest _) as [s1 [e|b1]]; [done|].
      intros Hfold.
      pose proof (preserves_for_fold grows grows_refl grows_trans os
                    (Node.splice_output G H props (Some g) name material_name)
                    (λ a b, splice_output_grows props (Some g) name
                              material_name a b) b1 s1) as Hgrow.
      rewrite Hfold in Hgrow. simpl in Hgrow.
      destruct Hrest as [Hu1 Hn1]. simpl in Hu1, Hn1.
      destruct (node_tree s1.1) as [t1|] eqn:Ht1; [|done].
      destruct Hgrow as [Hu Hsub].
      destruct (Hsub t1 Ht1) as (t' & Ht' & Hsub').
      split; [by rewrite Hu, Hu1|]. exists t'. split; [done|].
      unfold name_in_nodes. apply bool_decide_eq_true. apply Hsub'.
      simpl in Hn1. injection Hn1 as Hn1. rewrite Hn1.
      unfold with_passthrough. destruct (Node.location_of o) as [x y].
      rewrite !node_names_add.
      unfold name_in_nodes in Hin. apply bool_decide_eq_false in Hin.
      apply elem_of_app. left. apply elem_of_app. right.
      rewrite passthrough_named; rewrite (Hname g eq_refl); [|done].
      by constructor.
    + unfold Node.splice_output. destruct (Node.location_of o) as [x y].
      unfold bind at 1. erewrite on_mat_tree; [|reflexivity].
      unfold nodes_new. cbn [fst snd from_option].
      unfold bind, lift_opt, raise. done.
Qed.

End SpliceOutput.

(** ** Splicing twice *)

Lemma enable_nodes_spliced H name m : spliced name m → enable_nodes H m = m.
Proof.
  intros [Hu (t & Ht & _)]. destruct m as [u b nt]. simpl in *.
  unfold enable_nodes. simpl. by rewrite Hu, Ht.
Qed.

Lemma set_materials_texts_id (d : Blend) k m :
  materials d !! k = Some m →
  set_texts (texts d) (set_materials (<[k := m]> (materials d)) d) = d.
Proof. intros Hk. rewrite insert_id; [|done]. by destruct d. Qed.

Section SpliceTwice.
Variable G : Global.
Variable H : Host.
Variable name : string.

(** The slot's material is there and has been spliced. *)
Definition done_slot (d : Blend) (slot : option string) : Prop :=
  ∃ m, materials d !! default "" slot = Some m ∧ spliced name m.

(** Whether [apply_node_to_objects] gives the object the default material. *)
Definition unassigned (o : Obj) : bool :=
  bool_decide (material_slots o = []) || bool_decide (None ∈ material_slots o).

(** The object is there, every slot of it holds a material, and each of
    these has been spliced. *)
Definition done_obj (d : Blend) (ob : string) : Prop :=
  ∃ o, objects d !! ob = Some o ∧ unassigned o = false
       ∧ Forall (done_slot d) (material_slots o).

(** What the call never undoes: a spliced material stays one, and an object
    whose slots are all assigned keeps them. *)
Definition ext (d d' : Blend) : Prop :=
  (∀ k m, materials d !! k = Some m → spliced name m →
          ∃ m', materials d' !! k = Some m' ∧ spliced name m')
  ∧ (∀ ob o, objects d !! ob = Some o → unassigned o = false →
             objects d' !! ob = Some o).

Lemma ext_refl d : ext d d.
Proof. split; eauto. Qed.

Lemma ext_trans d1 d2 d3 : ext d1 d2 → ext d2 d3 → ext d1 d3.
Proof.
  intros [Hm1 Ho1] [Hm2 Ho2]. split.
  - intros k m Hk Hs. destruct (Hm1 k m Hk Hs) as (m' & Hk' & Hs'). eauto.
  - eauto.
Qed.

Lemma done_slot_ext d d' slot : ext d d' → done_slot d slot → done_slot d' slot.
Proof. intros [Hm _] (m & Hk & Hs). by apply (Hm _ m). Qed.

Lemma done_obj_ext d d' ob : ext d d' → done_obj d ob → done_obj d' ob.
Proof.
  intros Hext (o & Ho & Hfull & Hslots). exists o.
  split; [by apply Hext|]. split; [done|].
  eapply Forall_impl; [exact Hslots|]. intros slot. by apply done_slot_ext.
Qed.

(** A spliced material is skipped. *)
Lemma splice_material_skips props node_group material_name ok m txt :
  spliced name m →
  Node.splice_material G H props node_group name material_name ok (m, txt)
  = ((m, txt), inr ok).
Proof.
  intros Hs. pose proof (enable_nodes_spliced H name m Hs) as He.
  destruct Hs as [Hu (t & Ht & Hin)].
  unfold Node.splice_material.
  unfold bind at 1, Node.on_mat at 1, modify at 1. cbn [fst snd].
  rewrite He. unfold bind at 1.
  erewrite on_mat_tree_run; [|exact Ht|reflexivity].
  cbv beta iota. rewrite Hin. unfold ret. f_equal. f_equal.
  destruct m as [u b nt]. simpl in *. unfold set_tree. simpl. by rewrite Ht.
Qed.

Lemma splice_slot_skips slot ok d :
  done_slot d slot → Node.splice_slot G H name slot ok d = (d, inr ok).
Proof.
  intros (m & Hk & Hs). unfold Node.splice_slot, bind, get. simpl.
  unfold Node.on_slot. rewrite Hk.
  rewrite (splice_material_skips _ _ _ _ _ _ Hs).
  by rewrite set_materials_texts_id.
Qed.

Lemma groups_get_name d g : groups_get name d = Some g → r_name g = name.
Proof.
  unfold groups_get. intros Hg. apply find_some in Hg as [_ Hg].
  by apply String.eqb_eq.
Qed.

(** What [splice_slot] leaves: nothing undone, the objects as they were,
    and, when it returns, the slot's material spliced. *)
Lemma splice_slot_ext slot ok d :
  ext d (Node.splice_slot G H name slot ok d).1
  ∧ objects (Node.splice_slot G H name slot ok d).1 = objects d
  ∧ (∀ b, (Node.splice_slot G H name slot ok d).2 = inr b →
          done_slot (Node.splice_slot G H name slot ok d).1 slot).
Proof.
  unfold Node.splice_slot, bind, get. simpl. unfold Node.on_slot.
  destruct (materials d !! default "" slot) as [m|] eqn:Hk.
  2: { simpl. split; [apply ext_refl|]. split; [done|]. intros b; done. }
  destruct (Node.splice_material G H (gd d) (groups_get name d) name
              (default "" slot) ok (m, texts d)) as [[m' txt'] r] eqn:Hrun.
  simpl. split; [|split; [done|]].
  - split; [|done]. simpl. intros k m0 Hk0 Hs0.
    destruct (decide (k = default "" slot)) as [->|Hne].
    + rewrite Hk in Hk0. injection Hk0 as <-.
      rewrite (splice_material_skips _ _ _ _ _ _ Hs0) in Hrun.
      injection Hrun as <- <- <-. rewrite lookup_insert_eq. eauto.
    + rewrite lookup_insert_ne; [|done]. eauto.
  - intros b ->. exists m'. simpl. rewrite lookup_insert_eq. split; [done|].
    apply (splice_material_done G H _ _ _ _ _ _ _ _ _
             (groups_get_name d) Hrun).
Qed.

Lemma splice_slots_ext slots : ∀ ok d,
  let run := Node.for_fold slots ok (Node.splice_slot G H name) d in
  ext d run.1 ∧ objects run.1 = objects d
  ∧ (∀ b, run.2 = inr b → Forall (done_slot run.1) slots).
Proof.
  induction slots as [|slot slots IH]; intros ok d; simpl.
  - split; [apply ext_refl|]. split; [done|]. intros; constructor.
  - unfold bind.
    destruct (splice_slot_ext slot ok d) as (Hext & Hobj & Hdone).
    destruct (Node.splice_slot G H name slot ok d) as [d1 [e|b1]]; simpl in *.
    { split; [done|]. split; [done|]. intros b; done. }
    destruct (IH b1 d1) as (Hext' & Hobj' & Hdone').
    split; [by eapply ext_trans|]. split; [congruence|].
    intros b Hb. constructor; [|by eapply Hdone'].
    eapply done_slot_ext; [exact Hext'|]. by eapply Hdone.
Qed.

Lemma splice_slots_skip slots ok d :
  Forall (done_slot d) slots →
  Node.for_fold slots ok (Node.splice_slot G H name) d = (d, inr ok).
Proof.
  induction 1 as [|slot slots Hslot _ IH]; simpl; [done|].
  unfold bind. by rewrite splice_slot_skips.
Qed.

Lemma filled_assigned mat slots :
  bool_decide (filled mat slots = [])
  || bool_decide (None ∈ filled mat slots) = false.
Proof.
  apply orb_false_iff. split; apply bool_decide_eq_false.
  - unfold filled. by destruct slots.
  - unfold filled. destruct slots as [|s slots].
    + intros Hin. apply list_elem_of_singleton in Hin. done.
    + intros Hin. apply list_elem_of_fmap in Hin as (x & Hx & _). done.
Qed.

(** What the first part of the loop body leaves: nothing undone, and, when
    it returns, every slot of the object assigned. *)
Lemma assign_default_material_ext ob d :
  ∃ d1 r,
    Node.assign_default_material G H ob d = (d1, r)
    ∧ ext d d1
    ∧ (r = inr tt → ∃ o, objects d1 !! ob = Some o ∧ unassigned o = false).
Proof.
  unfold Node.assign_default_material, bind at 1, get. cbv beta iota.
  unfold bind at 1.
  destruct (objects d !! ob) as [o|] eqn:Ho; cbn [lift_opt ret raise].
  2: { eexists _, _. split; [reflexivity|]. split; [apply ext_refl|]. done. }
  fold (unassigned o). destruct (unassigned o) eqn:Hun.
  2: { eexists _, _. split; [reflexivity|]. split; [apply ext_refl|].
       intros _. by exists o. }
  unfold bind at 1.
  assert (∃ d1 r,
            (if bool_decide (is_Some (materials d !! GD_MATERIAL_NAME G))
             then ret tt else Node.new_default_material G H) d = (d1, r)
            ∧ objects d1 = objects d
            ∧ ∀ k m, materials d !! k = Some m → materials d1 !! k = Some m)
    as (d1 & r & -> & Hobj & Hmat).
  { destruct (bool_decide_reflect
                (is_Some (materials d !! GD_MATERIAL_NAME G))) as [Hgd|Hgd].
    - by exists d, (inr tt).
    - unfold Node.new_default_material, bind at 1, modify. simpl.
      unfold Node.on_material. simpl. rewrite lookup_insert_eq.
      match goal with
      | |- context [let '(mat', r) := ?m ?x in _] =>
          destruct (m x) as [mat' r]
      end.
      eexists _, r. split; [reflexivity|]. split; [done|]. simpl.
      intros k m Hk. rewrite !lookup_insert_ne; [done| |];
        intros <-; apply Hgd; by eexists. }
  destruct r as [e|[]].
  - eexists _, _. split; [reflexivity|]. split; [|done].
    split; [eauto|]. intros ? ? ? ?. by rewrite Hobj.
  - rewrite default_slots. unfold modify.
    eexists _, _. split; [reflexivity|]. split.
    + split; [eauto|]. simpl. intros ob' o' Ho' Hfull.
      destruct (decide (ob' = ob)) as [->|Hne].
      * rewrite Ho in Ho'. congruence.
      * rewrite lookup_insert_ne; [|done]. by rewrite Hobj.
    + intros _. eexists. simpl. rewrite lookup_insert_eq. split; [done|].
      apply filled_assigned.
Qed.

(** The body of [for ob in objects]. *)
Definition splice_object (ob : string) (operation_success : bool)
  : M Blend bool :=
  Node.assign_default_material G H ob >>
  let* d := get in
  let* o := lift_opt KeyError (objects d !! ob) in
  Node.for_fold (material_slots o) operation_success
    (Node.splice_slot G H name).

Lemma apply_node_to_objects_unfold objs :
  Node.apply_node_to_objects G H name objs
  = Node.for_fold objs true splice_object.
Proof. reflexivity. Qed.

Lemma splice_object_ext ob ok d :
  ∃ d' r,
    splice_object ob ok d = (d', r)
    ∧ ext d d'
    ∧ (∀ b, r = inr b → done_obj d' ob).
Proof.
  unfold splice_object, bind at 1.
  destruct (assign_default_material_ext ob d) as (d1 & r1 & -> & Hext & Hfull).
  destruct r1 as [e|[]].
  { eexists _, _. split; [reflexivity|]. split; [done|]. intros b; done. }
  destruct (Hfull eq_refl) as (o & Ho & Hun).
  unfold bind at 1, get. cbv beta iota. unfold bind at 1. rewrite Ho.
  cbn [lift_opt ret].
  destruct (splice_slots_ext (material_slots o) ok d1)
    as (Hext' & Hobj & Hdone).
  destruct (Node.for_fold (material_slots o) ok (Node.splice_slot G H name) d1)
    as [d' r] eqn:Hrun.
  simpl in *. eexists _, _. split; [reflexivity|].
  split; [by eapply ext_trans|].
  intros b ->. exists o. rewrite Hobj. split; [done|]. split; [done|].
  by eapply Hdone.
Qed.

Lemma splice_objects_ext objs : ∀ ok d,
  ∃ d' r,
    Node.for_fold objs ok splice_object d = (d', r)
    ∧ ext d d'
    ∧ (∀ b, r = inr b → Forall (done_obj d') objs).
Proof.
  induction objs as [|ob objs IH]; intros ok d; simpl.
  - eexists _, _. split; [reflexivity|]. split; [apply ext_refl|].
    intros; constructor.
  - unfold bind.
    destruct (splice_object_ext ob ok d) as (d1 & r1 & -> & Hext & Hdone).
    destruct r1 as [e|b1].
    { eexists _, _. split; [reflexivity|]. split; [done|]. intros b; done. }
    destruct (IH b1 d1) as (d' & r & -> & Hext' & Hdone').
    eexists _, _. split; [reflexivity|]. split; [by eapply ext_trans|].
    intros b ->. constructor; [|by eapply Hdone'].
    eapply done_obj_ext; [exact Hext'|]. by eapply Hdone.
Qed.

Lemma splice_object_skips ob ok d :
  done_obj d ob → splice_object ob ok d = (d, inr ok).
Proof.
  intros (o & Ho & Hun & Hslots).
  unfold splice_object, bind at 1.
  assert (Node.assign_default_material G H ob d = (d, inr tt)) as ->.
  { unfold Node.assign_default_material, bind at 1, get. cbv beta iota.
    unfold bind at 1. rewrite Ho. cbn [lift_opt ret].
    fold (unassigned o). by rewrite Hun. }
  unfold bind at 1, get. cbv beta iota. unfold bind at 1. rewrite Ho.
  cbn [lift_opt ret]. by apply splice_slots_skip.
Qed.

Lemma splice_objects_skip objs ok d :
  Forall (done_obj d) objs →
  Node.for_fold objs ok splice_object d = (d, inr ok).
Proof.
  induction 1 as [|ob objs Hob _ IH]; simpl; [done|].
  unfold bind. by rewrite splice_object_skips.
Qed.

(** C3. A second [apply_node_to_objects] on the document the first one
    left inserts nothing: every material of every object holds a node named
    [name] by then, so each is skipped; the document stays as it is, and the
    call returns [True].  A material shared by several slots or objects is
    spliced when the first of them is visited, and skipped from then on. *)
Theorem apply_node_to_objects_twice objs d d1 b :
  Node.apply_node_to_objects G H name objs d = (d1, inr b) →
  Node.apply_node_to_objects G H name objs d1 = (d1, inr true)
  ∧ Forall (done_obj d1) objs.
Proof.
  rewrite !apply_node_to_objects_unfold. intros Hrun.
  destruct (splice_objects_ext objs true d) as (d' & r & Hrun' & _ & Hdone).
  rewrite Hrun in Hrun'. injection Hrun' as <- <-.
  split; [|by eapply Hdone].
  apply splice_objects_skip. by eapply Hdone.
Qed.

End SpliceTwice.

(** A cube with a material of its own and an empty slot: the first call
    splices both materials (and reports the unlinked Base Color), the second
    changes nothing. *)
Lemma apply_node_to_objects_twice_witness :
  let d := scene [Some "Mat"; None] {[ "Mat" := principled_material ]} in
  let d1 := (Node.apply_node_to_objects sample_Global sample_Host
               "GD_Base Color" ["Cube"] d).1 in
  Node.apply_node_to_objects sample_Global sample_Host "GD_Base Color"
    ["Cube"] d1 = (d1, inr true).
Proof.
  intros d d1.
  apply (apply_node_to_objects_twice sample_Global sample_Host
           "GD_Base Color" ["Cube"] d d1 false).
  vm_compute. reflexivity.
Defined.

(** ** The success flag *)

(** The links that end in a node. *)
Definition into_node (i : nat) (t : NodeTree) : list Link :=
  List.filter (λ l, Nat.eqb (l_to_node l) i) (t_links t).

(** Whether an input socket of a node has a link. *)
Definition linked (i : nat) (t : NodeTree) (sock : string) : bool :=
  negb (Nat.eqb (length (links_into i sock t)) 0).

Lemma links_into_into_node i sock t :
  links_into i sock t
  = List.filter (λ l, String.eqb (l_to_socket l) sock) (into_node i t).
Proof.
  unfold links_into, into_node, into.
  induction (t_links t) as [|l ls IH]; simpl; [done|].
  destruct (Nat.eqb (l_to_node l) i); simpl; [|done].
  by rewrite IH.
Qed.

(** The links into a node are those of another tree. *)
Definition same_into (i : nat) (t t' : NodeTree) : Prop :=
  into_node i t' = into_node i t.

Definition same_material_into (i : nat) (m m' : Material) : Prop :=
  into_node i <$> node_tree m' = into_node i <$> node_tree m.

Lemma same_into_refl i t : same_into i t t.
Proof. done. Qed.

Lemma same_into_trans i t1 t2 t3 :
  same_into i t1 t2 → same_into i t2 t3 → same_into i t1 t3.
Proof. unfold same_into. congruence. Qed.

Lemma same_material_into_refl i m : same_material_into i m m.
Proof. done. Qed.

Lemma same_material_into_trans i m1 m2 m3 :
  same_material_into i m1 m2 → same_material_into i m2 m3 →
  same_material_into i m1 m3.
Proof. unfold same_material_into. congruence. Qed.

Lemma on_tree_same_into {A} i (m : M NodeTree A) :
  preserves (same_into i) m → preserves (same_material_into i) (Node.on_tree m).
Proof.
  intros Hm mat. unfold Node.on_tree, same_material_into.
  destruct (node_tree mat) as [t|] eqn:Et; [|simpl; by rewrite Et].
  specialize (Hm t). destruct (m t) as [t' r]. simpl in *.
  by rewrite Hm.
Qed.

Lemma links_new_same_into i to_node to_socket from_node from_socket t :
  to_node ≠ i →
  same_into i t (links_new to_node to_socket from_node from_socket t).
Proof.
  intros Hne. unfold same_into, into_node, links_new. simpl.
  rewrite List.filter_app. simpl.
  apply Nat.eqb_neq in Hne. rewrite Hne, app_nil_r.
  induction (t_links t) as [|l ls IH]; simpl; [done|].
  unfold into at 1.
  destruct (Nat.eqb (l_to_node l) to_node) eqn:E1; simpl.
  - destruct (String.eqb (l_to_socket l) to_socket); simpl.
    + apply Nat.eqb_eq in E1. rewrite E1, Hne. apply IH.
    + by rewrite IH.
  - by rewrite IH.
Qed.

Section Flag.
Variable G : Global.
Variable H : Host.

Ltac keeps_into i :=
  repeat first
    [ simple apply (preserves_bind (same_into i) (same_into_trans i));
      [|intros ?]
    | simple apply (preserves_ret (same_into i) (same_into_refl i))
    | simple apply (preserves_raise (same_into i) (same_into_refl i))
    | simple apply (preserves_get (same_into i) (same_into_refl i))
    | simple apply (preserves_lift_opt (same_into i) (same_into_refl i))
    | simple apply (preserves_modify (same_into i)); intros ?; reflexivity ].

Lemma assign_default_same_into i node name v :
  preserves (same_into i) (Node.assign_default H node name v).
Proof.
  unfold Node.assign_default. keeps_into i.
  destruct (set_default_value H _ v); keeps_into i.
Qed.

Lemma except_TypeError_same_into {A} i (m h : M NodeTree A) :
  preserves (same_into i) m → preserves (same_into i) h →
  preserves (same_into i) (Node.except_TypeError m h).
Proof.
  intros Hm Hh t. unfold Node.except_TypeError. specialize (Hm t).
  destruct (m t) as [t' [[]|a]]; try done.
  eapply same_into_trans; [exact Hm|apply Hh].
Qed.

Lemma create_node_links_same_into input_name node_group source original_input :
  node_group ≠ source →
  preserves (same_into source)
    (Node.create_node_links H input_name node_group source original_input).
Proof.
  intros Hne. unfold Node.create_node_links.
  apply (preserves_bind _ (same_into_trans source)); [keeps_into source|].
  intros t.
  destruct (links_into source (s_name original_input) t).
  - apply (preserves_bind _ (same_into_trans source)); [|keeps_into source].
    apply except_TypeError_same_into; keeps_into source.
    + apply assign_default_same_into.
    + destruct (Node.is_float _).
      * destruct a; keeps_into source. apply assign_default_same_into.
      * destruct (Node.py_float H a); keeps_into source.
        apply assign_default_same_into.
  - keeps_into source. apply preserves_modify. intros t'.
    by apply links_new_same_into.
Qed.

(** [create_node_links] returns whether the input has a link. *)
Lemma create_node_links_found input_name node_group source original_input
  t t' b :
  Node.create_node_links H input_name node_group source original_input t
  = (t', inr b) →
  b = linked source t (s_name original_input).
Proof.
  unfold Node.create_node_links, bind at 1, get, linked. cbv beta iota.
  destruct (links_into source (s_name original_input) t) as [|l ls] eqn:El.
  - unfold bind at 1.
    destruct (Node.except_TypeError _ _ t) as [t1 [e|[]]]; [done|].
    unfold ret. by intros [= <- <-].
  - unfold bind, lift_opt, ret, raise, modify.
    repeat match goal with
           | |- context [match ?o with Some _ => _ | None => _ end] =>
               destruct o; simpl
           end; congruence.
Qed.

(** Whether the links [links] into a node hold one for the socket. *)
Definition holds_link (links : list Link) (sock : string) : bool :=
  negb (Nat.eqb
          (length (List.filter (λ l, String.eqb (l_to_socket l) sock) links)) 0).

Lemma linked_holds_link i t sock :
  linked i t sock = holds_link (into_node i t) sock.
Proof. unfold linked, holds_link. by rewrite links_into_into_node. Qed.

(** What the loop over the inputs of a BSDF node leaves in [node_found]:
    the inputs in order, a channel of the recipe sets it to whether the
    input has a link, and once it is set any other input ends the loop. *)
Fixpoint channel_found (name : string) (links : list Link)
  (inputs : list Sock) (node_found : bool) : bool :=
  match inputs with
  | [] => node_found
  | original_input :: rest =>
      if Node.is_channel G name (s_name original_input)
      then channel_found name links rest
             (holds_link links (s_name original_input))
      else if node_found then true
      else channel_found name links rest node_found
  end.

Lemma link_it_run input_name passthrough source original_input mat mat1 r L :
  passthrough ≠ source →
  into_node source <$> node_tree mat = Some L →
  Node.on_tree
    (Node.create_node_links H input_name passthrough source original_input) mat
  = (mat1, r) →
  into_node source <$> node_tree mat1 = Some L
  ∧ (∀ b, r = inr b → b = holds_link L (s_name original_input)).
Proof.
  intros Hne HL. unfold Node.on_tree.
  destruct (node_tree mat) as [t|] eqn:Ht; [|done].
  pose proof (create_node_links_same_into input_name passthrough source
                original_input Hne t) as Hsame.
  destruct (Node.create_node_links H input_name passthrough source
              original_input t) as [t' r'] eqn:Hrun.
  intros [= <- <-]. simpl in *. injection HL as <-. split.
  - by rewrite Hsame.
  - intros b ->. rewrite <- linked_holds_link.
    by eapply create_node_links_found.
Qed.

Lemma clip_if_masked_same_into i source original_input :
  preserves (same_material_into i)
    (Node.clip_if_masked source original_input).
Proof.
  unfold Node.clip_if_masked.
  apply (preserves_bind _ (same_material_into_trans i)).
  { apply on_tree_same_into, preserves_get, same_into_refl. }
  intros t. apply (preserves_bind _ (same_material_into_trans i)).
  { apply preserves_get, same_material_into_refl. }
  intros m.
  match goal with |- context [if ?c then _ else _] => destruct c end.
  - by apply preserves_modify.
  - apply preserves_ret, same_material_into_refl.
Qed.

Lemma clip_if_textured_same_into i props source original_input :
  preserves (same_material_into i)
    (Node.clip_if_textured props source original_input).
Proof.
  unfold Node.clip_if_textured.
  destruct (String.eqb _ _);
    [|apply preserves_ret, same_material_into_refl].
  apply (preserves_bind _ (same_material_into_trans i)).
  { apply preserves_lift_opt, same_material_into_refl. }
  intros maps. apply (preserves_bind _ (same_material_into_trans i)).
  { apply preserves_lift_opt, same_material_into_refl. }
  intros normals. destruct (use_texture normals).
  - apply clip_if_masked_same_into.
  - apply preserves_ret, same_material_into_refl.
Qed.

Lemma bridge_found props name passthrough source inputs L :
  passthrough ≠ source →
  ∀ node_found mat mat' b,
    into_node source <$> node_tree mat = Some L →
    Node.bridge G H props name passthrough source inputs node_found mat
    = (mat', inr b) →
    into_node source <$> node_tree mat' = Some L
    ∧ b = channel_found name L inputs node_found.
Proof.
  intros Hne.
  induction inputs as [|original_input rest IH];
    intros node_found mat mat' b HL.
  - simpl. unfold ret. by intros [= <- <-].
  - simpl. unfold Node.is_channel.
    assert (∀ (extra : M Material unit) mat' b,
              preserves (same_material_into source) extra →
              (let* node_found :=
                 Node.on_tree
                   (Node.create_node_links H (s_name original_input)
                      passthrough source original_input) in
               extra >>
               Node.bridge G H props name passthrough source rest node_found)
                mat = (mat', inr b) →
              into_node source <$> node_tree mat' = Some L
              ∧ b = channel_found name L rest
                      (holds_link L (s_name original_input))) as Hstep.
    { intros extra mat2 b2 Hextra. unfold bind at 1.
      destruct (Node.on_tree _ mat) as [mat1 r] eqn:Hlink.
      destruct (link_it_run _ _ _ _ _ _ _ _ Hne HL Hlink) as [HL1 Hr].
      destruct r as [e|nf]; [done|]. rewrite (Hr nf eq_refl).
      unfold bind at 1. specialize (Hextra mat1).
      destruct (extra mat1) as [mat1' [e|[]]]; [done|].
      simpl in Hextra. unfold same_material_into in Hextra.
      apply IH. by rewrite Hextra. }
    assert (∀ mat' b,
              (let* node_found :=
                 Node.on_tree
                   (Node.create_node_links H (s_name original_input)
                      passthrough source original_input) in
               Node.bridge G H props name passthrough source rest node_found)
                mat = (mat', inr b) →
              into_node source <$> node_tree mat' = Some L
              ∧ b = channel_found name L rest
                      (holds_link L (s_name original_input))) as Hplain.
    { intros mat2 b2 Hrun.
      apply (Hstep (ret tt) mat2 b2).
      - apply preserves_ret, same_material_into_refl.
      - revert Hrun. unfold bind, ret.
        destruct (Node.on_tree _ mat) as [mat1 [e|nf]]; done. }
    repeat match goal with
           | |- context [if ?c && ?c' then _ else _] =>
               destruct (c && c') eqn:?; simpl;
               [first [ apply Hplain
                      | apply Hstep, clip_if_masked_same_into
                      | apply Hstep, clip_if_textured_same_into ]|]
           end.
    destruct node_found.
    + unfold ret. by intros [= <- <-].
    + by apply IH.
Qed.

Lemma on_tree_run {A} (m : M NodeTree A) mat t :
  node_tree mat = Some t →
  Node.on_tree m mat = (set_tree (m t).1 mat, (m t).2).
Proof. intros Ht. unfold Node.on_tree. rewrite Ht. by destruct (m t). Qed.

(** C5, as the code has it.  For a link from a node [source] into an
    output node, [apply_node_to_objects] clears the flag exactly when the
    recipe is one of the shader maps but not the Normal one, the material is
    not the add-on's own, [source] is a BSDF node, and the loop over its
    inputs ends with [node_found] false: no channel of the recipe among the
    inputs, or the channel there but without a link (its value is then copied
    into the passthrough).  Otherwise the flag stays as it was. *)
Theorem splice_link_flag props name material_name passthrough socket_name
  link ok mat mat' b t from_node source :
  node_tree mat = Some t →
  node_by_id (l_from_node link) t = Some from_node →
  nodes_get (n_name from_node) t = Some source →
  n_id source ≠ passthrough →
  Node.splice_link G H props name material_name passthrough socket_name
    link ok mat = (mat', inr b) →
  b = if bool_decide (name ∈ SHADER_MAP_NAMES G)
         && contains "BSDF" (n_type source)
         && negb (channel_found name (into_node (n_id source) t)
                    (n_inputs source) false)
         && negb (String.eqb name (NORMAL_NODE G))
         && negb (String.eqb material_name (GD_MATERIAL_NAME G))
      then false else ok.
Proof.
  intros Ht Hfrom Hsource Hne. unfold Node.splice_link.
  unfold bind at 1. rewrite (on_tree_run _ _ _ Ht). unfold get.
  cbn [fst snd].
  assert (set_tree t mat = mat) as ->.
  { destruct mat. unfold set_tree. simpl in *. by rewrite Ht. }
  unfold bind at 1. rewrite Hfrom. cbn [lift_opt ret].
  unfold bind at 1.
  destruct (node_by_id passthrough t) as [group_node|]; [|done].
  cbn [lift_opt ret]. rewrite Hsource. unfold bind at 1.
  match goal with
  | |- context [(if has_sock socket_name ?ins then ?m1 else ?m2) mat] =>
      assert (∃ mat1 r, (if has_sock socket_name ins then m1 else m2) mat
                        = (mat1, r)
                        ∧ into_node (n_id source) <$> node_tree mat1
                          = Some (into_node (n_id source) t))
        as (mat1 & r & -> & HL)
  end.
  { destruct (has_sock socket_name _).
    - unfold bind, lift_opt, ret. cbv beta iota.
      destruct (has_sock (l_from_socket link) _).
      + rewrite (on_tree_run _ _ _ Ht). unfold modify. cbn [fst snd].
        eexists _, _. split; [reflexivity|]. simpl.
        rewrite links_new_same_into; [done|]. by intros ->.
      + eexists _, _. split; [reflexivity|]. by rewrite Ht.
    - eexists _, _. split; [reflexivity|]. by rewrite Ht. }
  destruct r as [e|[]]; [done|].
  destruct (bool_decide (name ∈ SHADER_MAP_NAMES G)); simpl.
  2: { unfold ret. by intros [= <- <-]. }
  unfold bind at 1. cbn [lift_opt ret].
  destruct (contains "BSDF" (n_type source)); simpl.
  2: { unfold ret. by intros [= <- <-]. }
  unfold bind at 1.
  destruct (Node.bridge G H props name passthrough (n_id source)
              (n_inputs source) false mat1) as [mat2 [e|nf]] eqn:Hbridge;
    [done|].
  destruct (bridge_found props name passthrough (n_id source)
              (n_inputs source) _ (λ E, Hne (eq_sym E)) false mat1 mat2 nf
              HL Hbridge) as [_ <-].
  by destruct (negb nf && _ && _); unfold ret; intros [= <- <-].
Qed.

End Flag.

(** The tree of [principled_material] with the passthrough of the Color
    recipe and its frame, before the links are made. *)
Definition color_passthrough_tree : NodeTree :=
  match groups_get "GD_Base Color" recipes_doc,
        t_nodes (default_tree sample_Host) !! 1%nat with
  | Some g, Some output => with_passthrough g output (default_tree sample_Host)
  | _, _ => default_tree sample_Host
  end.

(** The link from the Principled BSDF into the Surface socket. *)
Definition surface_link : Link :=
  {| l_from_node := 0; l_from_socket := "BSDF";
     l_to_node := 1; l_to_socket := "Surface" |}.

(** The Principled BSDF node of [principled_material]. *)
Definition principled_node : Node :=
  {| n_id := 0; n_name := "Principled BSDF"; n_type := "BSDF_PRINCIPLED";
     n_group := None; n_inputs := principled_inputs sample_Host;
     n_outputs := [ {| s_name := "BSDF"; s_type := "SHADER";
                       s_default := None |} ];
     n_attrs := [] |}.

(** The Color recipe on a Principled BSDF whose Base Color has no link:
    the flag is cleared. *)
Lemma splice_link_flag_witness :
  (Node.splice_link sample_Global sample_Host ∅ "GD_Base Color" "Mat" 2
     "Surface" surface_link true
     (set_tree color_passthrough_tree principled_material)).2 = inr false.
Proof.
  destruct (Node.splice_link sample_Global sample_Host ∅ "GD_Base Color"
              "Mat" 2 "Surface" surface_link true
              (set_tree color_passthrough_tree principled_material))
    as [mat' [e|b]] eqn:Hrun.
  - vm_compute in Hrun. discriminate Hrun.
  - simpl. f_equal.
    rewrite (splice_link_flag sample_Global sample_Host ∅ "GD_Base Color"
               "Mat" 2%nat "Surface" surface_link true
               (set_tree color_passthrough_tree principled_material) mat' b
               color_passthrough_tree principled_node principled_node).
    + vm_compute. reflexivity.
    + reflexivity.
    + vm_compute. reflexivity.
    + vm_compute. reflexivity.
    + vm_compute. discriminate.
    + exact Hrun.
Defined.

(** The claim as the spec has it fails on a material whose Principled BSDF
    has the Base Color socket, without a link: the socket is found, and the
    Color recipe still returns [False]. *)
Lemma unlinked_channel_clears_flag :
  let d := scene [Some "Mat"] {[ "Mat" := principled_material ]} in
  (bsdf ← (materials d !! "Mat" ≫= node_tree) ≫= nodes_get "Principled BSDF";
   Some (has_sock "Base Color" (n_inputs bsdf))) = Some true
  ∧ (Node.apply_node_to_objects sample_Global sample_Host "GD_Base Color"
       ["Cube"] d).2 = inr false.
Proof. vm_compute. split; reflexivity. Qed.

(** * The round trip of splicing and cleaning up *)

(** ** Links, by membership *)

Lemma link_eqb_eq a b : link_eqb a b = true ↔ a = b.
Proof.
  unfold link_eqb. rewrite !andb_true_iff, !Nat.eqb_eq, !String.eqb_eq.
  destruct a, b; simpl. split.
  - intros [[[-> ->] ->] ->]. done.
  - intros [= -> -> -> ->]. done.
Qed.

Lemma into_true i sock l :
  into i sock l = true ↔ l_to_node l = i ∧ l_to_socket l = sock.
Proof. unfold into. by rewrite andb_true_iff, Nat.eqb_eq, String.eqb_eq. Qed.

Lemma elem_of_links_into l i sock t :
  l ∈ links_into i sock t
  ↔ l ∈ t_links t ∧ l_to_node l = i ∧ l_to_socket l = sock.
Proof.
  unfold links_into. rewrite list_elem_of_In, filter_In, <- list_elem_of_In.
  by rewrite into_true.
Qed.

Lemma elem_of_links_new l to_node to_socket from_node from_socket t :
  l ∈ t_links (links_new to_node to_socket from_node from_socket t)
  ↔ (l ∈ t_links t ∧ ¬ (l_to_node l = to_node ∧ l_to_socket l = to_socket))
    ∨ l = {| l_from_node := from_node; l_from_socket := from_socket;
             l_to_node := to_node; l_to_socket := to_socket |}.
Proof.
  unfold links_new. simpl. rewrite elem_of_app, list_elem_of_singleton.
  rewrite list_elem_of_In, filter_In, <- list_elem_of_In.
  rewrite negb_true_iff, <- not_true_iff_false, into_true. done.
Qed.

Lemma elem_of_links_remove l x t :
  l ∈ t_links (links_remove x t) ↔ l ∈ t_links t ∧ l ≠ x.
Proof.
  unfold links_remove. simpl.
  rewrite list_elem_of_In, filter_In, <- list_elem_of_In.
  rewrite negb_true_iff, <- not_true_iff_false, link_eqb_eq.
  intuition congruence.
Qed.

Lemma elem_of_nodes_remove_links l i t :
  l ∈ t_links (nodes_remove i t)
  ↔ l ∈ t_links t ∧ l_from_node l ≠ i ∧ l_to_node l ≠ i.
Proof.
  unfold nodes_remove. simpl.
  rewrite list_elem_of_In, filter_In, <- list_elem_of_In.
  rewrite andb_true_iff, !negb_true_iff, !Nat.eqb_neq. done.
Qed.

(** Removing every link into a socket, as the loop
    [for link in socket.links: links.remove(link)] does. *)
Lemma remove_links_into i sock t :
  ∀ l, l ∈ t_links
         (for_each (links_into i sock t) (λ l, modify (links_remove l)) t).1
       ↔ l ∈ t_links t ∧ ¬ (l_to_node l = i ∧ l_to_socket l = sock).
Proof.
  assert (∀ ls t l,
            l ∈ t_links (for_each ls (λ l, modify (links_remove l)) t).1
            ↔ l ∈ t_links t ∧ l ∉ ls) as Hgen.
  { induction ls as [|x ls IH]; intros t0 l; simpl.
    - rewrite elem_of_nil. tauto.
    - unfold bind, modify. simpl. rewrite IH, elem_of_links_remove.
      rewrite elem_of_cons. tauto. }
  intros l. rewrite Hgen, elem_of_links_into. tauto.
Qed.

Lemma remove_links_into_nodes i sock t :
  t_nodes (for_each (links_into i sock t) (λ l, modify (links_remove l)) t).1
  = t_nodes t
  ∧ (for_each (links_into i sock t) (λ l, modify (links_remove l)) t).2
    = inr tt.
Proof.
  generalize (links_into i sock t). intros ls. revert t.
  induction ls as [|x ls IH]; intros t; simpl; [done|].
  unfold bind, modify. simpl. apply (IH (links_remove x t)).
Qed.

Lemma elem_of_links_out_of l i sock t :
  l ∈ links_out_of i sock t
  ↔ l ∈ t_links t ∧ l_from_node l = i ∧ l_from_socket l = sock.
Proof.
  unfold links_out_of. rewrite list_elem_of_In, filter_In, <- list_elem_of_In.
  by rewrite andb_true_iff, Nat.eqb_eq, String.eqb_eq.
Qed.

(** ** Names with the recipe's prefix *)

Lemma prefix_app p s : String.prefix p (p +:+ s) = true.
Proof.
  induction p as [|c p IH]; simpl; [by destruct s|].
  by destruct (ascii_dec c c).
Qed.

Lemma prefix_refl p : String.prefix p p = true.
Proof.
  induction p as [|c p IH]; simpl; [done|]. by destruct (ascii_dec c c).
Qed.

Lemma first_free_prefix taken base fuel : ∀ n,
  ∃ k, first_free taken base fuel n = base +:+ name_suffix k.
Proof.
  induction fuel as [|fuel IH]; intros n; simpl; [by eexists|].
  destruct (bool_decide _); [apply IH|by eexists].
Qed.

Lemma startswith_unique_name taken base :
  startswith (unique_name taken base) base = true.
Proof.
  unfold startswith, unique_name. destruct (bool_decide _).
  - destruct (first_free_prefix taken base (length taken) 1) as [k ->].
    apply prefix_app.
  - apply prefix_refl.
Qed.

(** ** What splicing keeps of a node *)

(** A node without the values of its input sockets and its attributes. *)
Definition skeleton (n : Node)
  : nat * string * string * list string * list Sock :=
  (n_id n, n_name n, n_type n, s_name <$> n_inputs n, n_outputs n).

Lemma sock_set_default_names name v socks :
  s_name <$> sock_set_default name v socks = s_name <$> socks.
Proof.
  induction socks as [|s socks IH]; [done|]. cbn [sock_set_default].
  destruct (String.eqb (s_name s) name); rewrite !fmap_cons; [done|].
  by rewrite IH.
Qed.

Lemma has_sock_names name socks socks' :
  s_name <$> socks = s_name <$> socks' →
  has_sock name socks = has_sock name socks'.
Proof.
  unfold has_sock, sock_get. revert socks'.
  induction socks as [|s socks IH]; intros [|s' socks']; simpl; try done.
  intros [= Hs Hrest]. rewrite Hs. destruct (String.eqb (s_name s') name); [done|].
  by apply IH.
Qed.

Lemma has_sock_elem name socks :
  has_sock name socks = true ↔ name ∈ s_name <$> socks.
Proof.
  unfold has_sock, sock_get.
  induction socks as [|s socks IH]; simpl.
  - rewrite elem_of_nil. done.
  - rewrite elem_of_cons. destruct (String.eqb (s_name s) name) eqn:E.
    + apply String.eqb_eq in E. intuition.
    + apply String.eqb_neq in E. rewrite IH. intuition congruence.
Qed.

Lemma find_app_l {A} (p : A → bool) l l' x :
  List.find p l = Some x → List.find p (l ++ l') = Some x.
Proof.
  induction l as [|y l IH]; simpl; [done|]. destruct (p y); [done|apply IH].
Qed.

Lemma find_app_r {A} (p : A → bool) l l' :
  List.find p l = None → List.find p (l ++ l') = List.find p l'.
Proof.
  induction l as [|y l IH]; simpl; [done|]. destruct (p y); [done|apply IH].
Qed.

Lemma head_all_same {A} (x : A) l :
  l ≠ [] → Forall (λ y, y = x) l → head l = Some x.
Proof. destruct l as [|y l]; [done|]. intros _ Hall. by inversion Hall; subst. Qed.

Lemma find_by_id_others i (l : list Node) :
  Forall (λ n, n_id n ≠ i) l → List.find (λ n, Nat.eqb (n_id n) i) l = None.
Proof.
  induction 1 as [|x l Hx _ IH]; simpl; [done|].
  apply Nat.eqb_neq in Hx. by rewrite Hx.
Qed.

Lemma set_tree_same mat t1 : node_tree mat = Some t1 → set_tree t1 mat = mat.
Proof. intros Ht1. destruct mat. unfold set_tree. simpl in *. by rewrite Ht1. Qed.

Lemma has_sock_get s socks :
  has_sock s socks = true → ∃ x, sock_get s socks = Some x.
Proof. unfold has_sock. destruct (sock_get s socks); [by eexists|done]. Qed.


Lemma filter_none {A} (f : A → bool) l :
  Forall (λ x, f x = false) l → List.filter f l = [].
Proof. induction 1 as [|x l Hx _ IH]; simpl; [done|]. by rewrite Hx. Qed.

(** ** Splicing and cleaning up again *)

(** The sockets of an output node that [node_cleanup] restores: those of
    [get_material_output_inputs]. *)
Definition saved_names : list string := ["Surface"; "Volume"; "Displacement"].

(** A link whose source the add-on finds: the node with the link's handle,
    looked up again by its name, is a node with that handle and the link's
    output socket; and the link ends in a node of the tree. *)
Definition link_ok (t : NodeTree) (l : Link) : bool :=
  match node_by_id (l_from_node l) t with
  | Some n =>
      match nodes_get (n_name n) t with
      | Some source =>
          Nat.eqb (n_id source) (l_from_node l)
          && has_sock (l_from_socket l) (n_outputs source)
      | None => false
      end
  | None => false
  end
  && bool_decide (l_from_node l ∈ n_id <$> t_nodes t)
  && bool_decide (l_to_node l ∈ n_id <$> t_nodes t).

Section RoundTrip.
Local Set Default Proof Using "All".
Variable G : Global.
Variable H : Host.
Variable name : string.
Variable t : NodeTree.
Variable o : Node.
Variable g : Recipe.

Hypothesis Ho : node_by_id (n_id o) t = Some o.

(** The passthrough and the frame as [splice_output] makes them. *)
Definition P0 : Node :=
  passthrough_node g (Node.location_of o).1 (Node.location_of o).2 t.
Definition F0 : Node :=
  frame_node g (Node.location_of o).1 (Node.location_of o).2 (add_node P0 t).

Local Abbreviation p := (fresh_id t).

Lemma with_passthrough_nodes :
  with_passthrough g o t = add_node F0 (add_node P0 t).
Proof. unfold with_passthrough, F0, P0. by destruct (Node.location_of o). Qed.

(** The nodes are those of [t], the passthrough and the frame; of the
    passthrough only the values of its inputs may have changed. *)
Definition nodes_kept (t' : NodeTree) : Prop :=
  ∃ P', t_nodes t' = t_nodes t ++ [P'; F0] ∧ skeleton P' = skeleton P0.

(** The links the round trip does not depend on: into a socket of the
    passthrough that is not saved. *)
Definition free (l : Link) : Prop :=
  l_to_node l = p ∧ l_to_socket l ∉ saved_names.

(** What bridging a channel keeps. *)
Definition bridged (t1 t2 : NodeTree) : Prop :=
  (nodes_kept t1 → nodes_kept t2)
  ∧ (∀ l, ¬ free l → (l ∈ t_links t2 ↔ l ∈ t_links t1))
  ∧ into_node (n_id o) t2 = into_node (n_id o) t1.

Definition bridged_material (m1 m2 : Material) : Prop :=
  ∀ t1, node_tree m1 = Some t1 →
        ∃ t2, node_tree m2 = Some t2 ∧ bridged t1 t2.

Lemma bridged_refl t1 : bridged t1 t1.
Proof. by split; [|split]. Qed.

Lemma bridged_trans t1 t2 t3 : bridged t1 t2 → bridged t2 t3 → bridged t1 t3.
Proof.
  intros (Hn1 & Hl1 & Hi1) (Hn2 & Hl2 & Hi2). split; [auto|]. split.
  - intros l Hl. by rewrite Hl2, Hl1.
  - congruence.
Qed.

Lemma bridged_material_refl m : bridged_material m m.
Proof. intros t1 Ht1. exists t1. split; [done|apply bridged_refl]. Qed.

Lemma bridged_material_trans m1 m2 m3 :
  bridged_material m1 m2 → bridged_material m2 m3 → bridged_material m1 m3.
Proof.
  intros H12 H23 t1 Ht1. destruct (H12 t1 Ht1) as (t2 & Ht2 & Hb12).
  destruct (H23 t2 Ht2) as (t3 & Ht3 & Hb23). exists t3. split; [done|].
  by eapply bridged_trans.
Qed.

Lemma on_tree_bridged {A} (m : M NodeTree A) :
  preserves bridged m → preserves bridged_material (Node.on_tree m).
Proof.
  intros Hm mat t1 Ht1. unfold Node.on_tree. rewrite Ht1.
  specialize (Hm t1). destruct (m t1) as [t2 r]. simpl in *.
  by exists t2.
Qed.

Lemma output_is_old : n_id o ≠ p.
Proof.
  unfold node_by_id in Ho. apply find_some in Ho as [Hin Hid].
  apply Nat.eqb_eq in Hid.
  pose proof (fresh_id_above t) as Hfresh.
  rewrite Forall_forall in Hfresh. apply list_elem_of_In in Hin.
  intros E. apply (Hfresh o Hin). rewrite <- E. done.
Qed.

Lemma frame_is_not_passthrough : n_id F0 ≠ p.
Proof.
  unfold F0, frame_node. simpl.
  pose proof (fresh_id_above (add_node P0 t)) as Hfresh.
  rewrite Forall_forall in Hfresh.
  intros E. apply (Hfresh P0).
  - unfold add_node. simpl. apply elem_of_app. right. by constructor.
  - rewrite E. done.
Qed.

(** An update of the passthrough that keeps its skeleton. *)
Lemma update_passthrough_bridged (f : Node → Node) :
  (∀ n, skeleton (f n) = skeleton n) →
  ∀ t1, bridged t1 (update_node p f t1).
Proof.
  intros Hf t1. split; [|done].
  intros (P' & Hnodes & Hskel). exists (f P'). split; [|by rewrite Hf].
  unfold update_node. simpl. rewrite Hnodes, fmap_app.
  rewrite update_others; [|apply fresh_id_above]. f_equal.
  assert (n_id P' = p) as Hp.
  { assert (n_id P' = n_id P0) as -> by (by injection Hskel). done. }
  pose proof frame_is_not_passthrough as HF. apply Nat.eqb_neq in HF.
  rewrite !fmap_cons, fmap_nil. cbv beta. by rewrite Hp, Nat.eqb_refl, HF.
Qed.

Ltac keeps_bridged :=
  repeat first
    [ simple apply (preserves_bind bridged bridged_trans); [|intros ?]
    | simple apply (preserves_ret bridged bridged_refl)
    | simple apply (preserves_raise bridged bridged_refl)
    | simple apply (preserves_get bridged bridged_refl)
    | simple apply (preserves_lift_opt bridged bridged_refl) ].

Lemma assign_default_bridged input_name v :
  preserves bridged (Node.assign_default H p input_name v).
Proof.
  unfold Node.assign_default. keeps_bridged.
  destruct (set_default_value H _ v); keeps_bridged.
  apply preserves_modify. apply update_passthrough_bridged.
  intros n. unfold skeleton. simpl. by rewrite sock_set_default_names.
Qed.

Lemma except_TypeError_bridged {A} (m h : M NodeTree A) :
  preserves bridged m → preserves bridged h →
  preserves bridged (Node.except_TypeError m h).
Proof.
  intros Hm Hh t1. unfold Node.except_TypeError. specialize (Hm t1).
  destruct (m t1) as [t' [[]|a]]; try done.
  eapply bridged_trans; [exact Hm|apply Hh].
Qed.

Lemma links_new_bridged input_name from_node from_socket t1 :
  input_name ∉ saved_names →
  bridged t1 (links_new p input_name from_node from_socket t1).
Proof.
  intros Hfree. split; [done|]. split.
  - intros l Hl. rewrite elem_of_links_new. split.
    + intros [[Hin _]| ->]; [done|]. exfalso. apply Hl. by split.
    + intros Hin. left. split; [done|]. intros [Hto Hsock]. apply Hl.
      split; [done|]. by rewrite Hsock.
  - apply links_new_same_into. intros E. by apply output_is_old.
Qed.

Lemma create_node_links_bridged input_name source original_input :
  input_name ∉ saved_names →
  preserves bridged
    (Node.create_node_links H input_name p source original_input).
Proof.
  intros Hfree. unfold Node.create_node_links.
  apply (preserves_bind _ bridged_trans); [keeps_bridged|]. intros t1.
  destruct (links_into source (s_name original_input) t1).
  - apply (preserves_bind _ bridged_trans); [|keeps_bridged].
    apply except_TypeError_bridged; keeps_bridged.
    + apply assign_default_bridged.
    + destruct (Node.is_float _).
      * destruct a; keeps_bridged. apply assign_default_bridged.
      * destruct (Node.py_float H a); keeps_bridged.
        apply assign_default_bridged.
  - keeps_bridged. apply preserves_modify. intros t'.
    by apply links_new_bridged.
Qed.

Lemma clip_if_masked_bridged source original_input :
  preserves bridged_material (Node.clip_if_masked source original_input).
Proof.
  unfold Node.clip_if_masked.
  apply (preserves_bind _ bridged_material_trans).
  { apply on_tree_bridged, preserves_get, bridged_refl. }
  intros t1. apply (preserves_bind _ bridged_material_trans).
  { apply preserves_get, bridged_material_refl. }
  intros m.
  match goal with |- context [if ?c then _ else _] => destruct c end.
  - apply preserves_modify. intros m1 t1' Ht1. exists t1'.
    split; [done|apply bridged_refl].
  - apply preserves_ret, bridged_material_refl.
Qed.

Lemma clip_if_textured_bridged props source original_input :
  preserves bridged_material
    (Node.clip_if_textured props source original_input).
Proof.
  unfold Node.clip_if_textured.
  destruct (String.eqb _ _); [|apply preserves_ret, bridged_material_refl].
  apply (preserves_bind _ bridged_material_trans).
  { apply preserves_lift_opt, bridged_material_refl. }
  intros maps. apply (preserves_bind _ bridged_material_trans).
  { apply preserves_lift_opt, bridged_material_refl. }
  intros normals. destruct (use_texture normals).
  - apply clip_if_masked_bridged.
  - apply preserves_ret, bridged_material_refl.
Qed.

Hypothesis Hchannel :
  Forall (λ s, Node.is_channel G name s = false) saved_names.

Lemma channel_is_free input_name :
  Node.is_channel G name input_name = true → input_name ∉ saved_names.
Proof.
  intros Hc Hin. rewrite Forall_forall in Hchannel.
  rewrite (Hchannel _ Hin) in Hc. done.
Qed.

Lemma bridge_bridged props source inputs :
  ∀ node_found,
    preserves bridged_material
      (Node.bridge G H props name p source inputs node_found).
Proof.
  induction inputs as [|original_input rest IH]; intros node_found.
  - apply preserves_ret, bridged_material_refl.
  - pose proof (channel_is_free (s_name original_input)) as Hfree.
    revert Hfree. simpl. unfold Node.is_channel.
    repeat match goal with
           | |- context [if ?c && ?c' then _ else _] =>
               destruct (c && c') eqn:?; simpl;
               [intros Hfree; specialize (Hfree eq_refl);
                apply (preserves_bind _ bridged_material_trans);
                [by apply on_tree_bridged, create_node_links_bridged|];
                intros ?;
                first [ apply IH
                      | apply (preserves_bind _ bridged_material_trans);
                        [first [apply clip_if_masked_bridged
                               |apply clip_if_textured_bridged]
                        |intros ?; apply IH] ]
               |]
           end.
    intros _. destruct node_found; [|apply IH].
    apply preserves_ret, bridged_material_refl.
Qed.

(** *** Looking nodes up in the spliced tree *)

Lemma kept_node_by_id i n t1 :
  nodes_kept t1 → node_by_id i t = Some n → node_by_id i t1 = Some n.
Proof.
  intros (P' & Hnodes & _) Hn. unfold node_by_id in *. rewrite Hnodes.
  by apply find_app_l.
Qed.

Lemma kept_nodes_get nm n t1 :
  nodes_kept t1 → nodes_get nm t = Some n → nodes_get nm t1 = Some n.
Proof.
  intros (P' & Hnodes & _) Hn. unfold nodes_get in *. rewrite Hnodes.
  by apply find_app_l.
Qed.

Lemma kept_passthrough t1 :
  nodes_kept t1 →
  ∃ P', node_by_id p t1 = Some P' ∧ skeleton P' = skeleton P0
        ∧ t_nodes t1 = t_nodes t ++ [P'; F0].
Proof.
  intros (P' & Hnodes & Hskel). exists P'. split; [|done].
  unfold node_by_id. rewrite Hnodes, find_app_r.
  - simpl. assert (n_id P' = p) as -> by (by injection Hskel).
    by rewrite Nat.eqb_refl.
  - apply find_by_id_others, fresh_id_above.
Qed.

Hypothesis Hlinks : ∀ l, l ∈ t_links t → link_ok t l = true.

Lemma link_source l :
  l ∈ t_links t →
  ∃ n source,
    node_by_id (l_from_node l) t = Some n
    ∧ nodes_get (n_name n) t = Some source
    ∧ n_id source = l_from_node l
    ∧ has_sock (l_from_socket l) (n_outputs source) = true
    ∧ l_from_node l ≠ p ∧ l_to_node l ≠ p.
Proof.
  intros Hl. specialize (Hlinks l Hl). unfold link_ok in Hlinks.
  apply andb_true_iff in Hlinks as [Hlinks Hto].
  apply andb_true_iff in Hlinks as [Hlinks Hfrom].
  apply bool_decide_eq_true in Hto, Hfrom.
  destruct (node_by_id (l_from_node l) t) as [n|] eqn:Hn; [|done].
  destruct (nodes_get (n_name n) t) as [source|] eqn:Hsource; [|done].
  apply andb_true_iff in Hlinks as [Hid Hsock]. apply Nat.eqb_eq in Hid.
  assert (∀ i, i ∈ n_id <$> t_nodes t → i ≠ p) as Hold.
  { intros i Hi. apply list_elem_of_fmap in Hi as (x & Ex & Hx).
    pose proof (fresh_id_above t) as Hfresh. rewrite Forall_forall in Hfresh.
    rewrite Ex. by apply Hfresh. }
  exists n, source. split; [done|]. split; [done|]. split; [done|].
  split; [done|]. split; by apply Hold.
Qed.

Hypothesis Hg_in :
  Forall (λ s, has_sock s (group_sockets "INPUT" g) = true) saved_names.

Lemma passthrough_has_saved P' s :
  skeleton P' = skeleton P0 → s ∈ saved_names → has_sock s (n_inputs P') = true.
Proof.
  intros Hskel Hs. rewrite Forall_forall in Hg_in.
  rewrite <- (Hg_in s Hs). apply has_sock_names. by injection Hskel.
Qed.

(** The link that saves [l] on the passthrough. *)
Definition saved_link (l : Link) : Link :=
  {| l_from_node := l_from_node l; l_from_socket := l_from_socket l;
     l_to_node := p; l_to_socket := l_to_socket l |}.

(** What splicing a link into a saved socket leaves. *)
Definition stored (link : Link) (t1 t2 : NodeTree) : Prop :=
  (nodes_kept t1 → nodes_kept t2)
  ∧ into_node (n_id o) t2 = into_node (n_id o) t1
  ∧ ∀ l, ¬ free l →
         (l ∈ t_links t2
          ↔ (l ∈ t_links t1
             ∧ ¬ (l_to_node l = p ∧ l_to_socket l = l_to_socket link))
            ∨ l = saved_link link).

Lemma stored_bridged link t1 t2 t3 :
  stored link t1 t2 → bridged t2 t3 → stored link t1 t3.
Proof.
  intros (Hn1 & Hi1 & Hl1) (Hn2 & Hl2 & Hi2). split; [auto|].
  split; [congruence|]. intros l Hl. by rewrite Hl2, Hl1.
Qed.

(** The part of [splice_link] after the original connection is stored. *)
Lemma splice_link_tail_bridged props material_name source_node ok :
  preserves bridged_material
    (if negb (bool_decide (name ∈ SHADER_MAP_NAMES G)) then ret ok
     else
       let* source := lift_opt AttributeError source_node in
       if negb (contains "BSDF" (n_type source)) then ret ok
       else
         let* node_found :=
           Node.bridge G H props name p (n_id source) (n_inputs source)
             false in
         if negb node_found
            && negb (String.eqb name (NORMAL_NODE G))
            && negb (String.eqb material_name (GD_MATERIAL_NAME G))
         then ret false
         else ret ok).
Proof.
  destruct (negb (bool_decide _));
    [apply preserves_ret, bridged_material_refl|].
  apply (preserves_bind _ bridged_material_trans).
  { apply preserves_lift_opt, bridged_material_refl. }
  intros source. destruct (negb (contains _ _));
    [apply preserves_ret, bridged_material_refl|].
  apply (preserves_bind _ bridged_material_trans); [apply bridge_bridged|].
  intros nf. destruct (_ && _ && _);
    apply preserves_ret, bridged_material_refl.
Qed.

Lemma splice_link_stored props material_name link ok mat t1 :
  link ∈ t_links t →
  l_to_socket link ∈ saved_names →
  node_tree mat = Some t1 →
  nodes_kept t1 →
  ∃ t2,
    node_tree (Node.splice_link G H props name material_name p
                 (l_to_socket link) link ok mat).1 = Some t2
    ∧ stored link t1 t2.
Proof.
  intros Hlink Hs Ht1 Hkept.
  destruct (link_source link Hlink)
    as (n & source & Hn & Hsource & Hid & Hsock & Hfrom & Hto).
  destruct (kept_passthrough t1 Hkept) as (P' & HP & Hskel & _).
  unfold Node.splice_link.
  unfold bind at 1. rewrite (on_tree_run _ _ _ Ht1). unfold get.
  cbn [fst snd].
  assert (set_tree t1 mat = mat) as ->.
  { destruct mat. unfold set_tree. simpl in *. by rewrite Ht1. }
  unfold bind at 1. rewrite (kept_node_by_id _ _ _ Hkept Hn).
  cbn [lift_opt ret]. unfold bind at 1. rewrite HP. cbn [lift_opt ret].
  rewrite (kept_nodes_get _ _ _ Hkept Hsource).
  rewrite (passthrough_has_saved _ _ Hskel Hs).
  unfold bind at 1. unfold bind at 1. cbn [lift_opt ret]. rewrite Hsock.
  rewrite (on_tree_run _ _ _ Ht1). unfold modify. cbn [fst snd].
  set (t1' := links_new p (l_to_socket link) (n_id source)
                (l_from_socket link) t1).
  pose proof (splice_link_tail_bridged props material_name (Some source) ok
                (set_tree t1' mat) t1' eq_refl) as (t2 & Ht2 & Hb).
  exists t2. split; [exact Ht2|].
  eapply stored_bridged; [|exact Hb].
  split; [done|]. split.
  - apply links_new_same_into. intros E. by apply output_is_old.
  - intros l Hl. unfold t1'. rewrite elem_of_links_new, Hid. done.
Qed.

Lemma splice_link_bridged props material_name socket_name link ok :
  socket_name ∉ saved_names →
  preserves bridged_material
    (Node.splice_link G H props name material_name p socket_name link ok).
Proof.
  intros Hfree. unfold Node.splice_link.
  apply (preserves_bind _ bridged_material_trans).
  { apply on_tree_bridged, preserves_get, bridged_refl. }
  intros t1. apply (preserves_bind _ bridged_material_trans).
  { apply preserves_lift_opt, bridged_material_refl. }
  intros from_node. apply (preserves_bind _ bridged_material_trans).
  { apply preserves_lift_opt, bridged_material_refl. }
  intros group_node. apply (preserves_bind _ bridged_material_trans).
  - destruct (has_sock socket_name _);
      [|apply preserves_ret, bridged_material_refl].
    apply (preserves_bind _ bridged_material_trans).
    { apply preserves_lift_opt, bridged_material_refl. }
    intros source. destruct (has_sock _ _);
      [|apply preserves_ret, bridged_material_refl].
    apply on_tree_bridged, preserves_modify. intros t'.
    by apply links_new_bridged.
  - intros _. apply splice_link_tail_bridged.
Qed.

(** *** The links after the loop over the output's sockets *)

(** The links of the tree while the sockets [done] of the output node have
    been visited: those of [t], and for each of them into a saved socket,
    the link that saves it. *)
Definition spliced_link (done : list string) (l : Link) : Prop :=
  l ∈ t_links t
  ∨ ∃ l0, l0 ∈ t_links t ∧ l_to_node l0 = n_id o
          ∧ l_to_socket l0 ∈ done ∧ l_to_socket l0 ∈ saved_names
          ∧ l = saved_link l0.

Definition visited (done : list string) (t1 : NodeTree) : Prop :=
  nodes_kept t1
  ∧ into_node (n_id o) t1 = into_node (n_id o) t
  ∧ ∀ l, ¬ free l → (l ∈ t_links t1 ↔ spliced_link done l).

Lemma visited_bridged done t1 t2 :
  visited done t1 → bridged t1 t2 → visited done t2.
Proof.
  intros (Hn & Hi & Hl) (Hn' & Hl' & Hi'). split; [auto|].
  split; [congruence|]. intros l Hfree. by rewrite Hl', Hl.
Qed.

Lemma visited_skip done s t1 :
  visited done t1 →
  s ∉ saved_names ∨ links_into (n_id o) s t = [] →
  visited (done ++ [s]) t1.
Proof.
  intros (Hn & Hi & Hl) Hs. split; [done|]. split; [done|].
  intros l Hfree. rewrite (Hl l Hfree). unfold spliced_link.
  split; (intros [Hin|(l0 & Hin & Hto & Hdone & Hsaved & ->)]; [by left|]).
  - right. exists l0. repeat split; try done. apply elem_of_app. by left.
  - apply elem_of_app in Hdone as [Hdone|Hdone].
    + right. exists l0. by repeat split.
    + apply list_elem_of_singleton in Hdone. exfalso.
      destruct Hs as [Hs|Hs]; [by rewrite Hdone in Hsaved|].
      assert (l0 ∈ links_into (n_id o) s t) as Hl0.
      { by apply elem_of_links_into. }
      rewrite Hs in Hl0. by apply elem_of_nil in Hl0.
Qed.

Lemma visited_stored done link t1 t2 :
  visited done t1 →
  stored link t1 t2 →
  l_to_socket link ∈ saved_names →
  links_into (n_id o) (l_to_socket link) t = [link] →
  visited (done ++ [l_to_socket link]) t2.
Proof.
  intros (Hn & Hi & Hl) (Hn' & Hi' & Hl') Hsaved Hone.
  assert (link ∈ t_links t ∧ l_to_node link = n_id o) as [Hlink Hto].
  { assert (link ∈ links_into (n_id o) (l_to_socket link) t) as Hin.
    { rewrite Hone. by constructor. }
    apply elem_of_links_into in Hin. tauto. }
  split; [auto|]. split; [congruence|].
  intros l Hfree. rewrite (Hl' l Hfree), (Hl l Hfree). unfold spliced_link.
  split.
  - intros [[[Hin|(l0 & Hin & Hto0 & Hdone & Hs0 & ->)] _]| ->].
    + by left.
    + right. exists l0. repeat split; try done. apply elem_of_app. by left.
    + right. exists link. repeat split; try done.
      apply elem_of_app. right. by constructor.
  - intros [Hin|(l0 & Hin & Hto0 & Hdone & Hs0 & ->)].
    + left. split; [by left|]. intros [Hp _].
      by destruct (link_source l Hin) as (_ & _ & _ & _ & _ & _ & _ & Hne).
    + apply elem_of_app in Hdone as [Hdone|Hdone].
      * destruct (decide (l_to_socket l0 = l_to_socket link)) as [E|E].
        -- right. f_equal.
           assert (l0 ∈ links_into (n_id o) (l_to_socket link) t) as Hl0.
           { by apply elem_of_links_into. }
           rewrite Hone in Hl0. by apply list_elem_of_singleton in Hl0.
        -- left. split.
           ++ right. exists l0. by repeat split.
           ++ simpl. intros [_ E']. done.
      * apply list_elem_of_singleton in Hdone. right. f_equal.
        assert (l0 ∈ links_into (n_id o) (l_to_socket link) t) as Hl0.
        { by apply elem_of_links_into. }
        rewrite Hone in Hl0. by apply list_elem_of_singleton in Hl0.
Qed.

(** *** The loop over the sockets of the output node *)

Hypothesis Hsingle :
  Forall (λ s, length (links_into (n_id o) s t) ≤ 1) saved_names.

Lemma one_link s :
  s ∈ saved_names →
  links_into (n_id o) s t = [] ∨ ∃ link, links_into (n_id o) s t = [link].
Proof.
  intros Hs. rewrite Forall_forall in Hsingle. specialize (Hsingle s Hs).
  destruct (links_into (n_id o) s t) as [|link [|link' ls]]; simpl in *.
  - by left.
  - right. by exists link.
  - lia.
Qed.

(** The body of the loop over the output's sockets. *)
Definition splice_socket (props : gmap string (list BakeMap))
  (material_name : string) (s : string) (ok : bool) : M Material bool :=
  let* t1 := Node.on_tree get in
  Node.for_fold (links_into (n_id o) s t1) ok
    (Node.splice_link G H props name material_name p s).

Lemma splice_socket_visited props material_name done s ok mat t1 :
  node_tree mat = Some t1 →
  visited done t1 →
  ∃ t2, node_tree (splice_socket props material_name s ok mat).1 = Some t2
        ∧ visited (done ++ [s]) t2.
Proof.
  intros Ht1 Hv. unfold splice_socket, bind at 1.
  rewrite (on_tree_run _ _ _ Ht1). unfold get. cbn [fst snd].
  rewrite (set_tree_same _ _ Ht1).
  assert (links_into (n_id o) s t1 = links_into (n_id o) s t) as ->.
  { rewrite !links_into_into_node. destruct Hv as (_ & -> & _). done. }
  destruct (decide (s ∈ saved_names)) as [Hs|Hs].
  - destruct (one_link s Hs) as [Hnone|[link Hone]].
    + rewrite Hnone. simpl. exists t1. split; [done|].
      apply visited_skip; [done|by right].
    + rewrite Hone. cbn [Node.for_fold].
      assert (link ∈ t_links t ∧ l_to_socket link = s) as [Hlink Hsock].
      { assert (link ∈ links_into (n_id o) s t) as Hin
          by (rewrite Hone; by constructor).
        apply elem_of_links_into in Hin. tauto. }
      subst s.
      destruct Hv as (Hkept & Hv').
      destruct (splice_link_stored props material_name link ok mat t1
                  Hlink Hs Ht1 Hkept) as (t2 & Ht2 & Hstored).
      exists t2. split.
      * unfold bind.
        destruct (Node.splice_link _ _ _ _ _ _ _ _ _ _) as [mat2 [e|b]];
          exact Ht2.
      * by apply (visited_stored done link t1 t2).
  - pose proof (preserves_for_fold bridged_material bridged_material_refl
                  bridged_material_trans (links_into (n_id o) s t)
                  (Node.splice_link G H props name material_name p s)
                  (λ a b, splice_link_bridged props material_name s a b Hs)
                  ok mat t1 Ht1) as (t2 & Ht2 & Hb).
    exists t2. split; [done|].
    apply visited_skip; [|by left]. by eapply visited_bridged.
Qed.

Lemma splice_links_visited props material_name socks :
  ∀ done ok mat t1 mat' b,
    node_tree mat = Some t1 →
    visited done t1 →
    Node.for_fold socks ok
      (λ omi ok, splice_socket props material_name (s_name omi) ok) mat
    = (mat', inr b) →
    ∃ t2, node_tree mat' = Some t2
          ∧ visited (done ++ (s_name <$> socks)) t2.
Proof.
  induction socks as [|omi socks IH]; intros done ok mat t1 mat' b Ht1 Hv.
  - simpl. intros [= <- _]. exists t1. by rewrite app_nil_r.
  - cbn [Node.for_fold]. unfold bind at 1.
    destruct (splice_socket_visited props material_name done (s_name omi)
                ok mat t1 Ht1 Hv) as (t2 & Ht2 & Hv2).
    destruct (splice_socket _ _ _ _ _) as [mat2 [e|ok2]]; [done|].
    intros Hrun. simpl in Ht2.
    destruct (IH _ _ _ _ _ _ Ht2 Hv2 Hrun) as (t3 & Ht3 & Hv3).
    exists t3. split; [done|].
    rewrite fmap_cons. by rewrite <- (assoc_L (++)) in Hv3.
Qed.

(** The tree with the two new nodes, before the loop. *)
Lemma visited_nil : visited [] (with_passthrough g o t).
Proof.
  rewrite with_passthrough_nodes. split; [|split].
  - exists P0. split; [|done]. unfold add_node. simpl.
    by rewrite <- (assoc_L (++)).
  - done.
  - intros l _. unfold add_node, spliced_link. simpl. split; [by left|].
    intros [Hin|(l0 & _ & _ & Hdone & _)]; [done|].
    by apply elem_of_nil in Hdone.
Qed.

(** *** The connection through the passthrough *)

Hypothesis Ho_socks :
  Forall (λ s, has_sock s (n_inputs o) = true) saved_names.
Hypothesis Hg_out : has_sock "Shader" (group_sockets "OUTPUT" g) = true.

Lemma output_has s : s ∈ saved_names → ∃ x, sock_get s (n_inputs o) = Some x.
Proof.
  intros Hs. pose proof Ho_socks as Hall. rewrite Forall_forall in Hall.
  by apply has_sock_get, Hall.
Qed.

(** The end of [splice_output]: the links into the output node go, and the
    passthrough feeds its surface. *)
Definition relink : M NodeTree unit :=
  lift_opt KeyError (sock_get "Volume" (n_inputs o)) >>
  let* t1 := get in
  for_each (links_into (n_id o) "Volume" t1) (λ l, modify (links_remove l)) >>
  lift_opt KeyError (sock_get "Displacement" (n_inputs o)) >>
  let* t1 := get in
  for_each (links_into (n_id o) "Displacement" t1)
    (λ l, modify (links_remove l)) >>
  lift_opt KeyError (sock_get "Surface" (n_inputs o)) >>
  let* t1 := get in
  let* group_node := lift_opt KeyError (node_by_id p t1) in
  lift_opt KeyError (sock_get "Shader" (n_outputs group_node)) >>
  modify (links_new (n_id o) "Surface" p "Shader").

(** The link from the passthrough to the output node. *)
Definition main_link : Link :=
  {| l_from_node := p; l_from_socket := "Shader";
     l_to_node := n_id o; l_to_socket := "Surface" |}.

Definition relinked (done : list string) (t3 : NodeTree) : Prop :=
  nodes_kept t3
  ∧ ∀ l, ¬ free l →
         (l ∈ t_links t3
          ↔ (spliced_link done l
             ∧ ¬ (l_to_node l = n_id o ∧ l_to_socket l ∈ saved_names))
            ∨ l = main_link).

Lemma remove_into_run s t1 :
  ∃ t2,
    for_each (links_into (n_id o) s t1) (λ l, modify (links_remove l)) t1
    = (t2, inr tt)
    ∧ t_nodes t2 = t_nodes t1
    ∧ ∀ l, l ∈ t_links t2
           ↔ l ∈ t_links t1 ∧ ¬ (l_to_node l = n_id o ∧ l_to_socket l = s).
Proof.
  pose proof (remove_links_into_nodes (n_id o) s t1) as [Hn Hr].
  pose proof (remove_links_into (n_id o) s t1) as Hl.
  destruct (for_each _ _ t1) as [t2 r]. simpl in *. subst r.
  by exists t2.
Qed.

Lemma relink_run done t2 :
  visited done t2 → ∃ t3, relink t2 = (t3, inr tt) ∧ relinked done t3.
Proof.
  intros (Hkept & _ & Hl). unfold relink.
  destruct (output_has "Volume") as [x1 E1];
    [apply list_elem_of_In; simpl; tauto|].
  destruct (output_has "Displacement") as [x2 E2];
    [apply list_elem_of_In; simpl; tauto|].
  destruct (output_has "Surface") as [x3 E3];
    [apply list_elem_of_In; simpl; tauto|].
  rewrite E1, E2, E3. cbn [lift_opt].
  unfold bind at 1, ret at 1. unfold bind at 1, get at 1.
  destruct (remove_into_run "Volume" t2) as (tA & EA & HnA & HlA).
  rewrite (bind_run _ _ _ _ _ EA).
  unfold bind at 1, ret at 1. unfold bind at 1, get at 1.
  destruct (remove_into_run "Displacement" tA) as (tB & EB & HnB & HlB).
  rewrite (bind_run _ _ _ _ _ EB).
  unfold bind at 1, ret at 1. unfold bind at 1, get at 1.
  assert (nodes_kept tB) as HkeptB.
  { destruct Hkept as (P' & Hnodes & Hskel). exists P'.
    by rewrite HnB, HnA. }
  destruct (kept_passthrough tB HkeptB) as (P' & HP & Hskel & _).
  rewrite HP. cbn [lift_opt]. unfold bind at 1, ret at 1.
  assert (has_sock "Shader" (n_outputs P') = true) as Hshader.
  { assert (n_outputs P' = n_outputs P0) as -> by (by injection Hskel).
    exact Hg_out. }
  destruct (has_sock_get _ _ Hshader) as [x4 E4]. rewrite E4.
  cbn [lift_opt]. unfold bind at 1, ret at 1. unfold modify.
  eexists. split; [reflexivity|]. split; [exact HkeptB|].
  intros l Hfree. rewrite elem_of_links_new, HlB, HlA, (Hl l Hfree).
  unfold saved_names. rewrite !elem_of_cons, elem_of_nil.
  fold main_link. tauto.
Qed.

(** *** Taking the passthrough out again *)

Hypothesis Ho_type : n_type o = "OUTPUT_MATERIAL".
Hypothesis Hnames :
  Forall (λ n, startswith (n_name n) name = false) (t_nodes t).
Hypothesis Hgname : r_name g = name.

Lemma name_is_free : name ∉ node_names t.
Proof.
  intros Hin. apply list_elem_of_fmap in Hin as (n & -> & Hn).
  pose proof Hnames as Hall. rewrite Forall_forall in Hall.
  specialize (Hall n Hn). unfold startswith in Hall.
  by rewrite prefix_refl in Hall.
Qed.

Lemma passthrough_name P' : skeleton P' = skeleton P0 → n_name P' = name.
Proof.
  intros Hskel. assert (n_name P' = n_name P0) as -> by (by injection Hskel).
  unfold P0, passthrough_node. simpl. rewrite Hgname.
  unfold unique_name. by rewrite bool_decide_eq_false_2; [|apply name_is_free].
Qed.

Lemma frame_name : startswith (n_name F0) name = true.
Proof.
  unfold F0, frame_node. simpl. rewrite Hgname. apply startswith_unique_name.
Qed.

Lemma old_is_not_frame i : i ∈ n_id <$> t_nodes t → i ≠ n_id F0.
Proof.
  intros Hi. apply list_elem_of_fmap in Hi as (x & -> & Hx).
  pose proof (fresh_id_above (add_node P0 t)) as Hfresh.
  rewrite Forall_forall in Hfresh. apply Hfresh.
  unfold add_node. simpl. apply elem_of_app. by left.
Qed.

Lemma main_link_not_free : ¬ free main_link.
Proof. intros [Hto _]. simpl in Hto. by apply output_is_old. Qed.

(** A link of the relinked tree that leaves the passthrough for another
    node is the one into the output node. *)
Lemma from_passthrough done t3 l :
  relinked done t3 →
  l ∈ t_links t3 → l_from_node l = p → l_to_node l ≠ p → l = main_link.
Proof.
  intros (_ & Hl) Hin Hfrom Hto.
  apply Hl in Hin; [|by intros [? _]].
  destruct Hin as [[[Hin|(l0 & Hin & _ & _ & _ & ->)] _]|Hmain]; [| |done].
  - by destruct (link_source l Hin) as (_ & _ & _ & _ & _ & _ & Hne & _).
  - simpl in Hto. done.
Qed.

Lemma find_output_passthrough done t3 P' :
  relinked done t3 →
  node_by_id p t3 = Some P' →
  skeleton P' = skeleton P0 →
  Node.find_output_node P' t3 = Some o.
Proof.
  intros Hre HP Hskel. unfold Node.find_output_node.
  assert (n_id P' = p) as Hid by (by injection Hskel).
  assert (n_type P' = "GROUP") as Hty by (by injection Hskel).
  assert (n_outputs P' = group_sockets "OUTPUT" g) as Houts
    by (by injection Hskel).
  assert (node_by_id (n_id o) t3 = Some o) as Ho3.
  { destruct Hre as (Hkept & _). by apply (kept_node_by_id _ _ _ Hkept). }
  rewrite Hid.
  set (f := λ l : Link,
         match node_by_id (l_to_node l) t3 with
         | Some n => if String.eqb (n_type n) "OUTPUT_MATERIAL"
                     then Some n else None
         | None => None
         end).
  apply head_all_same.
  - assert (o ∈ omap f (mjoin ((λ s, links_out_of p (s_name s) t3)
                                <$> n_outputs P'))) as Hin.
    { apply list_elem_of_omap. exists main_link. split.
      - apply list_elem_of_join. exists (links_out_of p "Shader" t3). split.
        + apply elem_of_links_out_of. split; [|done].
          destruct Hre as (_ & Hl). apply Hl; [apply main_link_not_free|].
          by right.
        + rewrite Houts. apply list_elem_of_fmap.
          pose proof Hg_out as Hout. apply has_sock_get in Hout as [x Hx].
          unfold sock_get in Hx. apply find_some in Hx as [Hx Hname].
          apply String.eqb_eq in Hname. exists x.
          rewrite Hname. split; [done|]. by apply list_elem_of_In.
      - unfold f. simpl. rewrite Ho3, Ho_type. done. }
    intros E. rewrite E in Hin. by apply elem_of_nil in Hin.
  - apply Forall_forall. intros y Hy.
    apply list_elem_of_omap in Hy as (l & Hl & Hf).
    apply list_elem_of_join in Hl as (ls & Hl & Hls).
    apply list_elem_of_fmap in Hls as (s & -> & _).
    apply elem_of_links_out_of in Hl as (Hin & Hfrom & _).
    unfold f in Hf.
    destruct (decide (l_to_node l = p)) as [Hto|Hto].
    + rewrite Hto, HP, Hty in Hf. done.
    + rewrite (from_passthrough done t3 l Hre Hin Hfrom Hto) in Hf.
      simpl in Hf. rewrite Ho3, Ho_type in Hf. simpl in Hf. congruence.
Qed.

(** *** The links that come back *)

Variable inputs : list (string * string).
Hypothesis Hinputs : inputs.*1 = saved_names.
Hypothesis Hg_extra :
  Forall (λ s, s ∈ saved_names ∨ last_word s ∉ saved_names)
    (s_name <$> group_sockets "INPUT" g).

(** The links between the nodes other than the passthrough while the inputs
    [done] of the passthrough have been visited: those of [t], but those
    into a saved socket of the output node only once that socket has been
    visited; and the link from the passthrough until the surface has been
    restored. *)
Definition restored (done : list string) (l : Link) : Prop :=
  (l ∈ t_links t
   ∧ (l_to_node l = n_id o → l_to_socket l ∈ saved_names →
      l_to_socket l ∈ done))
  ∨ (l = main_link
     ∧ ¬ ("Surface" ∈ done ∧ links_into (n_id o) "Surface" t ≠ [])).

Definition restoring (t3 : NodeTree) (done : list string) (tc : NodeTree)
  : Prop :=
  t_nodes tc = t_nodes t3
  ∧ into_node p tc = into_node p t3
  ∧ ∀ l, l_to_node l ≠ p → (l ∈ t_links tc ↔ restored done l).

Lemma restoring_nil done t3 : relinked done t3 → restoring t3 [] t3.
Proof.
  intros (_ & Hl). split; [done|]. split; [done|].
  intros l Hto. rewrite Hl; [|by intros [? _]]. unfold restored, spliced_link.
  split.
  - intros [[[Hin|(l0 & _ & _ & _ & _ & ->)] Hno]|Hmain].
    + left. split; [done|]. intros Ho' Hs. exfalso. by apply Hno.
    + done.
    + right. split; [done|]. intros [Hin _]. by apply elem_of_nil in Hin.
  - intros [[Hin Hcond]|[Hmain _]]; [|by right].
    left. split; [by left|]. intros [Ho' Hs].
    specialize (Hcond Ho' Hs). by apply elem_of_nil in Hcond.
Qed.

Lemma last_word_saved s : s ∈ saved_names → last_word s = s.
Proof.
  unfold saved_names. rewrite !elem_of_cons, elem_of_nil.
  intros [->|[->|[->|[]]]]; reflexivity.
Qed.

Lemma saved_loop {S} s (k : string → M S unit) (tc : S) :
  s ∈ saved_names →
  for_each saved_names
    (λ connection_name,
       if negb (String.eqb s connection_name) then ret tt
       else k connection_name) tc
  = k s tc.
Proof.
  unfold saved_names. rewrite !elem_of_cons, elem_of_nil.
  intros [->|[->|[->|[]]]]; cbn [for_each];
    repeat match goal with
    | |- context [String.eqb ?a ?b] =>
        let v := eval vm_compute in (String.eqb a b) in
        change (String.eqb a b) with v
    end; cbn [negb]; unfold bind, ret;
    by destruct (k _ tc) as [tc' [e|[]]].
Qed.

Lemma restoring_kept t3 done tc :
  nodes_kept t3 → restoring t3 done tc → nodes_kept tc.
Proof.
  intros (P' & Hnodes & Hskel) (Hn & _). exists P'. by rewrite Hn.
Qed.

Lemma restore_link_saved t3 D D' l0 node_input tc :
  nodes_kept t3 →
  links_into (n_id o) (s_name node_input) t = [l0] →
  s_name node_input ∈ saved_names →
  (∀ x, x ∈ D → x ∈ D') →
  (∀ x, x ∈ D' → x ∈ D ++ [s_name node_input]) →
  restoring t3 D' tc →
  ∃ tc',
    Node.restore_link inputs o node_input (saved_link l0) tc = (tc', inr tt)
    ∧ restoring t3 (D ++ [s_name node_input]) tc'.
Proof.
  intros Hkept3 Hone Hs Hsub Hsup Hre.
  pose proof (restoring_kept _ _ _ Hkept3 Hre) as Hkept.
  assert (l0 ∈ t_links t ∧ l_to_node l0 = n_id o
          ∧ l_to_socket l0 = s_name node_input) as (Hl0 & Hto0 & Hsock0).
  { assert (l0 ∈ links_into (n_id o) (s_name node_input) t) as Hin
      by (rewrite Hone; by constructor).
    by apply elem_of_links_into in Hin. }
  destruct (link_source l0 Hl0)
    as (n & source & Hn & Hsource & Hid & Hsock & Hfrom & _).
  unfold Node.restore_link. rewrite Hinputs.
  rewrite (last_word_saved _ Hs).
  rewrite bool_decide_eq_true_2 by done. cbn [negb].
  unfold bind at 1, get at 1. cbn [saved_link l_from_node l_from_socket].
  unfold bind at 1. rewrite (kept_node_by_id _ _ _ Hkept Hn).
  cbn [lift_opt ret].
  rewrite (kept_nodes_get _ _ _ Hkept Hsource).
  rewrite (saved_loop (s_name node_input) _ tc Hs).
  destruct (output_has _ Hs) as [x Hx]. rewrite Hx.
  destruct (has_sock_get _ _ Hsock) as [y Hy].
  cbn [lift_opt]. unfold bind at 1, ret at 1. unfold bind at 1, ret at 1.
  rewrite Hy. cbn [lift_opt]. unfold bind, ret, modify.
  eexists. split; [reflexivity|].
  destruct Hre as (Hnodes & Hinto & Hl). split; [done|]. split.
  - rewrite <- Hinto. apply links_new_same_into. apply output_is_old.
  - intros l Hto. rewrite elem_of_links_new, (Hl l Hto), Hid.
    assert ({| l_from_node := l_from_node l0;
               l_from_socket := l_from_socket l0;
               l_to_node := n_id o; l_to_socket := s_name node_input |} = l0)
      as -> by (destruct l0; simpl in *; congruence).
    unfold restored. split.
    + intros [[[[Hin Hcond]|[Hmain Hno]] Hother]| ->].
      * left. split; [done|]. intros Ho' Hs'. apply elem_of_app. left.
        specialize (Hcond Ho' Hs'). apply Hsup in Hcond.
        apply elem_of_app in Hcond as [Hd|Hd]; [done|].
        apply list_elem_of_singleton in Hd. exfalso. by apply Hother.
      * right. split; [done|]. intros [Hin Hne]. subst l.
        apply elem_of_app in Hin as [Hin|Hin]; [by apply Hno; auto|].
        apply list_elem_of_singleton in Hin. apply Hother. by split.
      * left. split; [done|]. intros _ _. apply elem_of_app. right.
        rewrite Hsock0. by constructor.
    + intros [[Hin Hcond]|[Hmain Hno]].
      * destruct (decide (l_to_node l = n_id o
                          ∧ l_to_socket l = s_name node_input))
          as [[Ho' Es]|Hother].
        -- right.
           assert (l ∈ links_into (n_id o) (s_name node_input) t) as Hin'
             by (by apply elem_of_links_into).
           rewrite Hone in Hin'. by apply list_elem_of_singleton in Hin'.
        -- left. split; [|done]. left. split; [done|]. intros Ho' Hs'.
           apply Hsub. specialize (Hcond Ho' Hs').
           apply elem_of_app in Hcond as [Hd|Hd]; [done|].
           apply list_elem_of_singleton in Hd. exfalso. by apply Hother.
      * left. subst l. split.
        -- right. split; [done|]. intros [Hin Hne]. apply Hno.
           split; [|done]. apply Hsup in Hin. done.
        -- simpl. intros [_ Es]. apply Hno. split.
           ++ apply elem_of_app. right. rewrite <- Es. by constructor.
           ++ rewrite Es, Hone. done.
Qed.

Lemma restoring_skip t3 D s tc :
  restoring t3 D tc →
  s ∉ saved_names ∨ links_into (n_id o) s t = [] →
  restoring t3 (D ++ [s]) tc.
Proof.
  intros (Hn & Hi & Hl) Hs. split; [done|]. split; [done|].
  intros l Hto. rewrite (Hl l Hto). unfold restored.
  assert (∀ l', l' ∈ t_links t → l_to_node l' = n_id o →
                l_to_socket l' ∈ saved_names → l_to_socket l' ≠ s) as Hne.
  { intros l' Hin Ho' Hs' E. destruct Hs as [Hs|Hs]; [by rewrite E in Hs'|].
    assert (l' ∈ links_into (n_id o) s t) as Hin'
      by (by apply elem_of_links_into).
    rewrite Hs in Hin'. by apply elem_of_nil in Hin'. }
  split.
  - intros [[Hin Hcond]|[Hmain Hno]].
    + left. split; [done|]. intros Ho' Hs'. apply elem_of_app. left. auto.
    + right. split; [done|]. intros [Hin Hlinks']. apply Hno. split; [|done].
      apply elem_of_app in Hin as [Hin|Hin]; [done|].
      apply list_elem_of_singleton in Hin. subst s.
      destruct Hs as [Hs|Hs]; [|done]. exfalso. apply Hs.
      apply list_elem_of_In. simpl. tauto.
  - intros [[Hin Hcond]|[Hmain Hno]].
    + left. split; [done|]. intros Ho' Hs'. specialize (Hcond Ho' Hs').
      apply elem_of_app in Hcond as [Hd|Hd]; [done|].
      apply list_elem_of_singleton in Hd. by destruct (Hne l Hin Ho' Hs').
    + right. split; [done|]. intros [Hin Hlinks']. apply Hno. split; [|done].
      apply elem_of_app. by left.
Qed.

Lemma restore_links_saved t3 D l0 node_input :
  nodes_kept t3 →
  links_into (n_id o) (s_name node_input) t = [l0] →
  s_name node_input ∈ saved_names →
  ∀ ls D' tc,
    Forall (λ l, l = saved_link l0) ls →
    (∀ x, x ∈ D → x ∈ D') →
    (∀ x, x ∈ D' → x ∈ D ++ [s_name node_input]) →
    restoring t3 D' tc →
    ∃ tc',
      for_each ls (Node.restore_link inputs o node_input) tc = (tc', inr tt)
      ∧ (ls ≠ [] → restoring t3 (D ++ [s_name node_input]) tc').
Proof.
  intros Hkept3 Hone Hs. induction ls as [|l ls IH]; intros D' tc Hall Hsub Hsup Hre.
  - exists tc. by split.
  - apply Forall_cons in Hall as [-> Hall']. cbn [for_each].
    destruct (restore_link_saved t3 D D' l0 node_input tc Hkept3 Hone Hs
                Hsub Hsup Hre) as (tc1 & E1 & Hre1).
    rewrite (bind_run _ _ _ _ _ E1).
    destruct (IH (D ++ [s_name node_input]) tc1 Hall') as (tc' & E' & Hre');
      [intros x Hx; apply elem_of_app; by left|done|done|].
    exists tc'. split; [done|]. intros _.
    destruct ls as [|l' ls']; [|by apply Hre'].
    simpl in E'. by injection E' as <-.
Qed.

Lemma for_each_skip {S A} (l : list A) (body : A → M S unit) (s : S) :
  (∀ a, body a = ret tt) → for_each l body s = (s, inr tt).
Proof.
  intros Hb. induction l as [|a l IH]; [done|].
  cbn [for_each]. by rewrite Hb.
Qed.

(** The body of the loop over the inputs of the passthrough. *)
Definition restore_socket (node_input : Sock) : M NodeTree unit :=
  let* t1 := get in
  for_each (links_into p (s_name node_input) t1)
    (Node.restore_link inputs o node_input).

Lemma restore_socket_run done t3 D node_input tc :
  relinked done t3 →
  (∀ s, s ∈ saved_names → s ∈ done) →
  s_name node_input ∈ s_name <$> group_sockets "INPUT" g →
  restoring t3 D tc →
  ∃ tc', restore_socket node_input tc = (tc', inr tt)
         ∧ restoring t3 (D ++ [s_name node_input]) tc'.
Proof.
  intros Hrel Hdone Hinput Hre. pose proof Hrel as (Hkept3 & Hl3).
  unfold restore_socket, bind at 1, get at 1.
  assert (links_into p (s_name node_input) tc
          = links_into p (s_name node_input) t3) as ->.
  { rewrite !links_into_into_node. by destruct Hre as (_ & -> & _). }
  destruct (decide (s_name node_input ∈ saved_names)) as [Hs|Hs].
  - assert (∀ l, l ∈ links_into p (s_name node_input) t3 →
                 ∃ l0, l0 ∈ links_into (n_id o) (s_name node_input) t
                       ∧ l = saved_link l0) as Hsaved.
    { intros l Hin. apply elem_of_links_into in Hin as (Hin & Hto & Hsock).
      apply Hl3 in Hin; [|intros [_ Hfree]; by rewrite Hsock in Hfree].
      destruct Hin as [[[Hin|(l0 & Hin & Ho' & _ & _ & ->)] _]| ->].
      - by destruct (link_source l Hin) as (_ & _ & _ & _ & _ & _ & _ & Hne).
      - exists l0. split; [|done]. apply elem_of_links_into.
        simpl in Hsock. done.
      - simpl in Hto. by destruct output_is_old. }
    destruct (one_link _ Hs) as [Hnone|[l0 Hone]].
    + assert (links_into p (s_name node_input) t3 = []) as ->.
      { destruct (links_into p (s_name node_input) t3) as [|l ls] eqn:E;
          [done|].
        destruct (Hsaved l) as (l0 & Hl0 & _); [by constructor|].
        rewrite Hnone in Hl0. by apply elem_of_nil in Hl0. }
      exists tc. split; [done|]. apply restoring_skip; [done|by right].
    + destruct (restore_links_saved t3 D l0 node_input Hkept3 Hone Hs
                  (links_into p (s_name node_input) t3) D tc)
        as (tc' & E & Hre'); [|done|intros x Hx; apply elem_of_app; by left
                             |done|].
      { apply Forall_forall. intros l Hin.
        destruct (Hsaved l Hin) as (l0' & Hl0' & ->).
        rewrite Hone in Hl0'. apply list_elem_of_singleton in Hl0'.
        by rewrite Hl0'. }
      exists tc'. split; [done|]. apply Hre'.
      assert (saved_link l0 ∈ links_into p (s_name node_input) t3) as Hin.
      { assert (l0 ∈ links_into (n_id o) (s_name node_input) t) as Hl0
          by (rewrite Hone; by constructor).
        apply elem_of_links_into in Hl0 as (Hl0 & Ho' & Hsock).
        apply elem_of_links_into. split; [|done].
        apply Hl3; [intros [_ Hfree]; simpl in Hfree;
                    by rewrite Hsock in Hfree|].
        left. split.
        - right. exists l0. rewrite Hsock. by auto 10.
        - simpl. intros [Hp _]. by destruct output_is_old. }
      intros E'. rewrite E' in Hin. by apply elem_of_nil in Hin.
  - exists tc. split; [|apply restoring_skip; [done|by left]].
    apply for_each_skip. intros l. unfold Node.restore_link.
    rewrite Hinputs. rewrite bool_decide_eq_false_2; [done|].
    pose proof Hg_extra as Hall. rewrite Forall_forall in Hall.
    by destruct (Hall _ Hinput).
Qed.

Lemma restore_inputs_run done t3 :
  relinked done t3 →
  (∀ s, s ∈ saved_names → s ∈ done) →
  ∀ ins D tc,
    Forall (λ x, s_name x ∈ s_name <$> group_sockets "INPUT" g) ins →
    restoring t3 D tc →
    ∃ tc', for_each ins restore_socket tc = (tc', inr tt)
           ∧ restoring t3 (D ++ (s_name <$> ins)) tc'.
Proof.
  intros Hrel Hdone. induction ins as [|x ins IH]; intros D tc Hall Hre.
  - exists tc. by rewrite app_nil_r.
  - apply Forall_cons in Hall as [Hx Hall']. cbn [for_each].
    destruct (restore_socket_run done t3 D x tc Hrel Hdone Hx Hre)
      as (tc1 & E1 & Hre1).
    rewrite (bind_run _ _ _ _ _ E1).
    destruct (IH _ _ Hall' Hre1) as (tc' & E' & Hre').
    exists tc'. split; [done|].
    rewrite fmap_cons. by rewrite <- (assoc_L (++)) in Hre'.
Qed.

Lemma link_ends l :
  l ∈ t_links t →
  l_from_node l ∈ n_id <$> t_nodes t ∧ l_to_node l ∈ n_id <$> t_nodes t.
Proof.
  intros Hl. pose proof (Hlinks l Hl) as Hok. unfold link_ok in Hok.
  apply andb_true_iff in Hok as [Hok Hto].
  apply andb_true_iff in Hok as [_ Hfrom].
  by apply bool_decide_eq_true in Hto, Hfrom.
Qed.

(** [cleanup_node] on the passthrough. *)
Lemma cleanup_passthrough done t3 P' :
  relinked done t3 →
  (∀ s, s ∈ saved_names → s ∈ done) →
  node_by_id p t3 = Some P' →
  skeleton P' = skeleton P0 →
  t_nodes t3 = t_nodes t ++ [P'; F0] →
  ∃ t4, Node.cleanup_node inputs P' t3 = (t4, inr tt)
        ∧ t_nodes t4 = t_nodes t ++ [F0]
        ∧ ∀ l, l ∈ t_links t4 ↔ l ∈ t_links t.
Proof.
  intros Hrel Hdone HP Hskel Hnodes.
  unfold Node.cleanup_node, bind at 1, get at 1.
  rewrite (find_output_passthrough done t3 P' Hrel HP Hskel).
  assert (n_id P' = p) as Hid by (by injection Hskel).
  assert (s_name <$> n_inputs P' = s_name <$> group_sockets "INPUT" g)
    as Hins by (by injection Hskel).
  destruct (restore_inputs_run done t3 Hrel Hdone (n_inputs P') [] t3)
    as (tc & E & Hre).
  { apply Forall_forall. intros x Hx. rewrite <- Hins.
    apply list_elem_of_fmap. by exists x. }
  { by apply (restoring_nil done). }
  unfold restore_socket in E. rewrite <- Hid in E.
  rewrite (bind_run _ _ _ _ _ E). unfold modify.
  eexists. split; [reflexivity|]. rewrite Hid.
  destruct Hre as (Hn & _ & Hl). split.
  - unfold nodes_remove. cbn [t_nodes]. rewrite Hn, Hnodes, List.filter_app.
    rewrite filter_others; [|apply fresh_id_above]. cbn [List.filter].
    rewrite Hid, Nat.eqb_refl. cbn [negb].
    pose proof frame_is_not_passthrough as HF. apply Nat.eqb_neq in HF.
    by rewrite HF.
  - intros l. rewrite elem_of_nodes_remove_links. split.
    + intros (Hin & Hfrom & Hto). apply (Hl l Hto) in Hin.
      destruct Hin as [[Hin _]|[-> _]]; [done|]. by simpl in Hfrom.
    + intros Hin.
      destruct (link_source l Hin) as (_ & _ & _ & _ & _ & _ & Hfrom & Hto).
      split; [|done]. apply (Hl l Hto). left. split; [done|].
      intros _ Hs. simpl. rewrite Hins.
      pose proof Hg_in as Hall. rewrite Forall_forall in Hall.
      apply has_sock_elem. by apply Hall.
Qed.

(** [cleanup_node] on the frame. *)
Lemma cleanup_frame t4 :
  t_nodes t4 = t_nodes t ++ [F0] →
  (∀ l, l ∈ t_links t4 ↔ l ∈ t_links t) →
  ∃ t5, Node.cleanup_node inputs F0 t4 = (t5, inr tt)
        ∧ t_nodes t5 = t_nodes t
        ∧ ∀ l, l ∈ t_links t5 ↔ l ∈ t_links t.
Proof.
  intros Hnodes Hl. unfold Node.cleanup_node, bind at 1, get at 1.
  assert (Node.find_output_node F0 t4 = None) as -> by done.
  unfold modify. eexists. split; [reflexivity|]. split.
  - unfold nodes_remove. cbn [t_nodes]. rewrite Hnodes, List.filter_app.
    rewrite filter_others.
    + cbn [List.filter]. rewrite Nat.eqb_refl. cbn [negb].
      by rewrite app_nil_r.
    + apply Forall_forall. intros n Hn. apply old_is_not_frame.
      apply list_elem_of_fmap. by exists n.
  - intros l. rewrite elem_of_nodes_remove_links, Hl. split; [tauto|].
    intros Hin. destruct (link_ends l Hin) as [Hfrom Hto].
    split; [done|]. split; by apply old_is_not_frame.
Qed.

(** [cleanup_material] on the relinked tree. *)
Lemma cleanup_material_run done t3 mat3 :
  relinked done t3 →
  (∀ s, s ∈ saved_names → s ∈ done) →
  node_tree mat3 = Some t3 →
  ∃ mat5 t5,
    Node.cleanup_material H name inputs mat3 = (mat5, inr tt)
    ∧ node_tree mat5 = Some t5
    ∧ t_nodes t5 = t_nodes t
    ∧ ∀ l, l ∈ t_links t5 ↔ l ∈ t_links t.
Proof.
  intros Hrel Hdone Ht3.
  destruct (kept_passthrough t3 (proj1 Hrel)) as (P' & HP & Hskel & Hnodes).
  unfold Node.cleanup_material, bind at 1, modify at 1.
  unfold bind at 1.
  assert (node_tree (enable_nodes H mat3) = Some t3) as Ht3'
    by (unfold enable_nodes; simpl; by rewrite Ht3).
  rewrite (on_tree_run _ _ _ Ht3'). unfold get. cbn [fst snd].
  rewrite (set_tree_same _ _ Ht3').
  assert (name_in_nodes name t3 = true) as ->.
  { apply bool_decide_eq_true_2. unfold node_names. rewrite Hnodes.
    apply list_elem_of_fmap. exists P'.
    split; [by rewrite (passthrough_name P' Hskel)|].
    apply elem_of_app. right. by constructor. }
  cbn [negb].
  assert (List.filter (λ n, startswith (n_name n) name) (t_nodes t3)
          = [P'; F0]) as ->.
  { rewrite Hnodes, List.filter_app.
    rewrite (filter_none _ _ Hnames). cbn [List.filter app].
    rewrite (passthrough_name P' Hskel).
    unfold startswith at 1. rewrite prefix_refl. by rewrite frame_name. }
  rewrite (on_tree_run _ _ _ Ht3'). cbn [for_each].
  destruct (cleanup_passthrough done t3 P' Hrel Hdone HP Hskel Hnodes)
    as (t4 & E4 & Hn4 & Hl4).
  rewrite (bind_run _ _ _ _ _ E4).
  destruct (cleanup_frame t4 Hn4 Hl4) as (t5 & E5 & Hn5 & Hl5).
  rewrite (bind_run _ _ _ _ _ E5). unfold ret. cbn [fst snd].
  eexists _, t5. split; [reflexivity|]. by split.
Qed.

(** *** The two halves together *)

(** [splice_output] up to the loop over the sockets of the output node. *)
Lemma splice_output_steps props material_name ok mat txt :
  node_tree mat = Some t →
  Node.splice_output G H props (Some g) name material_name o ok (mat, txt)
  = (let* ok' :=
       Node.on_mat
         (Node.splice_links G H props name material_name p o ok) in
     Node.on_mat (Node.on_tree relink) >> ret ok')
      (set_tree (with_passthrough g o t) mat,
       <[Node.warning_text := NG_NODE_WARNING G]> txt).
Proof.
  intros Ht. unfold Node.splice_output, with_passthrough.
  destruct (Node.location_of o) as [x y].
  unfold bind at 1. rewrite (on_mat_tree _ _ _ _ Ht).
  unfold nodes_new. cbn [fst snd from_option].
  match goal with
  | |- context [set_node_attr _ _ _ {| t_nodes := _ ++ [?n]; t_links := _ |}] =>
      change {| t_nodes := t_nodes t ++ [n]; t_links := t_links t |}
        with (add_node n t)
  end.
  rewrite set_node_attr_add; [|done].
  unfold bind at 1, lift_opt at 1, ret at 1.
  unfold bind at 1.
  erewrite on_mat_tree_run; [|reflexivity|reflexivity].
  rewrite set_node_name_add; [|done].
  rewrite set_node_attr_add; [|done].
  unfold bind at 1, Node.write_text at 1, modify at 1.
  unfold bind at 1.
  erewrite on_mat_tree_run; [|reflexivity|unfold nodes_new; reflexivity].
  match goal with
  | |- context [set_node_attr _ "location" _
                  {| t_nodes := t_nodes ?t1 ++ [?n]; t_links := _ |}] =>
      change {| t_nodes := t_nodes t1 ++ [n]; t_links := t_links t1 |}
        with (add_node n t1)
  end.
  rewrite set_node_attr_add; [|done].
  rewrite set_node_name_add; [|done].
  rewrite !set_node_attr_add; [|done..].
  reflexivity.
Qed.

Lemma splice_output_relinked props material_name ok mat txt mat1 txt1 b :
  node_tree mat = Some t →
  Node.splice_output G H props (Some g) name material_name o ok (mat, txt)
  = ((mat1, txt1), inr b) →
  ∃ t3, node_tree mat1 = Some t3 ∧ relinked (s_name <$> n_inputs o) t3.
Proof.
  intros Ht. rewrite (splice_output_steps _ _ _ _ _ Ht).
  unfold bind at 1, Node.on_mat at 1.
  destruct (Node.splice_links _ _ _ _ _ _ _ _ _) as [mat2 [e|ok2]] eqn:E;
    [done|].
  destruct (splice_links_visited props material_name (n_inputs o) [] ok
              (set_tree (with_passthrough g o t) mat) (with_passthrough g o t)
              mat2 ok2 eq_refl visited_nil E) as (t2 & Ht2 & Hv).
  destruct (relink_run _ t2 Hv) as (t3 & E3 & Hrel).
  unfold bind at 1. rewrite (on_mat_tree_run _ _ _ _ _ _ Ht2 E3).
  unfold ret. intros [= <- _ _]. by exists t3.
Qed.

End RoundTrip.

(** [get_material_output_inputs] names the saved sockets. *)
Lemma get_material_output_inputs_saved H d :
  ∃ d' inputs,
    Node.get_material_output_inputs H d = (d', inr inputs)
    ∧ inputs.*1 = saved_names.
Proof.
  unfold Node.get_material_output_inputs, bind at 1, modify at 1.
  unfold bind at 1, Node.on_new_group, Node.groups_new. cbn [node_groups set_node_groups].
  rewrite fmap_app. cbn [fmap list_fmap]. rewrite last_last.
  destruct (Node.new H "ShaderNodeOutputMaterial" _) as [r' [e|i]] eqn:E;
    [by unfold Node.new in E|].
  eexists _, _. split; reflexivity.
Qed.


(** A material whose output node is fed on Surface, Volume and
    Displacement. *)
Definition wired_output : Node :=
  {| n_id := 1; n_name := "Material Output"; n_type := "OUTPUT_MATERIAL";
     n_group := None;
     n_inputs := (λ p, {| s_name := p.1; s_type := p.2; s_default := None |})
                 <$> material_output_sockets;
     n_outputs := []; n_attrs := [] |}.

Definition wired_tree : NodeTree :=
  let t := default_tree sample_Host in
  {| t_nodes :=
       t_nodes t ++
       [ {| n_id := 2; n_name := "Volume Scatter"; n_type := "VOLUME_SCATTER";
            n_group := None; n_inputs := [];
            n_outputs := [ {| s_name := "Volume"; s_type := "SHADER";
                              s_default := None |} ];
            n_attrs := [] |};
         {| n_id := 3; n_name := "Displacement"; n_type := "DISPLACEMENT";
            n_group := None; n_inputs := [];
            n_outputs := [ {| s_name := "Displacement"; s_type := "VECTOR";
                              s_default := None |} ];
            n_attrs := [] |} ];
     t_links :=
       t_links t ++
       [ {| l_from_node := 2; l_from_socket := "Volume";
            l_to_node := 1; l_to_socket := "Volume" |};
         {| l_from_node := 3; l_from_socket := "Displacement";
            l_to_node := 1; l_to_socket := "Displacement" |} ] |}.

Definition wired_material : Material :=
  {| use_nodes := true; blend_method := "OPAQUE";
     node_tree := Some wired_tree |}.

(** The Base Color recipe of [node_init]. *)
Definition color_group : Recipe :=
  default {| r_name := ""; r_use_fake_user := false; r_panels := [];
             r_interface := []; r_nodes := []; r_links := [] |}
    (groups_get "GD_Base Color" recipes_doc).

(** The sockets [get_material_output_inputs] names. *)
Definition saved_inputs : list (string * string) :=
  [ ("Surface", "NodeSocketShader"); ("Volume", "NodeSocketShader");
    ("Displacement", "NodeSocketVector") ].


(** The same through [apply_node_to_objects] and [node_cleanup], on a cube
    with the wired material: the material is as it was. *)
Example apply_then_cleanup_wired :
  let d := scene [Some "Wired"] {[ "Wired" := wired_material ]} in
  let applied :=
    Node.apply_node_to_objects sample_Global sample_Host "GD_Base Color"
      ["Cube"] d in
  let cleaned :=
    Node.node_cleanup sample_Global sample_Host (Some "GD_Base Color")
      applied.1 in
  (name_in_nodes "GD_Base Color"
   <$> (materials applied.1 !! "Wired" ≫= node_tree)) = Some true
  ∧ cleaned.2 = inr tt
  ∧ materials cleaned.1 !! "Wired" = Some wired_material.
Proof. vm_compute. repeat split; reflexivity. Qed.

